(** * CPC daemon, UART driver ([driver/driver_uart.c])

    A shallow embedding of the UART driver of the Co-Processor Communication
    daemon: the ingress frame delimiter ([driver_uart_process_uart] and its
    helpers), the paced egress path ([driver_uart_process_core]) with the
    floating-point computation of its sleeps, the epoll dispatcher
    ([driver_thread_func]), [driver_uart_open] and [driver_uart_init].

    Conventions.
    - [size_t] values are integers reduced modulo [2 ^ 64]; every C
      subtraction or addition on them is written with its wrap-around.
    - A [uint8_t] is a [Byte.byte]; the static array [buffer] is a list of
      bytes whose length is the size of the array, the cursor [buffer_head]
      tells how many of them are meaningful.
    - A system call is answered by an oracle supplied by the caller, a
      [FATAL]/[BUG] macro ends the computation with [Fatal].
    - A [double] is an IEEE 754 binary64 number, a [spec_float] with
      precision 53 and maximal exponent 1024; an operation whose result C
      leaves undefined yields [None]. *)

From Stdlib Require Import ZArith List Lia Bool.
From Stdlib Require Import Strings.Byte.
From Stdlib Require Import Floats.SpecFloat.
Import ListNotations.
Local Open Scope Z_scope.

(** ** Machine integers and outcomes *)

Definition size_t (z : Z) : Z := z mod 2 ^ 64.
Definition uint16_t (z : Z) : Z := z mod 2 ^ 16.

(** A computation either returns or runs into [FATAL], [FATAL_ON],
    [FATAL_SYSCALL_ON], [BUG] or [BUG_ON], which end the process. *)
Inductive result (A : Type) : Type :=
| Ok (a : A)
| Fatal.
Arguments Ok {A} a.
Arguments Fatal {A}.

(** ** Memory blocks *)

(** The [n] bytes of [buf] from offset [off] on. *)
Definition sub_array (buf : list byte) (off n : Z) : list byte :=
  firstn (Z.to_nat n) (skipn (Z.to_nat off) buf).

(** [memmove(&buf[dst], &buf[src], n)]: the source block is read before
    anything is written, so overlapping blocks are fine. *)
Definition memmove (buf : list byte) (dst src n : Z) : list byte :=
  firstn (Z.to_nat dst) buf ++ sub_array buf src n
    ++ skipn (Z.to_nat (dst + n)) buf.

(** [memcpy(&buf[dst], src, n)] from a separate block [src]. *)
Definition memcpy (buf : list byte) (dst : Z) (src : list byte) (n : Z)
  : list byte :=
  firstn (Z.to_nat dst) buf ++ firstn (Z.to_nat n) src
    ++ skipn (Z.to_nat (dst + n)) buf.

(** ** The frame codec ([hdlc.h], [crc.h])

    The two headers are not part of the driver; the driver only uses the
    constants and accessors below.  An accessor is handed a pointer to a raw
    header: here it receives the [SLI_CPC_HDLC_HEADER_RAW_SIZE] bytes found
    at that address. *)
Record hdlc : Type := {
  SLI_CPC_HDLC_HEADER_RAW_SIZE : Z;
  SLI_CPC_HDLC_HEADER_SIZE : Z;
  SLI_CPC_HDLC_FLAG_POS : Z;
  SLI_CPC_HDLC_FLAG_VAL : Z;
  hdlc_get_hcs : list byte -> Z;
  hdlc_get_length : list byte -> Z;
  sli_cpc_validate_crc_sw : list byte -> Z -> Z -> bool
}.

(** ** System calls of the ingress path *)
Record uart_syscalls : Type := {
  (** return value of [ioctl(fd_uart, FIONREAD, &available_bytes)] *)
  fionread_retval : Z;
  (** the value of [available_bytes] after that call: the variable is a
      [size_t] the driver does not initialise, the call stores an [int] *)
  fionread_bytes : Z;
  (** does [malloc] of that many bytes return a block *)
  malloc_ok : Z -> bool;
  (** [read(fd_uart, temp_buffer, count)]: [None] for an error return,
      otherwise the bytes stored, whose number is the return value *)
  read_fd_uart : Z -> option (list byte);
  (** return value of [write(fd_core, frame, length frame)] *)
  write_fd_core : list byte -> Z
}.

Inductive sync_state : Type :=
| EXPECTING_HEADER
| EXPECTING_PAYLOAD.

(** The static locals of [driver_uart_process_uart], together with the
    datagrams written to [fd_core] so far. *)
Record uart_ingress : Type := {
  buffer : list byte;
  buffer_head : Z;
  state : sync_state;
  core_frames : list (list byte)
}.

Section Ingress.

Variable c : hdlc.

(** [#define UART_BUFFER_SIZE 4096 + SLI_CPC_HDLC_HEADER_RAW_SIZE] *)
Definition UART_BUFFER_SIZE : Z := 4096 + SLI_CPC_HDLC_HEADER_RAW_SIZE c.

(** [validate_header(header_start)] on the raw header at that address. *)
Definition validate_header (header_start : list byte) : bool :=
  if negb (Z.of_N (Byte.to_N
             (nth (Z.to_nat (SLI_CPC_HDLC_FLAG_POS c)) header_start x00))
           =? SLI_CPC_HDLC_FLAG_VAL c)
  then false
  else
    let hcs := uint16_t (hdlc_get_hcs c header_start) in
    if negb (sli_cpc_validate_crc_sw c header_start
               (SLI_CPC_HDLC_HEADER_SIZE c) hcs)
    then false
    else true.

(** The [for (i = 0; i != num_header_combination; i++)] loop of
    [header_re_synch], [todo] being the iterations left, followed by the
    block after the loop. *)
Fixpoint header_re_synch_scan (buffer : list byte) (buffer_head : Z)
    (num_header_combination : Z) (i : Z) (todo : nat)
  : bool * list byte * Z :=
  match todo with
  | O =>
      (false,
       memmove buffer 0 num_header_combination
         (size_t (SLI_CPC_HDLC_HEADER_RAW_SIZE c - 1)),
       size_t (SLI_CPC_HDLC_HEADER_RAW_SIZE c - 1))
  | S todo' =>
      if validate_header (sub_array buffer i (SLI_CPC_HDLC_HEADER_RAW_SIZE c))
      then
        if i =? 0
        then (true, buffer, buffer_head)
        else (true,
              memmove buffer 0 i (size_t (buffer_head - i)),
              size_t (buffer_head - i))
      else
        header_re_synch_scan buffer buffer_head num_header_combination
          (size_t (i + 1)) todo'
  end.

(** [header_re_synch(buffer, &buffer_head)]: the returned flag, the array
    and the cursor afterwards. *)
Definition header_re_synch (buffer : list byte) (buffer_head : Z)
  : bool * list byte * Z :=
  if buffer_head <? SLI_CPC_HDLC_HEADER_RAW_SIZE c
  then (false, buffer, buffer_head)
  else
    let num_header_combination :=
      size_t (buffer_head - SLI_CPC_HDLC_HEADER_RAW_SIZE c + 1) in
    header_re_synch_scan buffer buffer_head num_header_combination 0
      (Z.to_nat num_header_combination).

(** [delimit_and_push_frames_to_core(buffer, &buffer_head)]: the returned
    flag, the array, the cursor and the datagrams on [fd_core]. *)
Definition delimit_and_push_frames_to_core (io : uart_syscalls)
    (buffer : list byte) (buffer_head : Z) (core : list (list byte))
  : result (bool * list byte * Z * list (list byte)) :=
  if buffer_head <? SLI_CPC_HDLC_HEADER_RAW_SIZE c
  then Ok (false, buffer, buffer_head, core)
  else
    let payload_len :=
      uint16_t (hdlc_get_length c
                  (sub_array buffer 0 (SLI_CPC_HDLC_HEADER_RAW_SIZE c))) in
    let frame_size := size_t (payload_len + SLI_CPC_HDLC_HEADER_RAW_SIZE c) in
    if frame_size >? buffer_head
    then Ok (false, buffer, buffer_head, core)
    else
      let frame := sub_array buffer 0 frame_size in
      let write_retval := write_fd_core io frame in
      if write_retval <? 0
      then Fatal
      else if negb (size_t write_retval =? frame_size)
      then Fatal
      else
        let remaining_bytes := size_t (buffer_head - frame_size) in
        Ok (true,
            memmove buffer 0 frame_size remaining_bytes,
            remaining_bytes,
            core ++ [frame]).

(** [read_and_append_uart_received_data(buffer, buffer_head, buffer_size)]:
    the array afterwards and the number of bytes appended. *)
Definition read_and_append_uart_received_data (io : uart_syscalls)
    (buffer : list byte) (buffer_head buffer_size : Z)
  : result (list byte * Z) :=
  if fionread_retval io <? 0
  then Fatal
  else
    let available_bytes := size_t (fionread_bytes io) in
    if available_bytes =? 0
    then Fatal
    else
      let available_space := size_t (buffer_size - buffer_head) in
      let actual_read_bytes :=
        if available_bytes <? available_space
        then available_bytes
        else available_space in
      if negb (malloc_ok io actual_read_bytes)
      then Fatal
      else
        match read_fd_uart io actual_read_bytes with
        | None => Fatal
        | Some temp_buffer =>
            if negb (Z.of_nat (length temp_buffer) =? actual_read_bytes)
            then Fatal
            else
              Ok (memcpy buffer buffer_head temp_buffer actual_read_bytes,
                  actual_read_bytes)
        end.

(** One turn of the [while (1)] of [driver_uart_process_uart]: [true]
    when the [switch] ends in [break] (the loop goes on), [false] when it
    ends in [return].  The [default: BUG()] branch has no counterpart, the
    state being one of the two. *)
Definition uart_iteration (io : uart_syscalls) (d : uart_ingress)
  : result (bool * uart_ingress) :=
  match state d with
  | EXPECTING_HEADER =>
      let '(synched, buffer', head') :=
        header_re_synch (buffer d) (buffer_head d) in
      if synched
      then Ok (true,
               {| buffer := buffer'; buffer_head := head';
                  state := EXPECTING_PAYLOAD;
                  core_frames := core_frames d |})
      else Ok (false,
               {| buffer := buffer'; buffer_head := head';
                  state := EXPECTING_HEADER;
                  core_frames := core_frames d |})
  | EXPECTING_PAYLOAD =>
      match delimit_and_push_frames_to_core io (buffer d) (buffer_head d)
              (core_frames d) with
      | Fatal => Fatal
      | Ok (pushed, buffer', head', core') =>
          if pushed
          then Ok (true,
                   {| buffer := buffer'; buffer_head := head';
                      state := EXPECTING_HEADER;
                      core_frames := core' |})
          else Ok (false,
                   {| buffer := buffer'; buffer_head := head';
                      state := EXPECTING_PAYLOAD;
                      core_frames := core' |})
      end
  end.

(** The [while (1)] loop, cut after [fuel] turns: [None] when the loop is
    still running then. *)
Fixpoint uart_loop (fuel : nat) (io : uart_syscalls) (d : uart_ingress)
  : option (result uart_ingress) :=
  match fuel with
  | O => None
  | S fuel' =>
      match uart_iteration io d with
      | Fatal => Some Fatal
      | Ok (true, d') => uart_loop fuel' io d'
      | Ok (false, d') => Some (Ok d')
      end
  end.

(** Number of turns granted to the loop for a given cursor. *)
Definition uart_loop_turns (buffer_head : Z) : nat :=
  Z.to_nat (2 * buffer_head + 2).

(** [driver_uart_process_uart()], one invocation by the dispatcher. *)
Definition driver_uart_process_uart (io : uart_syscalls) (d : uart_ingress)
  : option (result uart_ingress) :=
  match read_and_append_uart_received_data io (buffer d) (buffer_head d)
          UART_BUFFER_SIZE with
  | Fatal => Some Fatal
  | Ok (buffer', appended) =>
      let head' := size_t (buffer_head d + appended) in
      uart_loop (uart_loop_turns head') io
        {| buffer := buffer'; buffer_head := head';
           state := state d; core_frames := core_frames d |}
  end.

End Ingress.

(** ** The serial link feeding the ingress path

    A well-behaved link for one invocation of [driver_uart_process_uart]:
    [pending] are the bytes waiting in the receive queue, [FIONREAD] reports
    their number, [malloc] succeeds and [read] hands over the first [count]
    of them.  [wr] answers the writes to [fd_core]. *)
Definition link_syscalls (pending : list byte) (wr : list byte -> Z)
  : uart_syscalls :=
  {| fionread_retval := 0;
     fionread_bytes := Z.of_nat (length pending);
     malloc_ok := fun _ => true;
     read_fd_uart := fun count => Some (sub_array pending 0 count);
     write_fd_core := wr |}.

(** [ioctl(fd_uart, FIONREAD, &available_bytes)] stores an [int], and
    [available_bytes] is a [size_t] the driver does not initialise.  Where
    [size_t] has 64 bits and the low-order bytes come first, the low half of
    the variable is then the count stored, and the high half is still what
    the variable held before the call, [stale]. *)
Definition available_bytes_after (stale count : Z) : Z :=
  size_t stale / 2 ^ 32 * 2 ^ 32 + count mod 2 ^ 32.

(** The link of [link_syscalls] read through such a variable. *)
Definition stale_link_syscalls (stale : Z) (pending : list byte)
    (wr : list byte -> Z) : uart_syscalls :=
  {| fionread_retval := 0;
     fionread_bytes :=
       available_bytes_after stale (Z.of_nat (length pending));
     malloc_ok := fun _ => true;
     read_fd_uart := fun count => Some (sub_array pending 0 count);
     write_fd_core := wr |}.

(** The bytes one invocation of [driver_uart_process_uart] reads from the
    link. *)
Definition bytes_read (c : hdlc) (io : uart_syscalls) (d : uart_ingress)
  : list byte :=
  match read_and_append_uart_received_data io (buffer d) (buffer_head d)
          (UART_BUFFER_SIZE c) with
  | Ok (_, appended) =>
      match read_fd_uart io appended with
      | Some temp_buffer => temp_buffer
      | None => []
      end
  | Fatal => []
  end.

(** The dispatcher calls [driver_uart_process_uart] once per wake-up of the
    link, each call with its own answers from the system: the state after
    the last call and all the bytes read, in order. *)
Fixpoint uart_calls (c : hdlc) (ios : list uart_syscalls) (d : uart_ingress)
  : option (result (uart_ingress * list byte)) :=
  match ios with
  | [] => Some (Ok (d, []))
  | io :: ios' =>
      match driver_uart_process_uart c io d with
      | None => None
      | Some Fatal => Some Fatal
      | Some (Ok d') =>
          match uart_calls c ios' d' with
          | None => None
          | Some Fatal => Some Fatal
          | Some (Ok (d'', later)) =>
              Some (Ok (d'', bytes_read c io d ++ later))
          end
      end
  end.

(** ** Egress: [driver_uart_process_core] *)

(** What the egress path does to the outside world, in program order. *)
Inductive egress_event : Type :=
| EvReadCore (msg : list byte)        (* read(fd_core, ...) returned msg *)
| EvQueueDepth (bytes_remaining : Z)  (* ioctl(fd_uart, TIOCOUTQ, ...) *)
| EvSleep (usec : Z)                  (* usleep(usec) returned *)
| EvWriteUart (msg : list byte).      (* write(fd_uart, ...) was issued *)

Record core_syscalls : Type := {
  (** [read(fd_core, buffer, sizeof(buffer))]: [None] for an error return *)
  read_fd_core : option (list byte);
  (** return value of the first [ioctl(fd_uart, TIOCOUTQ, ...)] *)
  tiocoutq_retval : Z;
  (** the depth that first call stores in [bytes_remaining] *)
  tiocoutq_first : Z;
  (** the depths stored by the calls made inside the drain loop, in order *)
  tiocoutq_polls : list Z;
  (** return value of [write(fd_uart, msg, length msg)] *)
  write_fd_uart : list byte -> Z
}.

(** *** The length of a sleep

    Both arguments of [usleep] are values of
    [(unsigned int)(((double) bits / uart_bitrate) * 1000000)], where
    [bits] is an [int] and [uart_bitrate] the [unsigned int] stored by
    [driver_uart_init].  The division and the multiplication are those of
    binary64, each rounded to nearest, ties to even, with no excess
    precision kept in between ([FLT_EVAL_METHOD] 0). *)

(** [(double) z] for an [int] or an [unsigned int] [z]. *)
Definition double_of_Z (z : Z) : spec_float :=
  binary_normalize 53 1024 z 0 false.

(** [(unsigned int) x]: the fraction is discarded; C leaves the result
    undefined when what remains is not a value of [unsigned int]. *)
Definition unsigned_int_of_double (x : spec_float) : option Z :=
  match x with
  | S754_zero _ => Some 0
  | S754_finite s m e =>
      let integral := Z.shiftl (Zpos m) e in
      if s
      then if integral =? 0 then Some 0 else None
      else if integral <? 2 ^ 32 then Some integral else None
  | S754_infinity _ => None
  | S754_nan => None
  end.

(** [time_usec] for a bit count [bits], the value of [bytes_remaining * 8]
    or [20 * 8]: undefined when that product overflows [int], and when the
    conversion of the result is. *)
Definition time_usec (uart_bitrate bits : Z) : option Z :=
  if (bits <? - 2 ^ 31) || (2 ^ 31 <=? bits)
  then None
  else
    unsigned_int_of_double
      (SFmul 53 1024
         (SFdiv 53 1024 (double_of_Z bits) (double_of_Z uart_bitrate))
         (double_of_Z 1000000)).

Section Egress.

(** What [usleep] is called with for a bit count: [time_usec] at the bit
    rate stored by [driver_uart_init] wherever C defines that value (see
    [is_time_usec] below); what the program does elsewhere is not
    prescribed, so the function is left open there. *)
Variable usec_of_bits : Z -> Z.

(** [while (bytes_remaining != 0) { usleep(...); ioctl(...); }].  [None]
    when the queue has not been seen empty after the given polls: the loop
    is still running. *)
Fixpoint drain_transmit_queue (polls : list Z) (bytes_remaining : Z)
    (trace : list egress_event) : list egress_event * bool :=
  if bytes_remaining =? 0
  then (trace, true)
  else
    match polls with
    | [] => (trace, false)
    | depth :: polls' =>
        drain_transmit_queue polls' depth
          (trace ++ [EvSleep (usec_of_bits (bytes_remaining * 8));
                     EvQueueDepth depth])
    end.

(** [driver_uart_process_core()]: the events in program order, and how the
    call ends ([None]: still polling the transmit queue). *)
Definition driver_uart_process_core (io : core_syscalls)
  : list egress_event * option (result unit) :=
  match read_fd_core io with
  | None => ([], Some Fatal)
  | Some msg =>
      let trace := [EvReadCore msg] in
      if tiocoutq_retval io <? 0
      then (trace, Some Fatal)
      else
        let bytes_remaining := tiocoutq_first io in
        let trace := trace ++ [EvQueueDepth bytes_remaining] in
        if bytes_remaining <? 0
        then (trace, Some Fatal)
        else
          match drain_transmit_queue (tiocoutq_polls io) bytes_remaining
                  trace with
          | (trace, false) => (trace, None)
          | (trace, true) =>
              let trace := trace ++ [EvSleep (usec_of_bits (20 * 8))] in
              let write_retval := write_fd_uart io msg in
              let trace := trace ++ [EvWriteUart msg] in
              if write_retval <? 0
              then (trace, Some Fatal)
              else if negb (size_t write_retval
                            =? size_t (Z.of_nat (length msg)))
              then (trace, Some Fatal)
              else (trace, Some (Ok tt))
          end
  end.

End Egress.

(** The depths [n - 1, ..., 1, 0]. *)
Fixpoint countdown (n : nat) : list Z :=
  match n with
  | O => []
  | S n' => Z.of_nat n' :: countdown n'
  end.

(** The sleep and the poll of one turn of the drain loop that ends with
    [depth] bytes seen in the queue, when the turn started with one more. *)
Definition drain_turn (usec_of_bits : Z -> Z) (depth : Z)
  : list egress_event :=
  [EvSleep (usec_of_bits ((depth + 1) * 8)); EvQueueDepth depth].

(** The system calls of one egress invocation: the core hands over [msg],
    the transmit queue holds [n] bytes at first and one byte less at each
    later poll, and the link takes the message whole. *)
Definition draining_link (msg : list byte) (n : nat) : core_syscalls :=
  {| read_fd_core := Some msg;
     tiocoutq_retval := 0;
     tiocoutq_first := Z.of_nat n;
     tiocoutq_polls := countdown n;
     write_fd_uart := fun m => Z.of_nat (length m) |}.

(** ** The dispatcher: [driver_thread_func] *)

(** The two callbacks registered with epoll in [driver_uart_init]. *)
Inductive driver_epoll_callback_t : Type :=
| callback_process_core
| callback_process_uart.

(** One answer of [epoll_wait(fd_epoll, events, MAX_EPOLL_EVENTS, -1)]. *)
Record epoll_answer : Type := {
  event_count : Z;
  errno : Z;
  (** the entries stored in [events], [event_count] of them on success *)
  events : list driver_epoll_callback_t
}.

Inductive thread_outcome (S : Type) : Type :=
| Waiting (s : S)   (* blocked in epoll_wait, no answer yet *)
| Died.             (* a fatal condition ended the process *)
Arguments Waiting {S} s.
Arguments Died {S}.

Section Dispatcher.

(** [errno.h] *)
Variable EINTR : Z.

(** The state the callbacks work on and what a callback does to it. *)
Variable S : Type.
Variable callback : driver_epoll_callback_t -> S -> result S.

(** [for (event_i = 0; event_i != (size_t)event_count; event_i++)
      callback();] *)
Fixpoint process_ready (ready : list driver_epoll_callback_t) (s : S)
  : result S :=
  match ready with
  | [] => Ok s
  | cb :: ready' =>
      match callback cb s with
      | Fatal => Fatal
      | Ok s' => process_ready ready' s'
      end
  end.

(** [driver_thread_func]: the [while (1)] loop run against the successive
    answers of [epoll_wait]. *)
Fixpoint driver_thread_func (answers : list epoll_answer) (s : S)
  : thread_outcome S :=
  match answers with
  | [] => Waiting s
  | a :: answers' =>
      if (event_count a =? -1) && (errno a =? EINTR)
      then driver_thread_func answers' s
      else if event_count a <? 0
      then Died
      else if event_count a =? 0
      then Died
      else
        match process_ready
                (firstn (Z.to_nat (event_count a)) (events a)) s with
        | Fatal => Died
        | Ok s' => driver_thread_func answers' s'
        end
  end.

End Dispatcher.

(** ** Opening the link: [driver_uart_open] *)

(** The speed symbols of [termios.h]. *)
Record termios_h : Type := {
  B9600 : Z; B19200 : Z; B38400 : Z; B57600 : Z;
  B115200 : Z; B230400 : Z; B460800 : Z; B921600 : Z
}.

Record open_syscalls : Type := {
  open_retval : Z;        (* open(device, O_RDWR | O_CLOEXEC) *)
  tcgetattr_retval : Z;   (* tcgetattr(fd, &tty) *)
  tcsetattr_retval : Z    (* tcsetattr(fd, TCSAFLUSH, &tty) *)
}.

(** The table [conversion] of [driver_uart_open]: pairs [val], [symbolic]. *)
Definition conversion (t : termios_h) : list (Z * Z) :=
  [ (9600, B9600 t); (19200, B19200 t); (38400, B38400 t);
    (57600, B57600 t); (115200, B115200 t); (230400, B230400 t);
    (460800, B460800 t); (921600, B921600 t) ].

(** The [for] loop over [conversion]: a later match overwrites an earlier
    one. *)
Fixpoint find_sym_bitrate (table : list (Z * Z)) (bitrate : Z)
    (sym_bitrate : Z) : Z :=
  match table with
  | [] => sym_bitrate
  | (val, symbolic) :: table' =>
      find_sym_bitrate table' bitrate
        (if val =? bitrate then symbolic else sym_bitrate)
  end.

(** [driver_uart_open(device, bitrate, hardflow)]: the descriptor returned.
    The flag bits set in [tty] do not influence the outcome and are left
    out. *)
Definition driver_uart_open (t : termios_h) (io : open_syscalls)
    (bitrate : Z) (hardflow : bool) : result Z :=
  let fd := open_retval io in
  if fd <? 0
  then Fatal
  else if tcgetattr_retval io =? -1
  then Fatal
  else
    let sym_bitrate := find_sym_bitrate (conversion t) bitrate (-1) in
    if sym_bitrate <? 0
    then Fatal
    else if tcsetattr_retval io <? 0
    then Fatal
    else Ok fd.

(** The bit rates [driver_uart_open] knows. *)
Definition supported_bitrates : list Z :=
  [9600; 19200; 38400; 57600; 115200; 230400; 460800; 921600].

(** The statements of [driver_uart_open] between [tcgetattr] and
    [tcsetattr], which set up the [struct termios] handed to the latter. *)

(** [struct termios], as far as the driver touches it. *)
Record termios : Type := {
  c_iflag : Z;
  c_oflag : Z;
  c_cflag : Z;
  c_lflag : Z;
  c_cc : Z -> Z
}.

(** The library calls on a [struct termios]; their effect is the C
    library's business. *)
Record termios_lib : Type := {
  cfsetispeed : termios -> Z -> termios;
  cfsetospeed : termios -> Z -> termios;
  cfmakeraw : termios -> termios
}.

(** The flag bits and [c_cc] indices of [termios.h]. *)
Record termios_bits : Type := {
  IXON : Z; IXOFF : Z; IXANY : Z;
  HUPCL : Z; CLOCAL : Z; CRTSCTS : Z;
  VTIME : Z; VMIN : Z
}.

(** A value stored in a [tcflag_t] or a [speed_t], both [unsigned int]. *)
Definition tcflag_t (z : Z) : Z := z mod 2 ^ 32.

(** [tty.c_cc[i] = v] *)
Definition set_c_cc (tty : termios) (i v : Z) : termios :=
  {| c_iflag := c_iflag tty; c_oflag := c_oflag tty;
     c_cflag := c_cflag tty; c_lflag := c_lflag tty;
     c_cc := fun j => if j =? i then v else c_cc tty j |}.

(** [tty.c_iflag &= mask] and the assignments to [tty.c_cflag]. *)
Definition set_c_iflag (tty : termios) (v : Z) : termios :=
  {| c_iflag := v; c_oflag := c_oflag tty;
     c_cflag := c_cflag tty; c_lflag := c_lflag tty; c_cc := c_cc tty |}.
Definition set_c_cflag (tty : termios) (v : Z) : termios :=
  {| c_iflag := c_iflag tty; c_oflag := c_oflag tty;
     c_cflag := v; c_lflag := c_lflag tty; c_cc := c_cc tty |}.

(** From [cfsetispeed(&tty, (speed_t)sym_bitrate)] to the [if (hardflow)]
    statement. *)
Definition configure_tty (lib : termios_lib) (b : termios_bits)
    (tty : termios) (sym_bitrate : Z) (hardflow : bool) : termios :=
  let tty := cfsetispeed lib tty (tcflag_t sym_bitrate) in
  let tty := cfsetospeed lib tty (tcflag_t sym_bitrate) in
  let tty := cfmakeraw lib tty in
  let tty := set_c_cc tty (VTIME b) 0 in
  let tty := set_c_cc tty (VMIN b) 1 in
  let tty :=
    set_c_iflag tty (Z.land (c_iflag tty) (tcflag_t (Z.lnot (IXON b)))) in
  let tty :=
    set_c_iflag tty (Z.land (c_iflag tty) (tcflag_t (Z.lnot (IXOFF b)))) in
  let tty :=
    set_c_iflag tty (Z.land (c_iflag tty) (tcflag_t (Z.lnot (IXANY b)))) in
  let tty :=
    set_c_cflag tty (Z.land (c_cflag tty) (tcflag_t (Z.lnot (HUPCL b)))) in
  let tty := set_c_cflag tty (tcflag_t (Z.lor (c_cflag tty) (CLOCAL b))) in
  if hardflow
  then set_c_cflag tty (tcflag_t (Z.lor (c_cflag tty) (CRTSCTS b)))
  else set_c_cflag tty (Z.land (c_cflag tty) (tcflag_t (Z.lnot (CRTSCTS b)))).

(** ** Initialisation: [driver_uart_init] *)

Record init_syscalls : Type := {
  (** the calls made by [driver_uart_open] *)
  uart_device : open_syscalls;
  (** [socketpair(AF_UNIX, SOCK_DGRAM, 0, fd_sockets)] and the pair *)
  socketpair_retval : Z;
  fd_sockets : Z * Z;
  (** [epoll_create1(0)] *)
  epoll_create1_retval : Z;
  (** the two [epoll_ctl(fd_epoll, EPOLL_CTL_ADD, ...)], in order *)
  epoll_ctl_core_retval : Z;
  epoll_ctl_uart_retval : Z;
  (** [pthread_create] with the thread it stores, [pthread_setname_np] *)
  pthread_create_retval : Z;
  created_thread : Z;
  pthread_setname_np_retval : Z
}.

(** What [driver_uart_init] asks of the system once the device is open, in
    program order. *)
Inductive init_event : Type :=
| EvTcflush (fd : Z)
| EvSocketpair
| EvEpollCreate
| EvEpollAdd (fd_epoll fd : Z) (callback : driver_epoll_callback_t)
| EvThreadCreate
| EvThreadSetName (thread : Z).

(** The file-scope variables of the driver and the descriptor stored
    through [fd_to_core]. *)
Record driver_globals : Type := {
  fd_uart : Z;
  fd_core : Z;
  fd_epoll : Z;
  drv_thread : Z;
  uart_bitrate : Z;
  fd_to_core : Z
}.

(** [driver_uart_init(fd_to_core, device, bitrate, hardflow)] *)
Definition driver_uart_init (t : termios_h) (io : init_syscalls)
    (bitrate : Z) (hardflow : bool)
  : list init_event * result driver_globals :=
  match driver_uart_open t (uart_device io) bitrate hardflow with
  | Fatal => ([], Fatal)
  | Ok fd_uart =>
      let trace := [EvTcflush fd_uart; EvSocketpair] in
      if socketpair_retval io <? 0
      then (trace, Fatal)
      else
        let fd_core := fst (fd_sockets io) in
        let fd_to_core := snd (fd_sockets io) in
        let trace := trace ++ [EvEpollCreate] in
        let fd_epoll := epoll_create1_retval io in
        if fd_epoll <? 0
        then (trace, Fatal)
        else
          let trace :=
            trace ++ [EvEpollAdd fd_epoll fd_core callback_process_core] in
          if epoll_ctl_core_retval io <? 0
          then (trace, Fatal)
          else
            let trace :=
              trace ++ [EvEpollAdd fd_epoll fd_uart callback_process_uart] in
            if epoll_ctl_uart_retval io <? 0
            then (trace, Fatal)
            else
              let trace := trace ++ [EvThreadCreate] in
              if negb (pthread_create_retval io =? 0)
              then (trace, Fatal)
              else
                let drv_thread := created_thread io in
                let trace := trace ++ [EvThreadSetName drv_thread] in
                if negb (pthread_setname_np_retval io =? 0)
                then (trace, Fatal)
                else
                  (trace,
                   Ok {| fd_uart := fd_uart; fd_core := fd_core;
                         fd_epoll := fd_epoll; drv_thread := drv_thread;
                         uart_bitrate := bitrate;
                         fd_to_core := fd_to_core |})
  end.

(** ** What the egress path and the dispatcher are expected to do *)

(** The sleeps and polls of a drain loop entered with [bytes_remaining]
    bytes queued that then sees the depths [polls]: each sleep lasts what
    the depth seen just before it takes. *)
Fixpoint drain_events (usec_of_bits : Z -> Z) (bytes_remaining : Z)
    (polls : list Z) : list egress_event :=
  match polls with
  | [] => []
  | depth :: polls' =>
      EvSleep (usec_of_bits (bytes_remaining * 8)) :: EvQueueDepth depth
        :: drain_events usec_of_bits depth polls'
  end.

(** [usec_of_bits] is the driver's computation of a sleep length at
    [uart_bitrate]: it returns the value of [time_usec] wherever there is
    one. *)
Definition is_time_usec (uart_bitrate : Z) (usec_of_bits : Z -> Z) : Prop :=
  forall bits usec,
    time_usec uart_bitrate bits = Some usec -> usec_of_bits bits = usec.

(** The wait was cut short by a signal. *)
Definition interrupted (EINTR : Z) (a : epoll_answer) : bool :=
  (event_count a =? -1) && (errno a =? EINTR).

(** The callbacks of the ready sources an answer reports. *)
Definition ready_callbacks (a : epoll_answer)
  : list driver_epoll_callback_t :=
  firstn (Z.to_nat (event_count a)) (events a).

(** ** Rounding in binary64 *)

(** A record of the shifts of [SpecFloat] stands for the quotient [N / D]:
    it holds its integer part and tells where the fraction lies with
    respect to one half. *)
Definition represents (N D : Z) (mrs : shr_record) : Prop :=
  shr_m mrs = N / D
  /\ shr_r mrs = (D <=? 2 * (N mod D))
  /\ shr_s mrs = negb ((N mod D =? 0) || (2 * (N mod D) =? D)).

(** The mantissa of a normal binary64 number: 53 significant digits. *)
Definition normal53 (m : positive) : Prop := 2 ^ 52 <= Zpos m < 2 ^ 53.

(** ** A codec and a link to run the driver on concrete inputs *)

Definition byte_val (b : byte) : Z := Z.of_N (Byte.to_N b).

(** Modelled from the spec: [hdlc.h] and [crc.h] are missing from the
    sources.  This codec follows the wire format of the spec,
    [[marker byte][payload-length field][header checksum]], with the 4-byte
    header of its end-to-end scenario: the marker [0x14], a 16-bit
    little-endian payload length and one checksum byte, the sum of the three
    bytes before it modulo 256. *)
Definition sample_hdlc : hdlc :=
  {| SLI_CPC_HDLC_HEADER_RAW_SIZE := 4;
     SLI_CPC_HDLC_HEADER_SIZE := 3;
     SLI_CPC_HDLC_FLAG_POS := 0;
     SLI_CPC_HDLC_FLAG_VAL := 20;
     hdlc_get_hcs := fun h => byte_val (nth 3 h x00);
     hdlc_get_length :=
       fun h => byte_val (nth 1 h x00) + 256 * byte_val (nth 2 h x00);
     sli_cpc_validate_crc_sw :=
       fun buf n crc =>
         fold_right (fun b acc => byte_val b + acc) 0
           (firstn (Z.to_nat n) buf) mod 256 =? crc |}.

(** The speed symbols as Linux defines them. *)
Definition linux_termios : termios_h :=
  {| B9600 := 13; B19200 := 14; B38400 := 15; B57600 := 4097;
     B115200 := 4098; B230400 := 4099; B460800 := 4100; B921600 := 4103 |}.

(** An array of the size of [buffer] that starts with [prefix]. *)
Definition sample_buffer (prefix : list byte) : list byte :=
  prefix ++ repeat x00 (Z.to_nat (UART_BUFFER_SIZE sample_hdlc)
                        - length prefix).

(** A [fd_core] that takes every datagram whole. *)
Definition write_all (frame : list byte) : Z := Z.of_nat (length frame).

(** Six bytes of noise are buffered while a header is awaited. *)
Definition noise_ingress : uart_ingress :=
  {| buffer := sample_buffer [x01; x02; x03; x04; x05; x06];
     buffer_head := 6;
     state := EXPECTING_HEADER;
     core_frames := [] |}.

(** A frame with a two-byte payload, followed by the first byte of the
    next one, is buffered while the payload is awaited. *)
Definition framed_ingress : uart_ingress :=
  {| buffer := sample_buffer [x14; x02; x00; x16; xaa; xbb; x14];
     buffer_head := 7;
     state := EXPECTING_PAYLOAD;
     core_frames := [] |}.

(** A whole frame sits at the start of the array while a header is
    awaited. *)
Definition aligned_ingress : uart_ingress :=
  {| buffer := sample_buffer [x14; x02; x00; x16; xaa; xbb; x14];
     buffer_head := 7;
     state := EXPECTING_HEADER;
     core_frames := [] |}.

(** The sleep lengths at [uart_bitrate]: [time_usec] where it is defined,
    no sleep elsewhere. *)
Definition usec_of_bits_at (uart_bitrate bits : Z) : Z :=
  match time_usec uart_bitrate bits with
  | Some usec => usec
  | None => 0
  end.

(** [EINTR] as Linux defines it. *)
Definition linux_EINTR : Z := 4.

(** A callback that counts its invocations. *)
Definition counting_callback (cb : driver_epoll_callback_t) (n : nat)
  : result nat :=
  Ok (S n).

(** [epoll_wait] interrupted by a signal, and [epoll_wait] returning with
    nothing ready. *)
Definition interrupted_wait : epoll_answer :=
  {| event_count := -1; errno := linux_EINTR; events := [] |}.
Definition empty_wake : epoll_answer :=
  {| event_count := 0; errno := 0; events := [] |}.

(** A device on which every call succeeds. *)
Definition good_device : open_syscalls :=
  {| open_retval := 3; tcgetattr_retval := 0; tcsetattr_retval := 0 |}.

(** Fresh start: nothing buffered, a header is awaited. *)
Definition initial_ingress : uart_ingress :=
  {| buffer := sample_buffer [];
     buffer_head := 0;
     state := EXPECTING_HEADER;
     core_frames := [] |}.

(** Three bytes of noise, a header announcing a two-byte payload and the
    first byte of that payload, arriving in three reads that cut through
    the header. *)
Definition noisy_reads : list uart_syscalls :=
  [ link_syscalls [x01; x02] write_all;
    link_syscalls [x03; x14; x02] write_all;
    link_syscalls [x00; x16; xaa] write_all ].
Definition noisy_stream : list byte :=
  [x01; x02; x03; x14; x02; x00; x16; xaa].

(** A header announcing a payload of 4097 bytes is held while the payload
    is awaited. *)
Definition oversize_ingress : uart_ingress :=
  {| buffer := sample_buffer [x14; x01; x10; x25; xaa];
     buffer_head := 5;
     state := EXPECTING_PAYLOAD;
     core_frames := [] |}.

(** Two further reads while that header is held. *)
Definition oversize_reads : list uart_syscalls :=
  [ link_syscalls [xbb; xcc] write_all; link_syscalls [xdd] write_all ].

(** The noisy stream held whole while a header is sought. *)
Definition noisy_ingress : uart_ingress :=
  {| buffer := sample_buffer noisy_stream;
     buffer_head := 8;
     state := EXPECTING_HEADER;
     core_frames := [] |}.

(** The array is full: an oversize header and 4096 bytes after it. *)
Definition full_ingress : uart_ingress :=
  {| buffer := [x14; x01; x10; x25] ++ repeat xaa 4096;
     buffer_head := 4100;
     state := EXPECTING_PAYLOAD;
     core_frames := [] |}.

(** Noise, then a whole frame with a two-byte payload, in three reads. *)
Definition whole_frame_reads : list uart_syscalls :=
  [ link_syscalls [x01; x02] write_all;
    link_syscalls [x03; x14; x02] write_all;
    link_syscalls [x00; x16; xaa; xbb] write_all ].

(** Two frames, the second with an empty payload, in a single read. *)
Definition two_frames : list (list byte) :=
  [ [x14; x02; x00; x16; xaa; xbb]; [x14; x00; x00; x14] ].
Definition two_frames_read : uart_syscalls :=
  link_syscalls (concat two_frames) write_all.

(** The flag bits and indices as Linux defines them. *)
Definition linux_bits : termios_bits :=
  {| IXON := 1024; IXOFF := 4096; IXANY := 2048;
     HUPCL := 1024; CLOCAL := 2048; CRTSCTS := 2147483648;
     VTIME := 5; VMIN := 6 |}.

(** A C library that leaves the structure alone, and a structure with every
    flag bit set. *)
Definition idle_lib : termios_lib :=
  {| cfsetispeed := fun tty _ => tty;
     cfsetospeed := fun tty _ => tty;
     cfmakeraw := fun tty => tty |}.
Definition all_set_tty : termios :=
  {| c_iflag := 4294967295; c_oflag := 4294967295;
     c_cflag := 4294967295; c_lflag := 4294967295;
     c_cc := fun _ => 255 |}.

(** A system on which every call of the initialisation succeeds. *)
Definition good_system : init_syscalls :=
  {| uart_device := good_device;
     socketpair_retval := 0; fd_sockets := (4, 5);
     epoll_create1_retval := 6;
     epoll_ctl_core_retval := 0; epoll_ctl_uart_retval := 0;
     pthread_create_retval := 0; created_thread := 7;
     pthread_setname_np_retval := 0 |}.

(** A transmit queue that grows before it drains. *)
Definition bursty_link : core_syscalls :=
  {| read_fd_core := Some [x14; x00];
     tiocoutq_retval := 0;
     tiocoutq_first := 3;
     tiocoutq_polls := [5; 1; 0; 9];
     write_fd_uart := fun m => Z.of_nat (length m) |}.

(** A transmit queue that is never seen empty. *)
Definition clogged_link : core_syscalls :=
  {| read_fd_core := Some [x14; x00];
     tiocoutq_retval := 0;
     tiocoutq_first := 3;
     tiocoutq_polls := [3; 3; 3];
     write_fd_uart := fun m => Z.of_nat (length m) |}.

(** Two wake-ups with one ready source each, a signal in between. *)
Definition busy_answers : list epoll_answer :=
  [ {| event_count := 1; errno := 0; events := [callback_process_uart] |};
    interrupted_wait;
    {| event_count := 1; errno := 0; events := [callback_process_core] |} ].

(** The same bytes held as in [framed_ingress], other bytes beyond. *)
Definition framed_ingress_stale : uart_ingress :=
  {| buffer := [x14; x02; x00; x16; xaa; xbb; x14] ++ repeat xff 4093;
     buffer_head := 7;
     state := EXPECTING_PAYLOAD;
     core_frames := [] |}.


(** A wake-up that reports the link readable. *)
Definition uart_wake : epoll_answer :=
  {| event_count := 1; errno := 0; events := [callback_process_uart] |}.

(** A link that delivers one whole frame to a core that takes only half of
    each datagram. *)
Definition half_taken_read : uart_syscalls :=
  link_syscalls [x14; x02; x00; x16; xaa; xbb]
    (fun frame => Z.of_nat (length frame) / 2).

(** ** Invariant of the accumulation buffer *)

(** The bytes held: the first [buffer_head] of the array. *)
Definition buffered (d : uart_ingress) : list byte :=
  sub_array (buffer d) 0 (buffer_head d).

(** The array has its declared size and the cursor lies within it. *)
Definition ingress_inv (c : hdlc) (d : uart_ingress) : Prop :=
  Z.of_nat (length (buffer d)) = UART_BUFFER_SIZE c
  /\ 0 <= buffer_head d <= UART_BUFFER_SIZE c.

(** What decreases from one turn of the processing loop to the next. *)
Definition loop_measure (d : uart_ingress) : Z :=
  2 * buffer_head d
  + match state d with
    | EXPECTING_HEADER => 1
    | EXPECTING_PAYLOAD => 0
    end.

(** A turn of the processing loop that leaves the loop, dies, or lowers the
    cursor. *)
Definition turn_exits_or_shrinks (c : hdlc) (io : uart_syscalls)
    (d : uart_ingress) : Prop :=
  match uart_iteration c io d with
  | Ok (true, d') => buffer_head d' < buffer_head d
  | Ok (false, _) => True
  | Fatal => True
  end.

(** The window of the sliding header at offset [j]. *)
Definition header_at (c : hdlc) (buf : list byte) (j : Z) : list byte :=
  sub_array buf j (SLI_CPC_HDLC_HEADER_RAW_SIZE c).

(** The first header-sized window of [s] that validates is the one at
    offset [k]. *)
Definition first_header_at (c : hdlc) (s : list byte) (k : Z) : Prop :=
  0 <= k
  /\ k + SLI_CPC_HDLC_HEADER_RAW_SIZE c <= Z.of_nat (length s)
  /\ (forall j, 0 <= j < k -> validate_header c (header_at c s j) = false)
  /\ validate_header c (header_at c s k) = true.

(** [s] ends before the frame announced by the header at offset [k]
    does. *)
Definition frame_incomplete (c : hdlc) (s : list byte) (k : Z) : Prop :=
  Z.of_nat (length s)
  < k + SLI_CPC_HDLC_HEADER_RAW_SIZE c
    + uint16_t (hdlc_get_length c (header_at c s k)).

(** Where the synchronizer stands after the bytes [pre] of a stream whose
    first valid header is at offset [k]: it holds the bytes of [pre] from
    some offset [o] on, and either still seeks the header, holding less than
    a header, or has dropped exactly [k] bytes and awaits the payload. *)
Definition seeking (c : hdlc) (k : Z) (pre : list byte) (d : uart_ingress)
  : Prop :=
  exists o,
    0 <= o <= k /\ o <= Z.of_nat (length pre)
    /\ buffer_head d = Z.of_nat (length pre) - o
    /\ buffered d = sub_array pre o (Z.of_nat (length pre) - o)
    /\ ((state d = EXPECTING_HEADER
         /\ buffer_head d < SLI_CPC_HDLC_HEADER_RAW_SIZE c)
        \/ (state d = EXPECTING_PAYLOAD /\ o = k
            /\ SLI_CPC_HDLC_HEADER_RAW_SIZE c <= buffer_head d)).

(** ** Frames and the synchronised state *)

(** A whole frame: a header that validates, followed by as many bytes as
    its length field announces. *)
Definition well_framed (c : hdlc) (f : list byte) : Prop :=
  validate_header c (header_at c f 0) = true
  /\ Z.of_nat (length f)
     = SLI_CPC_HDLC_HEADER_RAW_SIZE c
       + uint16_t (hdlc_get_length c (header_at c f 0)).

(** What [driver_uart_process_uart] relies on between two invocations:
    the buffer invariant, and while the payload is awaited a validated
    header at offset 0. *)
Definition sync_inv (c : hdlc) (d : uart_ingress) : Prop :=
  ingress_inv c d
  /\ (state d = EXPECTING_PAYLOAD ->
      SLI_CPC_HDLC_HEADER_RAW_SIZE c <= buffer_head d
      /\ validate_header c (header_at c (buffer d) 0) = true).

(** Nothing more can be done with the bytes held: less than a header while
    a header is sought, less than the announced frame while the payload is
    awaited. *)
Definition starved (c : hdlc) (d : uart_ingress) : Prop :=
  match state d with
  | EXPECTING_HEADER => buffer_head d < SLI_CPC_HDLC_HEADER_RAW_SIZE c
  | EXPECTING_PAYLOAD =>
      buffer_head d < SLI_CPC_HDLC_HEADER_RAW_SIZE c
      \/ buffer_head d
         < uint16_t (hdlc_get_length c (header_at c (buffer d) 0))
           + SLI_CPC_HDLC_HEADER_RAW_SIZE c
  end.

(** Every write to [fd_core] made by these invocations is complete. *)
Definition core_takes_all (ios : list uart_syscalls) : Prop :=
  forall io, In io ios ->
    forall frame, write_fd_core io frame = Z.of_nat (length frame).

(** [l1] is [l2] with some of its elements left out, the others in the
    same order. *)
Inductive subseq {A : Type} : list A -> list A -> Prop :=
| subseq_nil : subseq [] []
| subseq_skip (x : A) (l1 l2 : list A) : subseq l1 l2 -> subseq l1 (x :: l2)
| subseq_keep (x : A) (l1 l2 : list A) :
    subseq l1 l2 -> subseq (x :: l1) (x :: l2).

(** Two states of the synchronizer that differ at most in the bytes of the
    array beyond the cursor. *)
Definition same_held (d1 d2 : uart_ingress) : Prop :=
  buffer_head d1 = buffer_head d2
  /\ state d1 = state d2
  /\ core_frames d1 = core_frames d2
  /\ buffered d1 = buffered d2.

(** * Proofs *)

(** On a concrete state the invariant is settled by computation. *)
Ltac sample_inv :=
  split; [reflexivity | simpl; unfold UART_BUFFER_SIZE; simpl; lia].

(** ** Arithmetic and memory blocks *)

Lemma size_t_small (z : Z) : 0 <= z < 2 ^ 64 -> size_t z = z.
Proof. intros Hz. unfold size_t. apply Z.mod_small. exact Hz. Qed.

Lemma size_t_range (z : Z) : 0 <= size_t z < 2 ^ 64.
Proof. unfold size_t. apply Z.mod_pos_bound. lia. Qed.

Lemma uint16_t_range (z : Z) : 0 <= uint16_t z < 2 ^ 16.
Proof. unfold uint16_t. apply Z.mod_pos_bound. lia. Qed.

Lemma length_sub_array (buf : list byte) (off n : Z) :
  0 <= off -> 0 <= n -> off + n <= Z.of_nat (length buf) ->
  Z.of_nat (length (sub_array buf off n)) = n.
Proof.
  intros Hoff Hn Hfit. unfold sub_array.
  rewrite length_firstn, length_skipn. lia.
Qed.

Lemma sub_array_0 (buf : list byte) (n : Z) :
  sub_array buf 0 n = firstn (Z.to_nat n) buf.
Proof. reflexivity. Qed.

(** A block inside a block. *)
Lemma sub_array_sub_array (buf : list byte) (a n b m : Z) :
  0 <= a -> 0 <= b -> 0 <= m -> b + m <= n ->
  sub_array (sub_array buf a n) b m = sub_array buf (a + b) m.
Proof.
  intros Ha Hb Hm Hfit. unfold sub_array.
  rewrite skipn_firstn_comm, firstn_firstn, skipn_skipn.
  f_equal; [lia | f_equal; lia].
Qed.

(** Cutting the first bytes off a block. *)
Lemma skipn_sub_array (buf : list byte) (a n k : Z) :
  0 <= a -> 0 <= k <= n ->
  skipn (Z.to_nat k) (sub_array buf a n) = sub_array buf (a + k) (n - k).
Proof.
  intros Ha Hk. unfold sub_array.
  rewrite skipn_firstn_comm, skipn_skipn.
  f_equal; [lia | f_equal; lia].
Qed.

Lemma memmove_front (buf : list byte) (src n : Z) :
  0 <= n ->
  memmove buf 0 src n = sub_array buf src n ++ skipn (Z.to_nat n) buf.
Proof. intros Hn. unfold memmove. reflexivity. Qed.

Lemma length_memmove_front (buf : list byte) (src n : Z) :
  0 <= src -> 0 <= n -> src + n <= Z.of_nat (length buf) ->
  length (memmove buf 0 src n) = length buf.
Proof.
  intros Hsrc Hn Hfit. rewrite memmove_front by assumption.
  rewrite length_app, length_skipn.
  pose proof (length_sub_array buf src n Hsrc Hn Hfit). lia.
Qed.

(** After [memmove(&buf[0], &buf[src], n)] the array starts with the block
    moved. *)
Lemma memmove_front_block (buf : list byte) (src n : Z) :
  0 <= src -> 0 <= n -> src + n <= Z.of_nat (length buf) ->
  sub_array (memmove buf 0 src n) 0 n = sub_array buf src n.
Proof.
  intros Hsrc Hn Hfit. rewrite memmove_front by assumption.
  rewrite sub_array_0.
  pose proof (length_sub_array buf src n Hsrc Hn Hfit) as Hlen.
  rewrite firstn_app.
  replace (Z.to_nat n - length (sub_array buf src n))%nat with 0%nat by lia.
  rewrite firstn_O, app_nil_r. apply firstn_all2. lia.
Qed.

Lemma length_memcpy (buf src : list byte) (dst n : Z) :
  0 <= dst -> Z.of_nat (length src) = n ->
  dst + n <= Z.of_nat (length buf) ->
  length (memcpy buf dst src n) = length buf.
Proof.
  intros Hdst Hsrc Hfit. unfold memcpy.
  rewrite !length_app, !length_firstn, length_skipn. lia.
Qed.

(** After [memcpy(&buf[dst], src, n)] the first [dst + n] bytes are the old
    first [dst] bytes followed by [src]. *)
Lemma memcpy_block (buf src : list byte) (dst n : Z) :
  0 <= dst -> Z.of_nat (length src) = n ->
  dst + n <= Z.of_nat (length buf) ->
  sub_array (memcpy buf dst src n) 0 (dst + n) = sub_array buf 0 dst ++ src.
Proof.
  intros Hdst Hsrc Hfit. unfold memcpy. rewrite !sub_array_0.
  rewrite app_assoc, firstn_app.
  rewrite (firstn_all2 (n := Z.to_nat n) src) by lia.
  replace (Z.to_nat (dst + n) - length (firstn (Z.to_nat dst) buf ++ src))%nat
    with 0%nat by (rewrite length_app, length_firstn; lia).
  rewrite firstn_O, app_nil_r. apply firstn_all2.
  rewrite length_app, length_firstn. lia.
Qed.

(** ** Header resynchronisation *)

Section Resynch.

Variable c : hdlc.

(** The raw header size is a small positive constant. *)
Hypothesis header_size : 0 < SLI_CPC_HDLC_HEADER_RAW_SIZE c < 2 ^ 32.

(** The scan runs to its end when no window from [i] on validates. *)
Lemma scan_none (buf : list byte) (head num : Z) :
  forall (todo : nat) (i : Z),
    0 <= i -> i + Z.of_nat todo < 2 ^ 64 ->
    (forall j, i <= j < i + Z.of_nat todo ->
               validate_header c (header_at c buf j) = false) ->
    header_re_synch_scan c buf head num i todo
    = (false,
       memmove buf 0 num (size_t (SLI_CPC_HDLC_HEADER_RAW_SIZE c - 1)),
       size_t (SLI_CPC_HDLC_HEADER_RAW_SIZE c - 1)).
Proof.
  induction todo as [| todo IH]; intros i Hi Hbound Hbad; simpl.
  - reflexivity.
  - unfold header_at in Hbad. rewrite (Hbad i) by lia.
    rewrite size_t_small by lia.
    apply IH; [lia | lia |].
    intros j Hj. apply Hbad. lia.
Qed.

(** The scan stops at the first window that validates. *)
Lemma scan_found (buf : list byte) (head num : Z) :
  forall (todo : nat) (i k : Z),
    0 <= i <= k -> k < i + Z.of_nat todo -> i + Z.of_nat todo < 2 ^ 64 ->
    (forall j, i <= j < k -> validate_header c (header_at c buf j) = false) ->
    validate_header c (header_at c buf k) = true ->
    header_re_synch_scan c buf head num i todo
    = if k =? 0
      then (true, buf, head)
      else (true, memmove buf 0 k (size_t (head - k)), size_t (head - k)).
Proof.
  induction todo as [| todo IH]; intros i k Hik Hk Hbound Hbad Hgood; simpl.
  - lia.
  - destruct (Z.eq_dec i k) as [-> | Hne].
    + unfold header_at in Hgood. rewrite Hgood. reflexivity.
    + unfold header_at in Hbad. rewrite (Hbad i) by lia.
      rewrite size_t_small by lia.
      apply IH; [lia | lia | lia | | exact Hgood].
      intros j Hj. apply Hbad. lia.
Qed.

(** Too few bytes for a header: nothing happens. *)
Lemma header_re_synch_short (buf : list byte) (head : Z) :
  head < SLI_CPC_HDLC_HEADER_RAW_SIZE c ->
  header_re_synch c buf head = (false, buf, head).
Proof.
  intros Hshort. unfold header_re_synch.
  destruct (Z.ltb_spec head (SLI_CPC_HDLC_HEADER_RAW_SIZE c));
    [reflexivity | lia].
Qed.

(** No window validates: the last [RAW - 1] bytes are kept. *)
Lemma header_re_synch_none (buf : list byte) (head : Z) :
  SLI_CPC_HDLC_HEADER_RAW_SIZE c <= head < 2 ^ 64 ->
  (forall j, 0 <= j <= head - SLI_CPC_HDLC_HEADER_RAW_SIZE c ->
             validate_header c (header_at c buf j) = false) ->
  header_re_synch c buf head
  = (false,
     memmove buf 0 (head - SLI_CPC_HDLC_HEADER_RAW_SIZE c + 1)
       (SLI_CPC_HDLC_HEADER_RAW_SIZE c - 1),
     SLI_CPC_HDLC_HEADER_RAW_SIZE c - 1).
Proof.
  intros Hhead Hbad. unfold header_re_synch.
  destruct (Z.ltb_spec head (SLI_CPC_HDLC_HEADER_RAW_SIZE c)); [lia |].
  rewrite size_t_small by lia.
  rewrite scan_none; [| lia | lia |].
  - rewrite size_t_small by lia. reflexivity.
  - intros j Hj. apply Hbad. lia.
Qed.

(** The first window that validates is at [k]: the bytes before it go. *)
Lemma header_re_synch_found (buf : list byte) (head k : Z) :
  head < 2 ^ 64 ->
  0 <= k -> k + SLI_CPC_HDLC_HEADER_RAW_SIZE c <= head ->
  (forall j, 0 <= j < k -> validate_header c (header_at c buf j) = false) ->
  validate_header c (header_at c buf k) = true ->
  header_re_synch c buf head
  = if k =? 0
    then (true, buf, head)
    else (true, memmove buf 0 k (head - k), head - k).
Proof.
  intros Hhead Hk Hfit Hbad Hgood. unfold header_re_synch.
  destruct (Z.ltb_spec head (SLI_CPC_HDLC_HEADER_RAW_SIZE c)); [lia |].
  rewrite size_t_small by lia.
  rewrite (scan_found buf head _ _ 0 k); [| lia | lia | lia | | exact Hgood].
  - rewrite size_t_small by lia. reflexivity.
  - intros j Hj. apply Hbad. lia.
Qed.

(** Whatever the array holds, a pass ends in one of four ways. *)
Lemma scan_cases (buf : list byte) (head num : Z) :
  forall (todo : nat) (i : Z),
    0 <= i -> i + Z.of_nat todo < 2 ^ 64 ->
    header_re_synch_scan c buf head num i todo
    = (false,
       memmove buf 0 num (size_t (SLI_CPC_HDLC_HEADER_RAW_SIZE c - 1)),
       size_t (SLI_CPC_HDLC_HEADER_RAW_SIZE c - 1))
    \/ exists k,
        i <= k < i + Z.of_nat todo
        /\ validate_header c (header_at c buf k) = true
        /\ header_re_synch_scan c buf head num i todo
           = if k =? 0
             then (true, buf, head)
             else (true, memmove buf 0 k (size_t (head - k)),
                   size_t (head - k)).
Proof.
  induction todo as [| todo IH]; intros i Hi Hbound; simpl.
  - left. reflexivity.
  - destruct (validate_header c
                (sub_array buf i (SLI_CPC_HDLC_HEADER_RAW_SIZE c))) eqn:Hv.
    + right. exists i. split; [lia |]. split; [exact Hv |].
      destruct (i =? 0); reflexivity.
    + rewrite size_t_small by lia.
      destruct (IH (i + 1)) as [Hnone | (k & Hk & Hgood & Hres)];
        [lia | lia | left; exact Hnone |].
      right. exists k. split; [lia |]. split; assumption.
Qed.

Lemma header_re_synch_cases (buf : list byte) (head : Z) :
  0 <= head < 2 ^ 64 ->
  (head < SLI_CPC_HDLC_HEADER_RAW_SIZE c
   /\ header_re_synch c buf head = (false, buf, head))
  \/ (SLI_CPC_HDLC_HEADER_RAW_SIZE c <= head
      /\ header_re_synch c buf head
         = (false,
            memmove buf 0 (head - SLI_CPC_HDLC_HEADER_RAW_SIZE c + 1)
              (SLI_CPC_HDLC_HEADER_RAW_SIZE c - 1),
            SLI_CPC_HDLC_HEADER_RAW_SIZE c - 1))
  \/ (SLI_CPC_HDLC_HEADER_RAW_SIZE c <= head
      /\ validate_header c (header_at c buf 0) = true
      /\ header_re_synch c buf head = (true, buf, head))
  \/ (exists k,
        0 < k /\ k + SLI_CPC_HDLC_HEADER_RAW_SIZE c <= head
        /\ validate_header c (header_at c buf k) = true
        /\ header_re_synch c buf head
           = (true, memmove buf 0 k (head - k), head - k)).
Proof.
  intros Hhead.
  destruct (Z.lt_ge_cases head (SLI_CPC_HDLC_HEADER_RAW_SIZE c)) as [Hlt | Hge].
  - left. split; [exact Hlt | apply header_re_synch_short; exact Hlt].
  - right. unfold header_re_synch.
    destruct (Z.ltb_spec head (SLI_CPC_HDLC_HEADER_RAW_SIZE c)); [lia |].
    rewrite size_t_small by lia.
    destruct (scan_cases buf head
                (head - SLI_CPC_HDLC_HEADER_RAW_SIZE c + 1)
                (Z.to_nat (head - SLI_CPC_HDLC_HEADER_RAW_SIZE c + 1)) 0)
      as [Hnone | (k & Hk & Hgood & Hres)]; [lia | lia | |].
    + left. split; [exact Hge |]. rewrite Hnone.
      rewrite size_t_small by lia. reflexivity.
    + right. rewrite Hres. destruct (Z.eqb_spec k 0) as [-> | Hk0].
      * left. split; [exact Hge |]. split; [exact Hgood | reflexivity].
      * right. exists k. rewrite size_t_small by lia.
        split; [lia |]. split; [lia |]. split; [exact Hgood | reflexivity].
Qed.

End Resynch.

(** ** The claims about a single pass *)

(** C3.  When at least a header's worth of bytes is buffered and no
    header-sized window over them validates, a resynchronisation pass
    returns "no progress", sets the cursor to header size minus one and
    leaves at the start of the array exactly the last header-size-minus-one
    bytes that were buffered; the turn of the processing loop that runs the
    pass stays in [EXPECTING_HEADER] and leaves the loop. *)
Theorem no_header_suffix_retention (c : hdlc) (io : uart_syscalls)
    (d : uart_ingress) :
  0 < SLI_CPC_HDLC_HEADER_RAW_SIZE c < 2 ^ 32 ->
  ingress_inv c d ->
  state d = EXPECTING_HEADER ->
  SLI_CPC_HDLC_HEADER_RAW_SIZE c <= buffer_head d ->
  (forall j, 0 <= j <= buffer_head d - SLI_CPC_HDLC_HEADER_RAW_SIZE c ->
             validate_header c (header_at c (buffer d) j) = false) ->
  exists buffer',
    header_re_synch c (buffer d) (buffer_head d)
    = (false, buffer', SLI_CPC_HDLC_HEADER_RAW_SIZE c - 1)
    /\ length buffer' = length (buffer d)
    /\ sub_array buffer' 0 (SLI_CPC_HDLC_HEADER_RAW_SIZE c - 1)
       = sub_array (buffer d)
           (buffer_head d - (SLI_CPC_HDLC_HEADER_RAW_SIZE c - 1))
           (SLI_CPC_HDLC_HEADER_RAW_SIZE c - 1)
    /\ uart_iteration c io d
       = Ok (false,
             {| buffer := buffer';
                buffer_head := SLI_CPC_HDLC_HEADER_RAW_SIZE c - 1;
                state := EXPECTING_HEADER;
                core_frames := core_frames d |}).
Proof.
  intros Hraw [Hlen Hhead] Hstate Henough Hbad.
  unfold UART_BUFFER_SIZE in Hlen, Hhead.
  pose proof (header_re_synch_none c Hraw (buffer d) (buffer_head d)) as Hpass.
  rewrite Hpass; [| lia | exact Hbad].
  eexists. split; [reflexivity |]. split; [| split].
  - apply length_memmove_front; lia.
  - replace (buffer_head d - (SLI_CPC_HDLC_HEADER_RAW_SIZE c - 1))
      with (buffer_head d - SLI_CPC_HDLC_HEADER_RAW_SIZE c + 1) by lia.
    apply memmove_front_block; lia.
  - unfold uart_iteration.
    rewrite Hstate, Hpass; [reflexivity | lia | exact Hbad].
Qed.

Lemma no_header_suffix_retention_witness :
  exists buffer',
    header_re_synch sample_hdlc (buffer noise_ingress) 6 = (false, buffer', 3)
    /\ length buffer' = length (buffer noise_ingress)
    /\ sub_array buffer' 0 3 = [x04; x05; x06]
    /\ uart_iteration sample_hdlc (link_syscalls [] write_all) noise_ingress
       = Ok (false,
             {| buffer := buffer'; buffer_head := 3;
                state := EXPECTING_HEADER; core_frames := [] |}).
Proof.
  apply (no_header_suffix_retention sample_hdlc
           (link_syscalls [] write_all) noise_ingress).
  - simpl. lia.
  - sample_inv.
  - reflexivity.
  - simpl. lia.
  - intros j Hj. simpl in Hj.
    assert (Hcases : j = 0 \/ j = 1 \/ j = 2) by lia.
    destruct Hcases as [-> | [-> | ->]]; reflexivity.
Defined.

(** C2.  Payload delimiting on the header at offset 0: with fewer bytes
    than a header it reports no progress; otherwise the frame size is the
    payload-length field plus the header size, and with fewer bytes than
    that it reports no progress; otherwise, the write to the core channel
    being complete, it writes exactly the first frame-size bytes, moves the
    bytes after them to offset 0, lowers the cursor by the frame size and
    reports progress, the state going back to [EXPECTING_HEADER].  With a
    payload length of zero the frame written is the header alone. *)
Theorem payload_delimiting (c : hdlc) (io : uart_syscalls)
    (d : uart_ingress) :
  0 < SLI_CPC_HDLC_HEADER_RAW_SIZE c < 2 ^ 32 ->
  ingress_inv c d ->
  state d = EXPECTING_PAYLOAD ->
  let payload_len := uint16_t (hdlc_get_length c (header_at c (buffer d) 0)) in
  let frame_size := payload_len + SLI_CPC_HDLC_HEADER_RAW_SIZE c in
  let frame := sub_array (buffer d) 0 frame_size in
  (buffer_head d < SLI_CPC_HDLC_HEADER_RAW_SIZE c ->
   delimit_and_push_frames_to_core c io (buffer d) (buffer_head d)
     (core_frames d)
   = Ok (false, buffer d, buffer_head d, core_frames d))
  /\ (SLI_CPC_HDLC_HEADER_RAW_SIZE c <= buffer_head d ->
      buffer_head d < frame_size ->
      delimit_and_push_frames_to_core c io (buffer d) (buffer_head d)
        (core_frames d)
      = Ok (false, buffer d, buffer_head d, core_frames d))
  /\ (SLI_CPC_HDLC_HEADER_RAW_SIZE c <= buffer_head d ->
      frame_size <= buffer_head d ->
      write_fd_core io frame = frame_size ->
      exists buffer',
        delimit_and_push_frames_to_core c io (buffer d) (buffer_head d)
          (core_frames d)
        = Ok (true, buffer', buffer_head d - frame_size,
              core_frames d ++ [frame])
        /\ Z.of_nat (length frame) = frame_size
        /\ length buffer' = length (buffer d)
        /\ sub_array buffer' 0 (buffer_head d - frame_size)
           = sub_array (buffer d) frame_size (buffer_head d - frame_size)
        /\ uart_iteration c io d
           = Ok (true,
                 {| buffer := buffer';
                    buffer_head := buffer_head d - frame_size;
                    state := EXPECTING_HEADER;
                    core_frames := core_frames d ++ [frame] |}))
  /\ (payload_len = 0 -> frame = header_at c (buffer d) 0).
Proof.
  intros Hraw [Hlen Hhead] Hstate payload_len frame_size frame.
  unfold UART_BUFFER_SIZE in Hlen, Hhead.
  pose proof (uint16_t_range (hdlc_get_length c (header_at c (buffer d) 0)))
    as Hpl.
  fold payload_len in Hpl.
  assert (Hfs : size_t (payload_len + SLI_CPC_HDLC_HEADER_RAW_SIZE c)
                = frame_size)
    by (apply size_t_small; unfold frame_size; lia).
  split; [| split; [| split]].
  - intros Hshort. unfold delimit_and_push_frames_to_core.
    destruct (Z.ltb_spec (buffer_head d) (SLI_CPC_HDLC_HEADER_RAW_SIZE c));
      [reflexivity | lia].
  - intros Henough Hpartial. unfold delimit_and_push_frames_to_core.
    destruct (Z.ltb_spec (buffer_head d) (SLI_CPC_HDLC_HEADER_RAW_SIZE c));
      [lia |].
    fold (header_at c (buffer d) 0). fold payload_len. rewrite Hfs.
    rewrite Z.gtb_ltb.
    destruct (Z.ltb_spec (buffer_head d) frame_size); [reflexivity | lia].
  - intros Henough Hwhole Hwrite.
    assert (Hpush :
      delimit_and_push_frames_to_core c io (buffer d) (buffer_head d)
        (core_frames d)
      = Ok (true,
            memmove (buffer d) 0 frame_size (buffer_head d - frame_size),
            buffer_head d - frame_size, core_frames d ++ [frame])).
    { unfold delimit_and_push_frames_to_core.
      destruct (Z.ltb_spec (buffer_head d) (SLI_CPC_HDLC_HEADER_RAW_SIZE c));
        [lia |].
      fold (header_at c (buffer d) 0). fold payload_len. rewrite Hfs.
      rewrite Z.gtb_ltb.
      destruct (Z.ltb_spec (buffer_head d) frame_size); [lia |].
      fold frame. rewrite Hwrite.
      destruct (Z.ltb_spec frame_size 0); [unfold frame_size in *; lia |].
      rewrite (size_t_small frame_size) by (unfold frame_size; lia).
      rewrite Z.eqb_refl. simpl.
      rewrite size_t_small by (unfold frame_size in *; lia).
      reflexivity. }
    eexists. split; [exact Hpush |].
    assert (Hfs0 : 0 <= frame_size) by (unfold frame_size; lia).
    split; [| split; [| split]].
    + apply length_sub_array; lia.
    + apply length_memmove_front; lia.
    + apply memmove_front_block; lia.
    + unfold uart_iteration. rewrite Hstate, Hpush. reflexivity.
  - intros Hzero. unfold frame, frame_size, header_at. rewrite Hzero.
    reflexivity.
Qed.

Lemma payload_delimiting_witness :
  exists buffer',
    delimit_and_push_frames_to_core sample_hdlc (link_syscalls [] write_all)
      (buffer framed_ingress) 7 []
    = Ok (true, buffer', 1, [[x14; x02; x00; x16; xaa; xbb]])
    /\ sub_array buffer' 0 1 = [x14].
Proof.
  destruct (payload_delimiting sample_hdlc (link_syscalls [] write_all)
              framed_ingress) as (_ & _ & Hpush & _).
  - simpl. lia.
  - sample_inv.
  - reflexivity.
  - destruct Hpush as (buffer' & Hres & _ & _ & Hmoved & _).
    + simpl. lia.
    + vm_compute. discriminate.
    + reflexivity.
    + exists buffer'. split; [exact Hres | exact Hmoved].
Defined.

(** ** What each operation does to the accumulation buffer *)

Section Operations.

Variable c : hdlc.
Hypothesis header_size : 0 < SLI_CPC_HDLC_HEADER_RAW_SIZE c < 2 ^ 32.

(** Payload delimiting ends in one of three ways. *)
Lemma delimit_cases (io : uart_syscalls) (buf : list byte) (head : Z)
    (core : list (list byte)) :
  0 <= head < 2 ^ 64 ->
  let frame_size :=
    uint16_t (hdlc_get_length c (header_at c buf 0))
    + SLI_CPC_HDLC_HEADER_RAW_SIZE c in
  ((head < SLI_CPC_HDLC_HEADER_RAW_SIZE c \/ head < frame_size)
   /\ delimit_and_push_frames_to_core c io buf head core
      = Ok (false, buf, head, core))
  \/ (frame_size <= head
      /\ delimit_and_push_frames_to_core c io buf head core = Fatal)
  \/ (frame_size <= head
      /\ delimit_and_push_frames_to_core c io buf head core
         = Ok (true, memmove buf 0 frame_size (head - frame_size),
               head - frame_size, core ++ [sub_array buf 0 frame_size])).
Proof.
  intros Hhead frame_size.
  pose proof (uint16_t_range (hdlc_get_length c (header_at c buf 0))) as Hpl.
  assert (Hfs : size_t (uint16_t (hdlc_get_length c (header_at c buf 0))
                        + SLI_CPC_HDLC_HEADER_RAW_SIZE c) = frame_size)
    by (apply size_t_small; unfold frame_size; lia).
  unfold delimit_and_push_frames_to_core.
  destruct (Z.ltb_spec head (SLI_CPC_HDLC_HEADER_RAW_SIZE c));
    [left; split; [left; assumption | reflexivity] |].
  fold (header_at c buf 0). rewrite Hfs. rewrite Z.gtb_ltb.
  destruct (Z.ltb_spec head frame_size);
    [left; split; [right; assumption | reflexivity] |].
  right.
  destruct (write_fd_core io (sub_array buf 0 frame_size) <? 0);
    [left; split; [assumption | reflexivity] |].
  destruct (size_t (write_fd_core io (sub_array buf 0 frame_size))
            =? frame_size); simpl;
    [| left; split; [assumption | reflexivity]].
  right. rewrite size_t_small by (unfold frame_size in *; lia).
  split; [assumption | reflexivity].
Qed.

(** A resynchronisation pass drops some leading bytes and keeps the rest at
    offset 0. *)
Lemma header_re_synch_keeps_suffix (buf buf' : list byte) (head head' : Z)
    (synched : bool) :
  0 <= head <= Z.of_nat (length buf) -> Z.of_nat (length buf) < 2 ^ 64 ->
  header_re_synch c buf head = (synched, buf', head') ->
  length buf' = length buf
  /\ exists k, 0 <= k <= head /\ head' = head - k
       /\ sub_array buf' 0 head' = sub_array buf k head'
       /\ (synched = true -> SLI_CPC_HDLC_HEADER_RAW_SIZE c <= head')
       /\ (k = 0 -> buf' = buf).
Proof.
  intros Hhead Hlen Hpass.
  destruct (header_re_synch_cases c header_size buf head)
    as [(Hshort & Hres) | [(Hge & Hres) | [(Hge & _ & Hres)
       | (k & Hk & Hfit & _ & Hres)]]]; [lia | | | |];
    rewrite Hres in Hpass; inversion Hpass; subst; clear Hpass.
  - split; [reflexivity |]. exists 0.
    repeat split; try lia; try reflexivity; try discriminate.
  - split; [apply length_memmove_front; lia |].
    exists (head - SLI_CPC_HDLC_HEADER_RAW_SIZE c + 1).
    repeat split; try lia; try discriminate.
    apply memmove_front_block; lia.
  - split; [reflexivity |]. exists 0.
    repeat split; try lia.
  - split; [apply length_memmove_front; lia |]. exists k.
    repeat split; try lia.
    apply memmove_front_block; lia.
Qed.

(** Payload delimiting drops a frame, or nothing, and keeps the rest at
    offset 0. *)
Lemma delimit_keeps_suffix (io : uart_syscalls) (buf buf' : list byte)
    (head head' : Z) (core core' : list (list byte)) (pushed : bool) :
  0 <= head <= Z.of_nat (length buf) -> Z.of_nat (length buf) < 2 ^ 64 ->
  delimit_and_push_frames_to_core c io buf head core
  = Ok (pushed, buf', head', core') ->
  length buf' = length buf
  /\ exists k, 0 <= k <= head /\ head' = head - k
       /\ sub_array buf' 0 head' = sub_array buf k head'
       /\ (pushed = true -> 0 < k /\ core' = core ++ [sub_array buf 0 k])
       /\ (pushed = false -> k = 0 /\ buf' = buf /\ core' = core).
Proof.
  intros Hhead Hlen Hcall.
  pose proof (uint16_t_range (hdlc_get_length c (header_at c buf 0))) as Hpl.
  destruct (delimit_cases io buf head core) as [(_ & Hres) | [(_ & Hres)
    | (Hfit & Hres)]]; [lia | | |];
    rewrite Hres in Hcall; inversion Hcall; subst; clear Hcall.
  - split; [reflexivity |]. exists 0.
    repeat split; try lia; try discriminate.
  - split; [apply length_memmove_front; lia |].
    eexists. split; [| split; [reflexivity |]]; [lia |].
    split; [apply memmove_front_block; lia |].
    split; [intros _; split; [lia | reflexivity] | discriminate].
Qed.

(** Appending: what is read is the smaller of what the link offers and what
    the array can still take, and it lands right behind the bytes held. *)
Lemma read_and_append_spec (io : uart_syscalls) (buf buf' : list byte)
    (head appended : Z) :
  0 <= head <= UART_BUFFER_SIZE c ->
  Z.of_nat (length buf) = UART_BUFFER_SIZE c ->
  read_and_append_uart_received_data io buf head (UART_BUFFER_SIZE c)
  = Ok (buf', appended) ->
  appended = Z.min (size_t (fionread_bytes io)) (UART_BUFFER_SIZE c - head)
  /\ 0 < size_t (fionread_bytes io)
  /\ length buf' = length buf
  /\ exists data,
       read_fd_uart io appended = Some data
       /\ Z.of_nat (length data) = appended
       /\ sub_array buf' 0 (head + appended) = sub_array buf 0 head ++ data.
Proof.
  intros Hhead Hlen Hcall.
  unfold read_and_append_uart_received_data in Hcall.
  unfold UART_BUFFER_SIZE in *.
  pose proof (size_t_range (fionread_bytes io)) as Hav.
  destruct (fionread_retval io <? 0); [discriminate |].
  destruct (Z.eqb_spec (size_t (fionread_bytes io)) 0) as [| Hsome];
    [discriminate |].
  rewrite (size_t_small (4096 + SLI_CPC_HDLC_HEADER_RAW_SIZE c - head))
    in Hcall by lia.
  set (n := if size_t (fionread_bytes io)
               <? 4096 + SLI_CPC_HDLC_HEADER_RAW_SIZE c - head
            then size_t (fionread_bytes io)
            else 4096 + SLI_CPC_HDLC_HEADER_RAW_SIZE c - head) in *.
  assert (Hn : n = Z.min (size_t (fionread_bytes io))
                     (4096 + SLI_CPC_HDLC_HEADER_RAW_SIZE c - head)).
  { unfold n.
    destruct (Z.ltb_spec (size_t (fionread_bytes io))
                (4096 + SLI_CPC_HDLC_HEADER_RAW_SIZE c - head)); lia. }
  destruct (malloc_ok io n); [| discriminate]. simpl in Hcall.
  destruct (read_fd_uart io n) as [data |] eqn:Hread; [| discriminate].
  destruct (Z.eqb_spec (Z.of_nat (length data)) n) as [Hdata | Hbad];
    [| discriminate].
  simpl in Hcall. inversion Hcall; subst buf' appended; clear Hcall.
  split; [exact Hn |]. split; [lia |].
  split; [apply length_memcpy; lia |].
  exists data. split; [exact Hread |]. split; [exact Hdata |].
  apply memcpy_block; lia.
Qed.

End Operations.

(** ** The processing loop *)

Section Loop.

Variable c : hdlc.
Hypothesis header_size : 0 < SLI_CPC_HDLC_HEADER_RAW_SIZE c < 2 ^ 32.

Lemma ingress_inv_bounds (d : uart_ingress) :
  ingress_inv c d ->
  0 <= buffer_head d <= Z.of_nat (length (buffer d))
  /\ Z.of_nat (length (buffer d)) < 2 ^ 64.
Proof. intros [Hlen Hhead]. unfold UART_BUFFER_SIZE in *. lia. Qed.

(** One turn keeps the invariant, keeps a suffix of the bytes held at
    offset 0 and, when the loop goes on, lowers the measure. *)
Lemma uart_iteration_step (io : uart_syscalls) (d d' : uart_ingress)
    (again : bool) :
  ingress_inv c d ->
  uart_iteration c io d = Ok (again, d') ->
  ingress_inv c d'
  /\ (exists k, 0 <= k <= buffer_head d
        /\ buffer_head d' = buffer_head d - k
        /\ buffered d' = sub_array (buffer d) k (buffer_head d'))
  /\ (again = true -> loop_measure d' < loop_measure d)
  /\ (again = true ->
      buffer_head d' < buffer_head d
      \/ (state d = EXPECTING_HEADER /\ state d' = EXPECTING_PAYLOAD
          /\ buffer d' = buffer d /\ buffer_head d' = buffer_head d)).
Proof.
  intros Hinv Hturn.
  destruct (ingress_inv_bounds d Hinv) as [Hhead Hlen].
  destruct Hinv as [Hsize Hcap].
  unfold uart_iteration in Hturn. unfold loop_measure, buffered, ingress_inv.
  destruct (state d) eqn:Hstate.
  - destruct (header_re_synch c (buffer d) (buffer_head d))
      as [[synched buf'] head'] eqn:Hpass.
    destruct (header_re_synch_keeps_suffix c header_size _ _ _ _ _
                Hhead Hlen Hpass)
      as (Hlen' & k & Hk & Hhead' & Hkept & Hsync & Hsame).
    destruct synched; inversion Hturn; subst again d'; clear Hturn;
      cbn [buffer buffer_head state core_frames].
    + split; [split; [congruence | lia] |].
      split; [exists k; repeat split; [lia | lia | lia | exact Hkept] |].
      split; [intros _; lia |].
      intros _. destruct (Z.eq_dec k 0) as [Hk0 | Hk0].
      * right. repeat split; [apply Hsame; exact Hk0 | lia].
      * left. lia.
    + split; [split; [congruence | lia] |].
      split; [exists k; repeat split; [lia | lia | lia | exact Hkept] |].
      split; discriminate.
  - destruct (delimit_and_push_frames_to_core c io (buffer d)
                (buffer_head d) (core_frames d))
      as [[[[pushed buf'] head'] core'] |] eqn:Hcall; [| discriminate].
    destruct (delimit_keeps_suffix c header_size _ _ _ _ _ _ _ _
                Hhead Hlen Hcall)
      as (Hlen' & k & Hk & Hhead' & Hkept & Hpushed & _).
    destruct pushed; inversion Hturn; subst again d'; clear Hturn;
      cbn [buffer buffer_head state core_frames].
    + destruct (Hpushed eq_refl) as [Hpos _].
      split; [split; [congruence | lia] |].
      split; [exists k; repeat split; [lia | lia | lia | exact Hkept] |].
      split; intros _; [lia | left; lia].
    + split; [split; [congruence | lia] |].
      split; [exists k; repeat split; [lia | lia | lia | exact Hkept] |].
      split; discriminate.
Qed.

(** The loop returns as soon as it is granted more turns than the
    measure. *)
Lemma uart_loop_returns (io : uart_syscalls) :
  forall (fuel : nat) (d : uart_ingress),
    ingress_inv c d -> loop_measure d < Z.of_nat fuel ->
    exists r, uart_loop c fuel io d = Some r.
Proof.
  induction fuel as [| fuel IH]; intros d Hinv Hfuel.
  - destruct Hinv as [_ Hhead]. unfold loop_measure in Hfuel.
    destruct (state d); lia.
  - simpl. destruct (uart_iteration c io d) as [[again d'] |] eqn:Hturn;
      [| eexists; reflexivity].
    destruct (uart_iteration_step io d d' again Hinv Hturn)
      as (Hinv' & _ & Hless & _).
    destruct again; [| eexists; reflexivity].
    apply IH; [exact Hinv' |]. specialize (Hless eq_refl). lia.
Qed.

(** Extra turns do not change what the loop returns. *)
Lemma uart_loop_more_fuel (io : uart_syscalls) :
  forall (fuel fuel' : nat) (d : uart_ingress) (r : result uart_ingress),
    uart_loop c fuel io d = Some r -> (fuel <= fuel')%nat ->
    uart_loop c fuel' io d = Some r.
Proof.
  induction fuel as [| fuel IH]; intros fuel' d r Hrun Hle; simpl in Hrun.
  - discriminate.
  - destruct fuel' as [| fuel']; [lia |]. simpl.
    destruct (uart_iteration c io d) as [[[|] d'] |]; try exact Hrun.
    apply (IH fuel' d' r Hrun). lia.
Qed.

(** The loop keeps the invariant. *)
Lemma uart_loop_inv (io : uart_syscalls) :
  forall (fuel : nat) (d d' : uart_ingress),
    ingress_inv c d -> uart_loop c fuel io d = Some (Ok d') ->
    ingress_inv c d'.
Proof.
  induction fuel as [| fuel IH]; intros d d' Hinv Hrun; simpl in Hrun.
  - discriminate.
  - destruct (uart_iteration c io d) as [[again d1] |] eqn:Hturn;
      [| discriminate].
    destruct (uart_iteration_step io d d1 again Hinv Hturn) as (Hinv1 & _).
    destruct again.
    + apply (IH d1 d' Hinv1 Hrun).
    + inversion Hrun; subst. exact Hinv1.
Qed.

(** Appending keeps the invariant. *)
Lemma append_inv (io : uart_syscalls) (d : uart_ingress) (buf' : list byte)
    (appended : Z) :
  ingress_inv c d ->
  read_and_append_uart_received_data io (buffer d) (buffer_head d)
    (UART_BUFFER_SIZE c) = Ok (buf', appended) ->
  size_t (buffer_head d + appended) = buffer_head d + appended
  /\ 0 <= appended
  /\ ingress_inv c
       {| buffer := buf'; buffer_head := buffer_head d + appended;
          state := state d; core_frames := core_frames d |}.
Proof.
  intros [Hlen Hhead] Hcall.
  destruct (read_and_append_spec c header_size io _ _ _ _ Hhead Hlen Hcall)
    as (Hn & Hpos & Hlen' & _).
  unfold UART_BUFFER_SIZE in *.
  split; [apply size_t_small; lia |]. split; [lia |].
  split; simpl; [unfold UART_BUFFER_SIZE; congruence |].
  unfold UART_BUFFER_SIZE. lia.
Qed.

(** One invocation of [driver_uart_process_uart] returns. *)
Lemma driver_uart_process_uart_returns (io : uart_syscalls)
    (d : uart_ingress) :
  ingress_inv c d ->
  exists r, driver_uart_process_uart c io d = Some r.
Proof.
  intros Hinv. unfold driver_uart_process_uart.
  destruct (read_and_append_uart_received_data io (buffer d)
              (buffer_head d) (UART_BUFFER_SIZE c))
    as [[buf' appended] |] eqn:Hcall; [| eexists; reflexivity].
  destruct (append_inv io d buf' appended Hinv Hcall) as (Hsz & Hpos & Hinv').
  rewrite Hsz. apply uart_loop_returns; [exact Hinv' |].
  destruct Hinv' as [_ Hhead']. simpl in Hhead'.
  unfold loop_measure, uart_loop_turns.
  cbn [buffer buffer_head state core_frames]. destruct (state d); lia.
Qed.

(** One invocation of [driver_uart_process_uart] keeps the invariant. *)
Lemma driver_uart_process_uart_inv (io : uart_syscalls)
    (d d' : uart_ingress) :
  ingress_inv c d ->
  driver_uart_process_uart c io d = Some (Ok d') ->
  ingress_inv c d'.
Proof.
  intros Hinv Hrun. unfold driver_uart_process_uart in Hrun.
  destruct (read_and_append_uart_received_data io (buffer d)
              (buffer_head d) (UART_BUFFER_SIZE c))
    as [[buf' appended] |] eqn:Hcall; [| discriminate].
  destruct (append_inv io d buf' appended Hinv Hcall) as (Hsz & Hpos & Hinv').
  rewrite Hsz in Hrun. apply (uart_loop_inv io _ _ d' Hinv' Hrun).
Qed.

End Loop.

(** ** The claims about the buffer invariant and termination *)

(** C8.  Each operation on the accumulation buffer (append, header
    resynchronisation, payload delimiting) and a whole invocation of
    [driver_uart_process_uart] keep the cursor between 0 and the capacity,
    and afterwards the bytes not yet consumed lie at offset 0: the first
    [buffer_head] bytes of the array are the bytes held before with the new
    bytes appended, or what is left of them after some leading ones were
    dropped. *)
Theorem buffer_invariant_preserved (c : hdlc) (io : uart_syscalls)
    (d : uart_ingress) :
  0 < SLI_CPC_HDLC_HEADER_RAW_SIZE c < 2 ^ 32 ->
  ingress_inv c d ->
  (forall buf' appended,
      read_and_append_uart_received_data io (buffer d) (buffer_head d)
        (UART_BUFFER_SIZE c) = Ok (buf', appended) ->
      let d' := {| buffer := buf';
                   buffer_head := size_t (buffer_head d + appended);
                   state := state d; core_frames := core_frames d |} in
      ingress_inv c d'
      /\ exists data, Z.of_nat (length data) = appended
                      /\ buffered d' = buffered d ++ data)
  /\ (forall synched buf' head',
         header_re_synch c (buffer d) (buffer_head d)
         = (synched, buf', head') ->
         let d' := {| buffer := buf'; buffer_head := head';
                      state := state d; core_frames := core_frames d |} in
         ingress_inv c d'
         /\ exists k, 0 <= k <= buffer_head d
                      /\ buffer_head d' = buffer_head d - k
                      /\ buffered d' = skipn (Z.to_nat k) (buffered d))
  /\ (forall pushed buf' head' core',
         delimit_and_push_frames_to_core c io (buffer d) (buffer_head d)
           (core_frames d) = Ok (pushed, buf', head', core') ->
         let d' := {| buffer := buf'; buffer_head := head';
                      state := state d; core_frames := core' |} in
         ingress_inv c d'
         /\ exists k, 0 <= k <= buffer_head d
                      /\ buffer_head d' = buffer_head d - k
                      /\ buffered d' = skipn (Z.to_nat k) (buffered d))
  /\ (forall d',
         driver_uart_process_uart c io d = Some (Ok d') -> ingress_inv c d').
Proof.
  intros Hraw Hinv.
  destruct (ingress_inv_bounds c Hraw d Hinv) as [Hhead Hlen].
  split; [| split; [| split]].
  - intros buf' appended Hcall d'.
    destruct (append_inv c Hraw io d buf' appended Hinv Hcall)
      as (Hsz & Hpos & Hinv').
    destruct Hinv as [Hsize Hcap].
    destruct (read_and_append_spec c Hraw io _ _ _ _ Hcap Hsize Hcall)
      as (_ & _ & _ & data & _ & Hdata & Hblock).
    unfold d'. rewrite Hsz. split; [exact Hinv' |].
    exists data. split; [exact Hdata | exact Hblock].
  - intros synched buf' head' Hpass d'.
    destruct (header_re_synch_keeps_suffix c Hraw _ _ _ _ _ Hhead Hlen Hpass)
      as (Hlen' & k & Hk & Hhead' & Hkept & _).
    destruct Hinv as [Hsize Hcap].
    subst d'.
    split; [split; cbn [buffer buffer_head]; [congruence | lia] |].
    exists k. split; [exact Hk |]. split; [exact Hhead' |].
    unfold buffered; cbn [buffer buffer_head].
    rewrite skipn_sub_array by lia. rewrite Hkept. f_equal; lia.
  - intros pushed buf' head' core' Hcall d'.
    destruct (delimit_keeps_suffix c Hraw _ _ _ _ _ _ _ _ Hhead Hlen Hcall)
      as (Hlen' & k & Hk & Hhead' & Hkept & _).
    destruct Hinv as [Hsize Hcap].
    subst d'.
    split; [split; cbn [buffer buffer_head]; [congruence | lia] |].
    exists k. split; [exact Hk |]. split; [exact Hhead' |].
    unfold buffered; cbn [buffer buffer_head].
    rewrite skipn_sub_array by lia. rewrite Hkept. f_equal; lia.
  - intros d'. apply driver_uart_process_uart_inv; assumption.
Qed.

Lemma buffer_invariant_preserved_witness :
  exists d',
    driver_uart_process_uart sample_hdlc (link_syscalls [xcc] write_all)
      framed_ingress = Some (Ok d')
    /\ ingress_inv sample_hdlc d'.
Proof.
  assert (Hrun : exists d',
             driver_uart_process_uart sample_hdlc
               (link_syscalls [xcc] write_all) framed_ingress
             = Some (Ok d'))
    by (vm_compute; eexists; reflexivity).
  destruct Hrun as [d' Hrun]. exists d'. split; [exact Hrun |].
  destruct (buffer_invariant_preserved sample_hdlc
              (link_syscalls [xcc] write_all) framed_ingress)
    as (_ & _ & _ & Hcall).
  - simpl. lia.
  - sample_inv.
  - exact (Hcall d' Hrun).
Defined.

(** C7, as the claim puts it, fails: with a valid header already at offset
    0 the turn that finds it reports progress and leaves the cursor where
    it was. *)
Lemma aligned_header_turn_keeps_head :
  ~ turn_exits_or_shrinks sample_hdlc (link_syscalls [] write_all)
      aligned_ingress.
Proof.
  unfold turn_exits_or_shrinks. intros Hturn.
  vm_compute in Hturn. discriminate.
Qed.

(** C7, amended.  The processing loop returns within [2 * head + 2] turns
    whatever the array holds and whichever state it starts in.  Each turn
    leaves the loop, or lowers the cursor, or, a valid header being already
    at offset 0, goes from [EXPECTING_HEADER] to [EXPECTING_PAYLOAD] with
    array and cursor untouched, and then the turn after it leaves the loop
    or lowers the cursor. *)
Theorem ingress_loop_terminates (c : hdlc) (io : uart_syscalls)
    (d : uart_ingress) :
  0 < SLI_CPC_HDLC_HEADER_RAW_SIZE c < 2 ^ 32 ->
  ingress_inv c d ->
  (exists r,
      forall fuel, (uart_loop_turns (buffer_head d) <= fuel)%nat ->
                   uart_loop c fuel io d = Some r)
  /\ (turn_exits_or_shrinks c io d
      \/ exists d',
          uart_iteration c io d = Ok (true, d')
          /\ state d = EXPECTING_HEADER /\ state d' = EXPECTING_PAYLOAD
          /\ buffer d' = buffer d /\ buffer_head d' = buffer_head d
          /\ turn_exits_or_shrinks c io d').
Proof.
  intros Hraw Hinv. split.
  - destruct (uart_loop_returns c Hraw io (uart_loop_turns (buffer_head d)) d
                Hinv) as [r Hr].
    { destruct Hinv as [_ Hhead]. unfold loop_measure, uart_loop_turns.
      destruct (state d); lia. }
    exists r. intros fuel Hfuel.
    apply (uart_loop_more_fuel c io _ fuel d r Hr Hfuel).
  - unfold turn_exits_or_shrinks at 1.
    destruct (uart_iteration c io d) as [[again d'] |] eqn:Hturn;
      [| left; exact I].
    destruct again; [| left; exact I].
    destruct (uart_iteration_step c Hraw io d d' true Hinv Hturn)
      as (Hinv' & _ & _ & Hcases).
    destruct (Hcases eq_refl) as [Hless | (Hs & Hs' & Hbuf & Hhead)];
      [left; exact Hless |].
    right. exists d'. repeat split; try assumption.
    unfold turn_exits_or_shrinks.
    destruct (uart_iteration c io d') as [[again' d''] |] eqn:Hturn';
      [| exact I].
    destruct again'; [| exact I].
    destruct (uart_iteration_step c Hraw io d' d'' true Hinv' Hturn')
      as (_ & _ & _ & Hcases').
    destruct (Hcases' eq_refl) as [Hless | (Hcontra & _)];
      [exact Hless | congruence].
Qed.

Lemma ingress_loop_terminates_witness :
  exists r,
    forall fuel, (16 <= fuel)%nat ->
      uart_loop sample_hdlc fuel (link_syscalls [] write_all) aligned_ingress
      = Some r.
Proof.
  destruct (ingress_loop_terminates sample_hdlc (link_syscalls [] write_all)
              aligned_ingress) as [Hreturns _].
  - simpl. lia.
  - sample_inv.
  - exact Hreturns.
Defined.

(** ** The claim about appending *)



(** ** The length of a sleep

    [time_usec] is two binary64 operations and a truncation.  Each
    operation of [SpecFloat] is followed through its shifts to show that it
    rounds to nearest; the two rounding errors together stay below the
    distance between the exact time and the next whole microsecond. *)

Lemma digits2_pos_bounds (p : positive) :
  2 ^ (Zpos (digits2_pos p) - 1) <= Zpos p < 2 ^ Zpos (digits2_pos p).
Proof.
  induction p as [p IH | p IH |]; cbn [digits2_pos].
  - rewrite Pos2Z.inj_succ. change (Zpos p~1) with (2 * Zpos p + 1).
    replace (Z.succ (Zpos (digits2_pos p)) - 1)
      with (Z.succ (Zpos (digits2_pos p) - 1)) by lia.
    rewrite !Z.pow_succ_r by lia.
    destruct IH as [Hl Hh]. revert Hl Hh.
    generalize (2 ^ (Zpos (digits2_pos p) - 1)) (2 ^ Zpos (digits2_pos p)).
    intros; lia.
  - rewrite Pos2Z.inj_succ. change (Zpos p~0) with (2 * Zpos p).
    replace (Z.succ (Zpos (digits2_pos p)) - 1)
      with (Z.succ (Zpos (digits2_pos p) - 1)) by lia.
    rewrite !Z.pow_succ_r by lia.
    destruct IH as [Hl Hh]. revert Hl Hh.
    generalize (2 ^ (Zpos (digits2_pos p) - 1)) (2 ^ Zpos (digits2_pos p)).
    intros; lia.
  - simpl. lia.
Qed.

Lemma digits2_pos_unique (p : positive) (d : Z) :
  2 ^ (d - 1) <= Zpos p < 2 ^ d -> Zpos (digits2_pos p) = d.
Proof.
  intros [Hlow Hhigh]. pose proof (digits2_pos_bounds p) as [Hl Hh].
  assert (Hd : 0 < d).
  { destruct (Z.ltb_spec 0 d) as [| Hle]; [assumption |].
    destruct (Z.eq_dec d 0) as [-> | Hne].
    - simpl in Hhigh. lia.
    - rewrite Z.pow_neg_r in Hhigh by lia. lia. }
  destruct (Z.lt_trichotomy (Zpos (digits2_pos p)) d) as [Hlt | [Heq | Hgt]].
  - assert (2 ^ Zpos (digits2_pos p) <= 2 ^ (d - 1))
      by (apply Z.pow_le_mono_r; lia).
    lia.
  - exact Heq.
  - assert (2 ^ d <= 2 ^ (Zpos (digits2_pos p) - 1))
      by (apply Z.pow_le_mono_r; lia).
    lia.
Qed.

Lemma Zdigits2_bounds (m d : Z) :
  2 ^ (d - 1) <= m < 2 ^ d -> 0 < d -> Zdigits2 m = d.
Proof.
  intros Hm Hd.
  assert (0 < 2 ^ (d - 1)) by (apply Z.pow_pos_nonneg; lia).
  destruct m as [| p | p]; try lia.
  cbn [Zdigits2]. apply digits2_pos_unique. exact Hm.
Qed.

(** Every positive integer below [2 ^ n] has a number of digits. *)
Lemma digits_exist (z n : Z) :
  0 < z < 2 ^ n -> 0 <= n ->
  exists d, 0 < d <= n /\ 2 ^ (d - 1) <= z < 2 ^ d.
Proof.
  intros Hz Hn. exists (Z.log2 z + 1).
  pose proof (Z.log2_spec z ltac:(lia)) as Hspec.
  pose proof (Z.log2_nonneg z) as Hnonneg.
  assert (Hlt : Z.log2 z < n) by (apply Z.log2_lt_pow2; lia).
  replace (Z.log2 z + 1 - 1) with (Z.log2 z) by lia.
  replace (Z.log2 z + 1) with (Z.succ (Z.log2 z)) by lia.
  split; [lia | exact Hspec].
Qed.

(** One shift to the right halves the quotient a record stands for. *)
Lemma shr_1_represents (N D : Z) (mrs : shr_record) :
  0 <= N -> 0 < D -> represents N D mrs -> represents N (2 * D) (shr_1 mrs).
Proof.
  intros HN HD (Hm & Hr & Hs). destruct mrs as [m r s].
  cbn [shr_m shr_r shr_s] in *.
  pose proof (Z.mod_pos_bound N D HD) as Hrem.
  assert (Hm0 : 0 <= m) by (rewrite Hm; apply Z.div_pos; lia).
  assert (Hdiv : N / (2 * D) = Z.div2 m).
  { rewrite Z.div2_div, Hm, Z.mul_comm. symmetry. apply Z.div_div; lia. }
  assert (Hmod : N mod (2 * D) = N mod D + D * (if Z.odd m then 1 else 0)).
  { rewrite <- Zmod_odd, Hm, (Z.mul_comm 2 D). apply Z.rem_mul_r; lia. }
  assert (Hor : orb r s = negb (N mod D =? 0)).
  { rewrite Hr, Hs.
    destruct (Z.leb_spec D (2 * (N mod D)));
      destruct (Z.eqb_spec (N mod D) 0);
      destruct (Z.eqb_spec (2 * (N mod D)) D); simpl; try reflexivity; lia. }
  assert (Hshift :
    shr_1 {| shr_m := m; shr_r := r; shr_s := s |}
    = {| shr_m := Z.div2 m; shr_r := Z.odd m; shr_s := orb r s |}).
  { destruct m as [| [p | p |] | p]; try lia; reflexivity. }
  rewrite Hshift. unfold represents. cbn [shr_m shr_r shr_s].
  rewrite Hdiv, Hmod, Hor. split; [reflexivity |].
  set (bit := if Z.odd m then 1 else 0).
  assert (Hbit : (Z.odd m = true /\ bit = 1) \/ (Z.odd m = false /\ bit = 0))
    by (unfold bit; destruct (Z.odd m); [left | right]; split; reflexivity).
  clearbody bit. destruct Hbit as [[-> ->] | [-> ->]];
    rewrite ?Z.mul_1_r, ?Z.mul_0_r, ?Z.add_0_r.
  - split.
    + destruct (Z.leb_spec (2 * D) (2 * (N mod D + D))); [reflexivity | lia].
    + destruct (Z.eqb_spec (N mod D) 0);
        destruct (Z.eqb_spec (N mod D + D) 0);
        destruct (Z.eqb_spec (2 * (N mod D + D)) (2 * D)); simpl;
        try reflexivity; lia.
  - split.
    + destruct (Z.leb_spec (2 * D) (2 * (N mod D))); [lia | reflexivity].
    + destruct (Z.eqb_spec (N mod D) 0);
        destruct (Z.eqb_spec (2 * (N mod D)) (2 * D)); simpl;
        try reflexivity; lia.
Qed.

Lemma pow2_xO (p : positive) : 2 ^ Zpos p~0 = 2 ^ Zpos p * 2 ^ Zpos p.
Proof.
  change (Zpos p~0) with (2 * Zpos p).
  replace (2 * Zpos p) with (Zpos p + Zpos p) by lia.
  apply Z.pow_add_r; lia.
Qed.

Lemma pow2_xI (p : positive) :
  2 ^ Zpos p~1 = 2 * (2 ^ Zpos p * 2 ^ Zpos p).
Proof.
  change (Zpos p~1) with (2 * Zpos p + 1).
  replace (2 * Zpos p + 1) with (Z.succ (Zpos p + Zpos p)) by lia.
  rewrite Z.pow_succ_r, Z.pow_add_r by lia. reflexivity.
Qed.

(** [p] shifts to the right divide the quotient by [2 ^ p]. *)
Lemma iter_pos_shr_1_represents (N : Z) (p : positive) :
  0 <= N ->
  forall (D : Z) (mrs : shr_record),
    0 < D -> represents N D mrs ->
    represents N (D * 2 ^ Zpos p) (iter_pos shr_1 p mrs).
Proof.
  intros HN. induction p as [p IH | p IH |]; intros D mrs HD Hrep;
    cbn [iter_pos].
  - pose proof (Z.pow_pos_nonneg 2 (Zpos p) ltac:(lia) ltac:(lia)) as Hpow.
    rewrite pow2_xI.
    replace (D * (2 * (2 ^ Zpos p * 2 ^ Zpos p)))
      with (2 * D * 2 ^ Zpos p * 2 ^ Zpos p) by ring.
    apply IH; [apply Z.mul_pos_pos; lia |]. apply IH; [lia |].
    apply shr_1_represents; assumption.
  - pose proof (Z.pow_pos_nonneg 2 (Zpos p) ltac:(lia) ltac:(lia)) as Hpow.
    rewrite pow2_xO.
    replace (D * (2 ^ Zpos p * 2 ^ Zpos p))
      with (D * 2 ^ Zpos p * 2 ^ Zpos p) by ring.
    apply IH; [apply Z.mul_pos_pos; lia |]. apply IH; [lia | assumption].
  - change (2 ^ 1) with 2. rewrite Z.mul_comm.
    apply shr_1_represents; assumption.
Qed.

(** An integer stands for itself. *)
Lemma shr_record_of_loc_exact (m : Z) :
  represents m 1 (shr_record_of_loc m loc_Exact).
Proof.
  unfold represents. cbn [shr_record_of_loc shr_m shr_r shr_s].
  rewrite Z.div_1_r, Z.mod_1_r. repeat split.
Qed.

(** The location computed by the division from the remainder. *)
Lemma new_location_represents (N D : Z) :
  0 <= N -> 0 < D ->
  represents N D (shr_record_of_loc (N / D) (new_location D (N mod D))).
Proof.
  intros HN HD. pose proof (Z.mod_pos_bound N D HD) as Hrem.
  unfold represents, new_location, new_location_even, new_location_odd.
  destruct (Z.even D) eqn:Hpar.
  - destruct (Z.eqb_spec (N mod D) 0) as [Hz | Hnz].
    + cbn [shr_record_of_loc shr_m shr_r shr_s]. rewrite Hz.
      split; [reflexivity |]. split; [| reflexivity].
      destruct (Z.leb_spec D (2 * 0)); [lia | reflexivity].
    + destruct (Z.compare_spec (2 * (N mod D)) D) as [Heq | Hlt | Hgt];
        cbn [shr_record_of_loc shr_m shr_r shr_s];
        (split; [reflexivity |]);
        destruct (Z.leb_spec D (2 * (N mod D)));
        destruct (Z.eqb_spec (2 * (N mod D)) D); simpl;
        (split; reflexivity) || lia.
  - assert (Hodd : Z.odd D = true)
      by (rewrite <- Z.negb_even, Hpar; reflexivity).
    apply Z.odd_spec in Hodd. destruct Hodd as [k Hk].
    destruct (Z.eqb_spec (N mod D) 0) as [Hz | Hnz].
    + cbn [shr_record_of_loc shr_m shr_r shr_s]. rewrite Hz.
      split; [reflexivity |]. split; [| reflexivity].
      destruct (Z.leb_spec D (2 * 0)); [lia | reflexivity].
    + destruct (Z.compare_spec (2 * (N mod D) + 1) D) as [Heq | Hlt | Hgt];
        cbn [shr_record_of_loc shr_m shr_r shr_s];
        (split; [reflexivity |]);
        destruct (Z.leb_spec D (2 * (N mod D)));
        destruct (Z.eqb_spec (2 * (N mod D)) D); simpl;
        (split; reflexivity) || lia.
Qed.

(** Rounding to nearest, ties to even, moves by half a unit at most. *)
Lemma round_nearest_even_represents (N D : Z) (mrs : shr_record) :
  0 <= N -> 0 < D -> represents N D mrs ->
  let z := round_nearest_even (shr_m mrs) (loc_of_shr_record mrs) in
  (z = N / D \/ z = N / D + 1)
  /\ - D <= 2 * (z * D - N) <= D.
Proof.
  intros HN HD (Hm & Hr & Hs) z. destruct mrs as [m r s].
  cbn [shr_m shr_r shr_s] in *. subst z.
  pose proof (Z.mod_pos_bound N D HD) as Hrem.
  pose proof (Z.div_mod N D ltac:(lia)) as Hdm.
  rewrite <- Hm in *.
  destruct (Z.leb_spec D (2 * (N mod D))) as [Hhalf | Hhalf];
    destruct (Z.eqb_spec (N mod D) 0) as [Hz | Hnz];
    destruct (Z.eqb_spec (2 * (N mod D)) D) as [Hmid | Hmid];
    simpl in Hs; subst r s; cbn [loc_of_shr_record round_nearest_even];
    try lia;
    try (destruct (Z.even m)); split; try (left; reflexivity);
    try (right; reflexivity); nia.
Qed.

Lemma fexp_normal (e : Z) : -1074 <= e - 53 -> fexp 53 1024 e = e - 53.
Proof. intros He. unfold fexp, emin. lia. Qed.

(** The first shift of [binary_round_aux] brings a mantissa of [d] digits
    down to 53 digits. *)
Lemma shr_fexp_represents (mx ex : Z) (lx : location) (N D d : Z) :
  0 <= N -> 0 < D ->
  represents N D (shr_record_of_loc mx lx) ->
  2 ^ (d - 1) <= mx < 2 ^ d -> 53 <= d ->
  -1074 <= ex + d - 53 ->
  exists mrs,
    shr_fexp 53 1024 mx ex lx = (mrs, ex + (d - 53))
    /\ represents N (D * 2 ^ (d - 53)) mrs.
Proof.
  intros HN HD Hrep Hmx Hd Hex. unfold shr_fexp.
  rewrite (Zdigits2_bounds mx d Hmx) by lia.
  rewrite fexp_normal by lia.
  replace (d + ex - 53 - ex) with (d - 53) by lia.
  destruct (d - 53) as [| p | p] eqn:Hn; try lia.
  - cbn [shr]. eexists. split; [f_equal; lia |].
    change (2 ^ 0) with 1. rewrite Z.mul_1_r. exact Hrep.
  - cbn [shr]. eexists. split; [reflexivity |].
    apply iter_pos_shr_1_represents; assumption.
Qed.

(** The second shift of [binary_round_aux] brings a mantissa that rounding
    took to [2 ^ 53] back to 53 digits. *)
Lemma shr_fexp_renormalise (m e : Z) :
  2 ^ 52 <= m <= 2 ^ 53 -> -1074 <= e ->
  exists mrs e',
    shr_fexp 53 1024 m e loc_Exact = (mrs, e')
    /\ 2 ^ 52 <= shr_m mrs < 2 ^ 53
    /\ e <= e' <= e + 1
    /\ shr_m mrs * 2 ^ (e' - e) = m.
Proof.
  intros Hm He. unfold shr_fexp.
  destruct (Z.eq_dec m (2 ^ 53)) as [-> | Hne].
  - rewrite (Zdigits2_bounds (2 ^ 53) 54) by (simpl; lia).
    rewrite fexp_normal by lia.
    replace (54 + e - 53 - e) with 1 by lia.
    cbn [shr shr_record_of_loc iter_pos].
    eexists. eexists. split; [reflexivity |].
    simpl. replace (e + 1 - e) with 1 by lia. simpl. lia.
  - rewrite (Zdigits2_bounds m 53) by (simpl; simpl in Hm; lia).
    rewrite fexp_normal by lia.
    replace (53 + e - 53 - e) with 0 by lia.
    cbn [shr shr_record_of_loc shr_m].
    eexists. eexists. split; [reflexivity |].
    cbn [shr_m]. rewrite Z.sub_diag. simpl in *. lia.
Qed.

(** [binary_round_aux] on a positive number away from the ends of the
    exponent range: the result is a normal number, within half a unit of
    the last of its 53 places of [N / D] scaled by [2 ^ ex]. *)
Lemma binary_round_aux_positive (mx ex : Z) (lx : location) (N D d : Z) :
  0 <= N -> 0 < D ->
  represents N D (shr_record_of_loc mx lx) ->
  2 ^ (d - 1) <= mx < 2 ^ d -> 53 <= d ->
  -1074 <= ex + d - 53 -> ex + d - 52 <= 971 ->
  exists (mz : positive) (ez : Z),
    binary_round_aux 53 1024 false mx ex lx = S754_finite false mz ez
    /\ normal53 mz
    /\ ex + d - 53 <= ez <= ex + d - 52
    /\ - (D * 2 ^ (d - 53))
       <= 2 * (Zpos mz * 2 ^ (ez - ex) * D - N)
       <= D * 2 ^ (d - 53).
Proof.
  intros HN HD Hrep Hmx Hd Hlow Hhigh. unfold binary_round_aux, normal53.
  destruct (shr_fexp_represents mx ex lx N D d HN HD Hrep Hmx Hd Hlow)
    as (mrs & Hshift & Hrep').
  rewrite Hshift.
  assert (Hpow : 0 < 2 ^ (d - 53)) by (apply Z.pow_pos_nonneg; lia).
  assert (HD' : 0 < D * 2 ^ (d - 53)) by (apply Z.mul_pos_pos; lia).
  destruct (round_nearest_even_represents N (D * 2 ^ (d - 53)) mrs HN HD'
              Hrep') as [Hz Herr].
  set (z := round_nearest_even (shr_m mrs) (loc_of_shr_record mrs)) in *.
  assert (Hquot : 2 ^ 52 <= N / (D * 2 ^ (d - 53)) < 2 ^ 53).
  { destruct Hrep as (Hm & _).
    assert (Hmx' : mx = N / D) by (destruct lx as [| []]; exact Hm).
    rewrite <- Z.div_div by lia. rewrite <- Hmx'.
    assert (Hsplit : 2 ^ (d - 1) = 2 ^ 52 * 2 ^ (d - 53)).
    { rewrite <- Z.pow_add_r by lia. f_equal. lia. }
    assert (Hsplit' : 2 ^ d = 2 ^ 53 * 2 ^ (d - 53)).
    { rewrite <- Z.pow_add_r by lia. f_equal. lia. }
    split.
    - apply Z.div_le_lower_bound; [lia |]. lia.
    - apply Z.div_lt_upper_bound; [lia |]. lia. }
  assert (Hzr : 2 ^ 52 <= z <= 2 ^ 53) by lia.
  destruct (shr_fexp_renormalise z (ex + (d - 53)) Hzr ltac:(lia))
    as (mrs2 & e2 & Hshift2 & Hnorm & He2 & Hval).
  rewrite Hshift2.
  destruct (shr_m mrs2) as [| mz | mz] eqn:Hmz; try (simpl in Hnorm; lia).
  destruct (Z.leb_spec e2 (1024 - 53)) as [_ | Hover]; [| lia].
  exists mz, e2. split; [reflexivity |]. split; [exact Hnorm |].
  split; [lia |].
  replace (e2 - ex) with ((e2 - (ex + (d - 53))) + (d - 53)) by lia.
  rewrite Z.pow_add_r by lia.
  replace (Zpos mz * (2 ^ (e2 - (ex + (d - 53))) * 2 ^ (d - 53)) * D)
    with (Zpos mz * 2 ^ (e2 - (ex + (d - 53))) * (D * 2 ^ (d - 53)))
    by ring.
  rewrite Hval. lia.
Qed.

Lemma iter_xO_pow2 (p k : positive) :
  Zpos (Pos.iter xO p k) = Zpos p * 2 ^ Zpos k.
Proof.
  induction k as [| k IH] using Pos.peano_ind.
  - cbn [Pos.iter]. change (2 ^ 1) with 2. lia.
  - rewrite Pos.iter_succ, Pos2Z.inj_succ, Z.pow_succ_r by lia.
    change (Zpos (Pos.iter xO p k)~0) with (2 * Zpos (Pos.iter xO p k)).
    rewrite IH. ring.
Qed.

(** The conversion of a positive integer of at most 53 digits is exact. *)
Lemma double_of_Z_positive (z d : Z) :
  2 ^ (d - 1) <= z < 2 ^ d -> 0 < d <= 53 ->
  exists m,
    double_of_Z z = S754_finite false m (d - 53)
    /\ normal53 m
    /\ Zpos m = z * 2 ^ (53 - d).
Proof.
  intros Hz Hd.
  assert (Hpos : 0 < 2 ^ (d - 1)) by (apply Z.pow_pos_nonneg; lia).
  destruct z as [| p | p]; try lia.
  unfold double_of_Z, binary_normalize, binary_round.
  rewrite (digits2_pos_unique p d Hz), Z.add_0_r, fexp_normal by lia.
  assert (Haligned :
    exists mz, shl_align p 0 (d - 53) = (mz, d - 53)
               /\ Zpos mz = Zpos p * 2 ^ (53 - d)).
  { unfold shl_align. rewrite Z.sub_0_r.
    destruct (d - 53) as [| k | k] eqn:Hk; try lia.
    - exists p. split; [reflexivity |].
      replace (53 - d) with 0 by lia. lia.
    - eexists. split; [reflexivity |]. rewrite iter_xO_pow2.
      f_equal. f_equal. lia. }
  destruct Haligned as (mz & -> & Hmz).
  assert (Hnormal : 2 ^ (53 - 1) <= Zpos mz < 2 ^ 53).
  { rewrite Hmz.
    assert (H52 : 2 ^ (53 - 1) = 2 ^ (d - 1) * 2 ^ (53 - d))
      by (rewrite <- Z.pow_add_r by lia; f_equal; lia).
    assert (H53 : 2 ^ 53 = 2 ^ d * 2 ^ (53 - d))
      by (rewrite <- Z.pow_add_r by lia; f_equal; lia).
    assert (0 < 2 ^ (53 - d)) by (apply Z.pow_pos_nonneg; lia).
    rewrite H52, H53. split.
    - apply Z.mul_le_mono_nonneg_r; lia.
    - apply Z.mul_lt_mono_pos_r; lia. }
  destruct (binary_round_aux_positive (Zpos mz) (d - 53) loc_Exact
              (Zpos mz) 1 53) as (m & ez & Hround & Hm & Hez & Herr);
    try lia.
  { apply shr_record_of_loc_exact. }
  rewrite Hround. unfold normal53 in *.
  change (2 ^ (53 - 53)) with 1 in Herr.
  assert (Hexp : ez = d - 53).
  { destruct (Z.eq_dec ez (d - 53)) as [| Hne]; [assumption |].
    replace (ez - (d - 53)) with 1 in Herr by lia.
    change (2 ^ 1) with 2 in Herr. change (53 - 1) with 52 in Hnormal.
    lia. }
  subst ez. rewrite Z.sub_diag in Herr. change (2 ^ 0) with 1 in Herr.
  assert (Heq : m = mz) by lia. subst m.
  exists mz. split; [reflexivity |]. split; [exact Hm | exact Hmz].
Qed.

(** The quotient of two positive normal numbers, away from the ends of the
    exponent range, is their exact quotient rounded to nearest: [h] tells
    how many digits the division computed beyond 53. *)
Lemma SFdiv_positive (m1 m2 : positive) (e1 e2 : Z) :
  normal53 m1 -> normal53 m2 ->
  -1074 <= e1 - e2 - 53 -> e1 - e2 - 53 + 2 <= 971 ->
  exists (mq : positive) (eq h : Z),
    SFdiv 53 1024 (S754_finite false m1 e1) (S754_finite false m2 e2)
    = S754_finite false mq eq
    /\ normal53 mq
    /\ 0 <= h <= 1
    /\ h <= eq - (e1 - e2 - 53) <= h + 1
    /\ - (Zpos m2 * 2 ^ h)
       <= 2 * (Zpos mq * 2 ^ (eq - (e1 - e2 - 53)) * Zpos m2
               - Zpos m1 * 2 ^ 53)
       <= Zpos m2 * 2 ^ h.
Proof.
  intros H1 H2 Hlow Hhigh. unfold normal53 in H1, H2.
  unfold SFdiv, SFdiv_core_binary. cbn [xorb].
  rewrite (Zdigits2_bounds (Zpos m1) 53), (Zdigits2_bounds (Zpos m2) 53)
    by (simpl in *; lia).
  replace (53 + e1 - (53 + e2)) with (e1 - e2) by lia.
  rewrite fexp_normal by lia.
  replace (Z.min (e1 - e2 - 53) (e1 - e2)) with (e1 - e2 - 53) by lia.
  replace (e1 - e2 - (e1 - e2 - 53)) with 53 by lia.
  cbv iota.
  rewrite Z.shiftl_mul_pow2 by lia.
  set (N := Zpos m1 * 2 ^ 53). set (D := Zpos m2).
  assert (Heucl : Z.div_eucl N D = (N / D, N mod D)).
  { unfold Z.div, Z.modulo. destruct (Z.div_eucl N D). reflexivity. }
  rewrite Heucl.
  assert (HN : 0 <= N) by (unfold N; lia).
  assert (HD : 0 < D) by (unfold D; lia).
  assert (Hq : 2 ^ 52 <= N / D < 2 ^ 54).
  { split.
    - apply Z.div_le_lower_bound; [lia |]. unfold N, D. simpl in *. nia.
    - apply Z.div_lt_upper_bound; [lia |]. unfold N, D. simpl in *. nia. }
  destruct (Z.ltb_spec (N / D) (2 ^ 53)) as [Hsmall | Hbig].
  - destruct (binary_round_aux_positive (N / D) (e1 - e2 - 53)
                (new_location D (N mod D)) N D 53)
      as (mq & eq & Hround & Hm & Hez & Herr); try lia.
    { apply new_location_represents; assumption. }
    rewrite Hround. exists mq, eq, 0. change (53 - 53) with 0 in Herr.
    repeat split; try lia; apply Hm.
  - destruct (binary_round_aux_positive (N / D) (e1 - e2 - 53)
                (new_location D (N mod D)) N D 54)
      as (mq & eq & Hround & Hm & Hez & Herr); try lia.
    { apply new_location_represents; assumption. }
    rewrite Hround. exists mq, eq, 1. change (54 - 53) with 1 in Herr.
    repeat split; try lia; apply Hm.
Qed.

(** The product of two positive normal numbers, away from the ends of the
    exponent range, is their exact product rounded to nearest: [h] tells
    how many digits the product has beyond 53. *)
Lemma SFmul_positive (m1 m2 : positive) (e1 e2 : Z) :
  normal53 m1 -> normal53 m2 ->
  -1074 <= e1 + e2 + 52 -> e1 + e2 + 54 <= 971 ->
  exists (mp : positive) (ep h : Z),
    SFmul 53 1024 (S754_finite false m1 e1) (S754_finite false m2 e2)
    = S754_finite false mp ep
    /\ normal53 mp
    /\ 52 <= h <= 53
    /\ h <= ep - (e1 + e2) <= h + 1
    /\ - 2 ^ h
       <= 2 * (Zpos mp * 2 ^ (ep - (e1 + e2)) - Zpos m1 * Zpos m2)
       <= 2 ^ h.
Proof.
  intros H1 H2 Hlow Hhigh. unfold normal53 in H1, H2.
  unfold SFmul. cbn [xorb]. rewrite Pos2Z.inj_mul.
  set (N := Zpos m1 * Zpos m2).
  assert (HN : 2 ^ 104 <= N < 2 ^ 106) by (unfold N; simpl in *; nia).
  destruct (Z.ltb_spec N (2 ^ 105)) as [Hsmall | Hbig].
  - destruct (binary_round_aux_positive N (e1 + e2) loc_Exact N 1 105)
      as (mp & ep & Hround & Hm & Hez & Herr); try lia.
    { apply shr_record_of_loc_exact. }
    rewrite Hround. exists mp, ep, 52. change (105 - 53) with 52 in Herr.
    repeat split; try lia; apply Hm.
  - destruct (binary_round_aux_positive N (e1 + e2) loc_Exact N 1 106)
      as (mp & ep & Hround & Hm & Hez & Herr); try lia.
    { apply shr_record_of_loc_exact. }
    rewrite Hround. exists mp, ep, 53. change (106 - 53) with 53 in Herr.
    repeat split; try lia; apply Hm.
Qed.

(** The two rounding errors together: [mq] is the quotient with error
    [2 ^ h] on the scale [2 ^ hq], [mp] the product with error [2 ^ h2] on
    the scale [2 ^ hp]; the result on the scale [2 ^ k] is less than one
    away from the exact time in microseconds, both multiplied by the bit
    rate [r]. *)
Lemma rounding_errors_add_up
    (b r mq mp W Pk Php Phq Ph Ph2 P2 M c33 c53 c56 : Z) :
  0 < r < P2 -> 0 < b ->
  0 < Phq <= 4 -> 0 < Php -> 0 < Pk -> 0 < Ph <= 2 -> 0 < Ph2 <= c53 ->
  0 < M -> 0 < c33 -> M = 1000000 * c33 ->
  4 * c53 + 2 * M <= c56 ->
  c33 * W = Pk * Php ->
  P2 * c56 <= 2 * Phq * Php * Pk ->
  - (r * Ph) <= 2 * (Phq * (mq * r - b * W)) <= r * Ph ->
  - Ph2 <= 2 * (mp * Php - mq * M) <= Ph2 ->
  - Pk < mp * r - b * 1000000 * Pk < Pk.
Proof.
  intros Hr Hb Hhq Hhp Hk Hh Hh2 HM Hc33 HMdef Hc56 HW Hbig E1 E2.
  set (T1 := mq * r - b * W) in *.
  set (T2 := mp * Php - mq * M) in *.
  set (T := mp * r - b * 1000000 * Pk).
  assert (Hcomb : 2 * Phq * Php * T
                  = Phq * r * (2 * T2) + M * (2 * (Phq * T1))).
  { unfold T, T1, T2.
    replace (2 * Phq * Php * (mp * r - b * 1000000 * Pk))
      with (2 * Phq * (Php * mp * r)
            - 2 * Phq * b * 1000000 * (Pk * Php)) by ring.
    rewrite <- HW, HMdef. ring. }
  clearbody T T1 T2.
  assert (Hpr : 0 <= Phq * r) by (apply Z.mul_nonneg_nonneg; lia).
  assert (H1 : Phq * r * (2 * T2) <= Phq * r * Ph2)
    by (apply Z.mul_le_mono_nonneg_l; lia).
  assert (H1' : Phq * r * (- Ph2) <= Phq * r * (2 * T2))
    by (apply Z.mul_le_mono_nonneg_l; lia).
  assert (H2 : M * (2 * (Phq * T1)) <= M * (r * Ph))
    by (apply Z.mul_le_mono_nonneg_l; lia).
  assert (H2' : M * (- (r * Ph)) <= M * (2 * (Phq * T1)))
    by (apply Z.mul_le_mono_nonneg_l; lia).
  assert (H3 : Phq * r * Ph2 <= 4 * r * c53).
  { transitivity (Phq * r * c53).
    - apply Z.mul_le_mono_nonneg_l; lia.
    - replace (Phq * r * c53) with (Phq * (r * c53)) by ring.
      replace (4 * r * c53) with (4 * (r * c53)) by ring.
      apply Z.mul_le_mono_nonneg_r; [| lia].
      apply Z.mul_nonneg_nonneg; lia. }
  assert (H4 : M * (r * Ph) <= M * (r * 2)).
  { apply Z.mul_le_mono_nonneg_l; [lia |].
    apply Z.mul_le_mono_nonneg_l; lia. }
  assert (H5 : r * c56 < P2 * c56).
  { apply Z.mul_lt_mono_pos_r; lia. }
  assert (H6 : r * (4 * c53 + 2 * M) <= r * c56)
    by (apply Z.mul_le_mono_nonneg_l; lia).
  replace (r * (4 * c53 + 2 * M)) with (4 * r * c53 + M * (r * 2)) in H6
    by ring.
  assert (Hpos : 0 < 2 * Phq * Php).
  { apply Z.mul_pos_pos; [lia | assumption]. }
  assert (Hup : 2 * Phq * Php * T < 2 * Phq * Php * Pk).
  { rewrite Hcomb. clear Hcomb E1 E2 HW. rewrite Z.mul_opp_r in *. lia. }
  assert (Hdown : 2 * Phq * Php * (- Pk) < 2 * Phq * Php * T).
  { rewrite Hcomb. clear Hcomb E1 E2 HW. rewrite !Z.mul_opp_r in *. lia. }
  split.
  - apply (Z.mul_lt_mono_pos_l (2 * Phq * Php)); assumption.
  - apply (Z.mul_lt_mono_pos_l (2 * Phq * Php)); assumption.
Qed.

(** Dropping the fraction of a number less than one away from [X / r]. *)
Lemma truncation_bounds (mp r X Pk : Z) :
  0 < Pk -> 0 < r -> 0 <= mp ->
  - Pk < mp * r - X * Pk < Pk ->
  (mp / Pk) * r <= X <= (mp / Pk + 1) * r.
Proof.
  intros HPk Hr Hmp [Hlow Hhigh].
  pose proof (Z.div_mod mp Pk ltac:(lia)) as Hdm.
  pose proof (Z.mod_pos_bound mp Pk HPk) as Hrem.
  set (t := mp / Pk) in *. set (rem := mp mod Pk) in *.
  clearbody t rem.
  assert (Hmr : mp * r = Pk * (t * r) + rem * r) by (rewrite Hdm; ring).
  assert (Hrr : 0 <= rem * r) by (apply Z.mul_nonneg_nonneg; lia).
  assert (Hrr' : rem * r < Pk * r) by (apply Z.mul_lt_mono_pos_r; lia).
  split.
  - assert (Hlt : Pk * (t * r) < Pk * (X + 1)).
    { replace (Pk * (X + 1)) with (X * Pk + Pk) by ring. lia. }
    apply Z.mul_lt_mono_pos_l in Hlt; lia.
  - assert (Hlt : Pk * (X - 1) < Pk * ((t + 1) * r)).
    { replace (Pk * (X - 1)) with (X * Pk - Pk) by ring.
      replace (Pk * ((t + 1) * r)) with (Pk * (t * r) + Pk * r) by ring.
      lia. }
    apply Z.mul_lt_mono_pos_l in Hlt; lia.
Qed.

(** The sleep computed for [bits] bits at [uart_bitrate] bits per second.
    As long as the bit count is a positive [int] and the time fits an
    [unsigned int], the value is defined and lies within one microsecond
    below the exact time [bits * 1000000 / uart_bitrate]: it is that time
    with its fraction dropped, or one less than it when the time is a whole
    number of microseconds. *)
Lemma time_usec_near (uart_bitrate bits : Z) :
  0 < uart_bitrate < 2 ^ 32 -> 0 < bits < 2 ^ 31 ->
  bits * 1000000 < 2 ^ 32 * uart_bitrate ->
  exists usec,
    time_usec uart_bitrate bits = Some usec
    /\ usec * uart_bitrate <= bits * 1000000 <= (usec + 1) * uart_bitrate.
Proof.
  intros Hr Hb Hfits. unfold time_usec.
  destruct (Z.ltb_spec bits (- 2 ^ 31)) as [Hneg | _]; [lia |].
  destruct (Z.leb_spec (2 ^ 31) bits) as [Hbig | _]; [lia |].
  cbn [orb].
  destruct (digits_exist bits 31 Hb ltac:(lia)) as (d1 & Hd1 & Hbd).
  destruct (digits_exist uart_bitrate 32 Hr ltac:(lia)) as (d2 & Hd2 & Hrd).
  destruct (double_of_Z_positive bits d1 Hbd ltac:(lia))
    as (m1 & -> & Hn1 & Hm1).
  destruct (double_of_Z_positive uart_bitrate d2 Hrd ltac:(lia))
    as (m2 & -> & Hn2 & Hm2).
  destruct (double_of_Z_positive 1000000 20 ltac:(simpl; lia) ltac:(lia))
    as (mM & -> & HnM & HmM).
  destruct (SFdiv_positive m1 m2 (d1 - 53) (d2 - 53) Hn1 Hn2
              ltac:(lia) ltac:(lia))
    as (mq & eq & h & -> & Hnq & Hh & Hhq & E1).
  destruct (SFmul_positive mq mM eq (20 - 53) Hnq HnM ltac:(lia) ltac:(lia))
    as (mp & ep & h2 & -> & Hnp & Hh2 & Hhp & E2).
  cbn [unsigned_int_of_double].
  set (hq := eq - (d1 - 53 - (d2 - 53) - 53)) in *.
  set (hp := ep - (eq + (20 - 53))) in *.
  set (k := 86 + d2 - d1 - hp - hq).
  assert (Hep : ep = - k) by (unfold k, hp, hq; lia).
  assert (Hk : 0 <= k) by (unfold k; lia).
  rewrite Hep, Z.shiftl_div_pow2, Z.opp_involutive by lia.
  assert (Hpk : 0 < 2 ^ k) by (apply Z.pow_pos_nonneg; lia).
  assert (Hphp : 0 < 2 ^ hp) by (apply Z.pow_pos_nonneg; lia).
  assert (Hphq : 0 < 2 ^ hq <= 4).
  { split; [apply Z.pow_pos_nonneg; lia |].
    change 4 with (2 ^ 2). apply Z.pow_le_mono_r; lia. }
  assert (Hph : 0 < 2 ^ h <= 2).
  { split; [apply Z.pow_pos_nonneg; lia |].
    change 2 with (2 ^ 1) at 2. apply Z.pow_le_mono_r; lia. }
  assert (Hph2 : 0 < 2 ^ h2 <= 2 ^ 53).
  { split; [apply Z.pow_pos_nonneg; lia |]. apply Z.pow_le_mono_r; lia. }
  assert (HW : 2 ^ 33 * 2 ^ (k + hp - 33) = 2 ^ k * 2 ^ hp).
  { rewrite <- !Z.pow_add_r by (unfold k; lia). f_equal. lia. }
  assert (Hwide : 2 ^ d2 * 2 ^ 56 <= 2 * 2 ^ hq * 2 ^ hp * 2 ^ k).
  { change 2 with (2 ^ 1) at 3.
    rewrite <- !Z.pow_add_r by lia. apply Z.pow_le_mono_r; unfold k; lia. }
  assert (HB2 : 0 < 2 ^ (53 - d2)) by (apply Z.pow_pos_nonneg; lia).
  assert (Hscale : 2 ^ (53 - d1) * 2 ^ 53
                   = 2 ^ (53 - d2) * (2 ^ hq * 2 ^ (k + hp - 33))).
  { rewrite <- !Z.pow_add_r by (unfold k; lia). f_equal. unfold k. lia. }
  assert (E1' : - (uart_bitrate * 2 ^ h)
                <= 2 * (2 ^ hq * (Zpos mq * uart_bitrate
                                  - bits * 2 ^ (k + hp - 33)))
                <= uart_bitrate * 2 ^ h).
  { rewrite Hm1, Hm2 in E1.
    replace (Zpos mq * 2 ^ hq * (uart_bitrate * 2 ^ (53 - d2))
             - bits * 2 ^ (53 - d1) * 2 ^ 53)
      with (2 ^ (53 - d2)
            * (2 ^ hq * (Zpos mq * uart_bitrate
                         - bits * 2 ^ (k + hp - 33))))
      in E1
      by (replace (bits * 2 ^ (53 - d1) * 2 ^ 53)
            with (bits * (2 ^ (53 - d1) * 2 ^ 53)) by ring;
          rewrite Hscale; ring).
    set (T1 := 2 ^ hq * (Zpos mq * uart_bitrate
                         - bits * 2 ^ (k + hp - 33))) in *.
    clearbody T1.
    replace (uart_bitrate * 2 ^ (53 - d2) * 2 ^ h)
      with (2 ^ (53 - d2) * (uart_bitrate * 2 ^ h)) in E1 by ring.
    replace (2 * (2 ^ (53 - d2) * T1)) with (2 ^ (53 - d2) * (2 * T1))
      in E1 by ring.
    rewrite <- Z.mul_opp_r in E1. destruct E1 as [E1l E1u].
    apply Z.mul_le_mono_pos_l in E1l; [| exact HB2].
    apply Z.mul_le_mono_pos_l in E1u; [| exact HB2].
    split; assumption. }
  pose proof (rounding_errors_add_up bits uart_bitrate (Zpos mq) (Zpos mp)
                (2 ^ (k + hp - 33)) (2 ^ k) (2 ^ hp) (2 ^ hq) (2 ^ h)
                (2 ^ h2) (2 ^ d2) (Zpos mM) (2 ^ 33) (2 ^ 53) (2 ^ 56)
                ltac:(lia) ltac:(lia) Hphq Hphp Hpk Hph Hph2 ltac:(lia)
                ltac:(lia) HmM ltac:(rewrite HmM; simpl; lia) HW Hwide
                E1' E2)
    as Hnear.
  pose proof (truncation_bounds (Zpos mp) uart_bitrate (bits * 1000000)
                (2 ^ k) Hpk ltac:(lia) ltac:(lia) Hnear) as Hbounds.
  set (usec := Zpos mp / 2 ^ k) in *.
  assert (Hin : usec < 2 ^ 32).
  { apply (Z.mul_lt_mono_pos_r uart_bitrate); lia. }
  destruct (Z.ltb_spec usec (2 ^ 32)) as [_ | Hout]; [| lia].
  exists usec. split; [reflexivity | exact Hbounds].
Qed.

(** ** Egress pacing *)

Section Pacing.

Variable usec_of_bits : Z -> Z.

(** The drain loop only adds sleeps and polls, and it ends on a poll that
    saw the queue empty. *)
Lemma drain_ends_on_empty_queue :
  forall (polls : list Z) (bytes_remaining : Z)
         (pre trace : list egress_event),
    drain_transmit_queue usec_of_bits polls bytes_remaining
      (pre ++ [EvQueueDepth bytes_remaining]) = (trace, true) ->
    exists pre',
      trace = pre' ++ [EvQueueDepth 0]
      /\ ((forall m, ~ In (EvWriteUart m) pre) ->
          forall m, ~ In (EvWriteUart m) pre').
Proof.
  induction polls as [| depth polls IH]; intros b pre trace Hrun;
    simpl in Hrun.
  - destruct (Z.eqb_spec b 0) as [-> | Hb]; [| discriminate].
    inversion Hrun; subst trace. exists pre. split; [reflexivity | auto].
  - destruct (Z.eqb_spec b 0) as [-> | Hb].
    + inversion Hrun; subst trace. exists pre. split; [reflexivity | auto].
    + rewrite <- app_assoc in Hrun. simpl in Hrun.
      change (pre ++ [EvQueueDepth b; EvSleep (usec_of_bits (b * 8));
                      EvQueueDepth depth])
        with (pre ++ [EvQueueDepth b; EvSleep (usec_of_bits (b * 8))]
                  ++ [EvQueueDepth depth]) in Hrun.
      rewrite app_assoc in Hrun.
      destruct (IH depth _ trace Hrun) as (pre' & Htrace & Hclean).
      exists pre'. split; [exact Htrace |].
      intros Hpre. apply Hclean. intros m Hin.
      apply in_app_or in Hin. destruct Hin as [Hin | Hin].
      * exact (Hpre m Hin).
      * simpl in Hin. destruct Hin as [Hin | [Hin | []]]; discriminate.
Qed.

(** The drain loop issues no write. *)
Lemma drain_adds_no_write :
  forall (polls : list Z) (bytes_remaining : Z)
         (trace trace' : list egress_event) (drained : bool),
    drain_transmit_queue usec_of_bits polls bytes_remaining trace
    = (trace', drained) ->
    forall m, ~ In (EvWriteUart m) trace -> ~ In (EvWriteUart m) trace'.
Proof.
  induction polls as [| depth polls IH];
    intros b trace trace' drained Hrun m Hclean; simpl in Hrun.
  - destruct (b =? 0); inversion Hrun; subst; exact Hclean.
  - destruct (b =? 0); [inversion Hrun; subst; exact Hclean |].
    apply (IH _ _ _ _ Hrun). intros Hin.
    apply in_app_or in Hin. destruct Hin as [Hin | Hin]; [auto |].
    simpl in Hin. destruct Hin as [Hin | [Hin | []]]; discriminate.
Qed.

(** Against the depths [n - 1, ..., 0] the drain loop makes [n] turns. *)
Lemma drain_countdown :
  forall (n : nat) (trace : list egress_event),
    drain_transmit_queue usec_of_bits (countdown n) (Z.of_nat n) trace
    = (trace ++ flat_map (drain_turn usec_of_bits) (countdown n), true).
Proof.
  induction n as [| n IH]; intros trace.
  - simpl. rewrite app_nil_r. reflexivity.
  - cbn [countdown drain_transmit_queue flat_map].
    destruct (Z.eqb_spec (Z.of_nat (S n)) 0) as [Hz | _]; [lia |].
    rewrite IH, <- app_assoc. unfold drain_turn at 2.
    replace ((Z.of_nat n + 1) * 8) with (Z.of_nat (S n) * 8) by lia.
    reflexivity.
Qed.

End Pacing.

(** At each bit rate the driver can be configured with, the sleep computed
    for 20 bytes is defined: it is the time 160 bits take, in whole
    microseconds, the fraction dropped. *)
Lemma idle_time_usec (uart_bitrate : Z) :
  In uart_bitrate supported_bitrates ->
  time_usec uart_bitrate (20 * 8)
  = Some (20 * 8 * 1000000 / uart_bitrate).
Proof.
  intros Hin. unfold supported_bitrates in Hin. simpl in Hin.
  repeat (destruct Hin as [Hin | Hin];
          [subst uart_bitrate; vm_compute; reflexivity |]).
  destruct Hin.
Qed.

(** C5.  [uart_bitrate] is the bit rate the driver was configured with, one
    of those [driver_uart_open] accepts.  The idle sleep, computed by the
    driver's floating-point expression for 20 bytes of 8 bits, is defined
    and is the time 20 bytes take at that bit rate, [160 * 1000000 /
    uart_bitrate] microseconds with the fraction of a microsecond dropped.
    Whatever the system calls answer, if [driver_uart_process_core] issues
    the write to the link, then that write is the last thing it does, the
    event just before it is that idle sleep, the event before that is a
    poll that saw the transmit queue empty, and no write was issued before.
    Against the queue depths [n, n - 1, ..., 0] the run is: read the
    message, poll [n], then [n] turns of sleep and poll down to 0, the idle
    sleep, the write. *)
Theorem egress_write_after_drain_and_idle (uart_bitrate : Z)
    (usec_of_bits : Z -> Z) :
  In uart_bitrate supported_bitrates ->
  is_time_usec uart_bitrate usec_of_bits ->
  let idle := 20 * 8 * 1000000 / uart_bitrate in
  time_usec uart_bitrate (20 * 8) = Some idle
  /\ idle * uart_bitrate <= 20 * 8 * 1000000 < (idle + 1) * uart_bitrate
  /\ (forall (io : core_syscalls) (msg : list byte),
        In (EvWriteUart msg)
           (fst (driver_uart_process_core usec_of_bits io)) ->
        exists pre,
          fst (driver_uart_process_core usec_of_bits io)
          = pre ++ [EvQueueDepth 0; EvSleep idle; EvWriteUart msg]
          /\ (forall m, ~ In (EvWriteUart m) pre)
          /\ read_fd_core io = Some msg)
  /\ (forall (msg : list byte) (n : nat),
        driver_uart_process_core usec_of_bits (draining_link msg n)
        = ([EvReadCore msg; EvQueueDepth (Z.of_nat n)]
             ++ flat_map (drain_turn usec_of_bits) (countdown n)
             ++ [EvSleep idle; EvWriteUart msg],
           Some (Ok tt))).
Proof.
  intros Hrate Hcomputes idle.
  pose proof (idle_time_usec uart_bitrate Hrate) as Hidle. fold idle in Hidle.
  pose proof (Hcomputes _ _ Hidle) as Hsleep.
  assert (Hpos : 0 < uart_bitrate).
  { unfold supported_bitrates in Hrate. simpl in Hrate.
    repeat (destruct Hrate as [Hrate | Hrate]; [lia |]). destruct Hrate. }
  split; [exact Hidle |].
  split.
  { unfold idle.
    pose proof (Z.mul_div_le (20 * 8 * 1000000) uart_bitrate Hpos).
    pose proof (Z.mul_succ_div_gt (20 * 8 * 1000000) uart_bitrate Hpos).
    lia. }
  clearbody idle. rewrite <- Hsleep. clear Hidle Hsleep.
  split.
  - intros io msg Hin. unfold driver_uart_process_core in *.
    destruct (read_fd_core io) as [msg0 |]; [| simpl in Hin; contradiction].
    destruct (tiocoutq_retval io <? 0).
    { simpl in Hin. destruct Hin as [Hin | []]. discriminate. }
    destruct (tiocoutq_first io <? 0).
    { simpl in Hin. destruct Hin as [Hin | [Hin | []]]; discriminate. }
    destruct (drain_transmit_queue usec_of_bits (tiocoutq_polls io)
                (tiocoutq_first io)
                ([EvReadCore msg0] ++ [EvQueueDepth (tiocoutq_first io)]))
      as [trace drained] eqn:Hdrain.
    assert (Hclean0 : forall m, ~ In (EvWriteUart m) [EvReadCore msg0]).
    { intros m [Hm | []]. discriminate. }
    destruct drained.
    + destruct (drain_ends_on_empty_queue usec_of_bits _ _ _ _ Hdrain)
        as (pre & Htrace & Hclean).
      specialize (Hclean Hclean0).
      assert (Hshape :
        (trace ++ [EvSleep (usec_of_bits (20 * 8))]) ++ [EvWriteUart msg0]
        = pre ++ [EvQueueDepth 0; EvSleep (usec_of_bits (20 * 8));
                  EvWriteUart msg0]).
      { rewrite Htrace, <- !app_assoc. reflexivity. }
      assert (Hfst :
        fst (if write_fd_uart io msg0 <? 0
             then ((trace ++ [EvSleep (usec_of_bits (20 * 8))])
                     ++ [EvWriteUart msg0], Some Fatal)
             else if negb (size_t (write_fd_uart io msg0)
                           =? size_t (Z.of_nat (length msg0)))
             then ((trace ++ [EvSleep (usec_of_bits (20 * 8))])
                     ++ [EvWriteUart msg0], Some Fatal)
             else ((trace ++ [EvSleep (usec_of_bits (20 * 8))])
                     ++ [EvWriteUart msg0], Some (Ok tt)))
        = pre ++ [EvQueueDepth 0; EvSleep (usec_of_bits (20 * 8));
                  EvWriteUart msg0]).
      { destruct (write_fd_uart io msg0 <? 0); [exact Hshape |].
        destruct (negb (size_t (write_fd_uart io msg0)
                        =? size_t (Z.of_nat (length msg0))));
          exact Hshape. }
      rewrite Hfst in *.
      assert (Hmsg : msg = msg0).
      { apply in_app_or in Hin. destruct Hin as [Hin | Hin].
        - exfalso. exact (Hclean msg Hin).
        - simpl in Hin.
          destruct Hin as [Hin | [Hin | [Hin | []]]]; try discriminate.
          inversion Hin. reflexivity. }
      subst msg0. exists pre. repeat split; [exact Hclean].
    + exfalso. simpl in Hin.
      apply (drain_adds_no_write usec_of_bits _ _ _ _ _ Hdrain msg);
        [| exact Hin].
      intros [Hm | [Hm | []]]; discriminate.
  - intros msg n. unfold driver_uart_process_core, draining_link.
    cbn [read_fd_core tiocoutq_retval tiocoutq_first tiocoutq_polls
         write_fd_uart].
    destruct (Z.ltb_spec 0 0); [lia |].
    destruct (Z.ltb_spec (Z.of_nat n) 0); [lia |].
    rewrite drain_countdown.
    destruct (Z.ltb_spec (Z.of_nat (length msg)) 0); [lia |].
    rewrite Z.eqb_refl. simpl negb. cbv iota.
    rewrite <- !app_assoc. reflexivity.
Qed.

(** [usec_of_bits_at] is a computation of the sleep lengths. *)
Lemma usec_of_bits_at_is_time_usec (uart_bitrate : Z) :
  is_time_usec uart_bitrate (usec_of_bits_at uart_bitrate).
Proof.
  intros bits usec Hdefined. unfold usec_of_bits_at. rewrite Hdefined.
  reflexivity.
Qed.

Lemma egress_write_after_drain_and_idle_witness :
  time_usec 115200 (20 * 8) = Some 1388
  /\ exists pre,
       fst (driver_uart_process_core (usec_of_bits_at 115200)
              (draining_link [x14; x00] 2))
       = pre ++ [EvQueueDepth 0; EvSleep 1388; EvWriteUart [x14; x00]]
       /\ (forall m, ~ In (EvWriteUart m) pre)
       /\ read_fd_core (draining_link [x14; x00] 2) = Some [x14; x00].
Proof.
  destruct (egress_write_after_drain_and_idle 115200
              (usec_of_bits_at 115200))
    as (Hidle & _ & Hany & _).
  - simpl. do 4 right. left. reflexivity.
  - apply usec_of_bits_at_is_time_usec.
  - split; [exact Hidle |].
    apply (Hany (draining_link [x14; x00] 2) [x14; x00]).
    vm_compute. do 7 right. left. reflexivity.
Defined.

(** ** The dispatcher *)

(** Waits cut short by a signal change nothing: the dispatcher goes on with
    the answers that follow, in the state it was in. *)
Lemma interrupted_waits_skipped (EINTR : Z) (S : Type)
    (callback : driver_epoll_callback_t -> S -> result S)
    (waits answers : list epoll_answer) (s : S) :
  Forall (fun w => event_count w = -1 /\ errno w = EINTR) waits ->
  driver_thread_func EINTR S callback (waits ++ answers) s
  = driver_thread_func EINTR S callback answers s.
Proof.
  induction 1 as [| w waits [Hcount Herrno] _ IH];
    cbn [app driver_thread_func].
  - reflexivity.
  - rewrite Hcount, Herrno, Z.eqb_refl, Z.eqb_refl. exact IH.
Qed.

(** C10.  The readiness wait is simply repeated when it fails with
    [event_count = -1] and [errno = EINTR]: after any number of such
    failures the dispatcher is alive, blocked in [epoll_wait] again with its
    state untouched and no callback run, and it treats the answers that
    follow as if the interrupted waits had not happened.  Any other
    negative return and a return of zero end the process, also when they
    come after interrupted waits, and whatever would have followed.  A
    positive return runs the callbacks of the ready sources; if none of
    them dies the dispatcher goes back to waiting. *)
Theorem epoll_wait_outcomes (EINTR : Z) (S : Type)
    (callback : driver_epoll_callback_t -> S -> result S)
    (waits : list epoll_answer) (a : epoll_answer)
    (answers : list epoll_answer) (s : S) :
  Forall (fun w => event_count w = -1 /\ errno w = EINTR) waits ->
  driver_thread_func EINTR S callback waits s = Waiting s
  /\ driver_thread_func EINTR S callback (waits ++ answers) s
     = driver_thread_func EINTR S callback answers s
  /\ (event_count a = -1 -> errno a = EINTR ->
      driver_thread_func EINTR S callback (a :: answers) s
      = driver_thread_func EINTR S callback answers s)
  /\ (event_count a < 0 ->
      ~ (event_count a = -1 /\ errno a = EINTR) ->
      driver_thread_func EINTR S callback (waits ++ a :: answers) s = Died)
  /\ (event_count a = 0 ->
      driver_thread_func EINTR S callback (waits ++ a :: answers) s = Died)
  /\ (0 < event_count a ->
      driver_thread_func EINTR S callback (waits ++ a :: answers) s
      = match process_ready S callback
                (firstn (Z.to_nat (event_count a)) (events a)) s with
        | Fatal => Died
        | Ok s' => driver_thread_func EINTR S callback answers s'
        end)
  /\ (0 < event_count a ->
      forall s',
        process_ready S callback
          (firstn (Z.to_nat (event_count a)) (events a)) s = Ok s' ->
        driver_thread_func EINTR S callback (waits ++ [a]) s = Waiting s').
Proof.
  intros Hwaits.
  assert (Hone :
    (event_count a = -1 -> errno a = EINTR ->
     driver_thread_func EINTR S callback (a :: answers) s
     = driver_thread_func EINTR S callback answers s)
    /\ (event_count a < 0 ->
        ~ (event_count a = -1 /\ errno a = EINTR) ->
        driver_thread_func EINTR S callback (a :: answers) s = Died)
    /\ (event_count a = 0 ->
        driver_thread_func EINTR S callback (a :: answers) s = Died)
    /\ (0 < event_count a ->
        forall rest,
          driver_thread_func EINTR S callback (a :: rest) s
          = match process_ready S callback
                    (firstn (Z.to_nat (event_count a)) (events a)) s with
            | Fatal => Died
            | Ok s' => driver_thread_func EINTR S callback rest s'
            end)).
  { cbn [driver_thread_func].
    destruct (Z.eqb_spec (event_count a) (-1)) as [Hm1 | Hm1];
      destruct (Z.eqb_spec (errno a) EINTR) as [Hintr | Hintr];
      destruct (Z.ltb_spec (event_count a) 0) as [Hneg | Hneg];
      destruct (Z.eqb_spec (event_count a) 0) as [Hzero | Hzero];
      cbn [andb]; repeat split; intros; try reflexivity; try lia;
      try tauto. }
  destruct Hone as (Hretry & Hfail & Hzero & Hready).
  split.
  { rewrite <- (app_nil_r waits).
    rewrite (interrupted_waits_skipped EINTR S callback waits [] s Hwaits).
    reflexivity. }
  split; [exact (interrupted_waits_skipped _ _ _ _ _ _ Hwaits) |].
  split; [exact Hretry |].
  rewrite !(interrupted_waits_skipped EINTR S callback waits _ s Hwaits).
  split; [exact Hfail |]. split; [exact Hzero |].
  split; [intros Hpos; exact (Hready Hpos answers) |].
  intros Hpos s' Hrun. rewrite (Hready Hpos []), Hrun. reflexivity.
Qed.

Lemma epoll_wait_outcomes_witness :
  driver_thread_func linux_EINTR nat counting_callback
    [interrupted_wait; interrupted_wait] 0%nat = Waiting 0%nat
  /\ driver_thread_func linux_EINTR nat counting_callback
       [interrupted_wait; interrupted_wait; empty_wake; uart_wake] 0%nat
     = Died
  /\ driver_thread_func linux_EINTR nat counting_callback
       [interrupted_wait; interrupted_wait; uart_wake] 0%nat
     = Waiting 1%nat.
Proof.
  assert (Hwaits :
    Forall (fun w => event_count w = -1 /\ errno w = linux_EINTR)
      [interrupted_wait; interrupted_wait])
    by (repeat constructor).
  split; [| split].
  - destruct (epoll_wait_outcomes linux_EINTR nat counting_callback
                [interrupted_wait; interrupted_wait] empty_wake []
                0%nat Hwaits) as (Halive & _).
    exact Halive.
  - destruct (epoll_wait_outcomes linux_EINTR nat counting_callback
                [interrupted_wait; interrupted_wait] empty_wake [uart_wake]
                0%nat Hwaits) as (_ & _ & _ & _ & Hzero & _).
    apply Hzero. reflexivity.
  - destruct (epoll_wait_outcomes linux_EINTR nat counting_callback
                [interrupted_wait; interrupted_wait] uart_wake []
                0%nat Hwaits) as (_ & _ & _ & _ & _ & _ & Hready).
    apply Hready; [simpl; lia | reflexivity].
Defined.

(** ** Opening the link *)

(** A bit rate that is not in the table leaves [sym_bitrate] as it was. *)
Lemma find_sym_bitrate_absent (bitrate : Z) :
  forall (table : list (Z * Z)) (sym : Z),
    ~ In bitrate (map fst table) ->
    find_sym_bitrate table bitrate sym = sym.
Proof.
  induction table as [| [val symbolic] table IH]; intros sym Habsent; simpl.
  - reflexivity.
  - simpl in Habsent. rewrite IH by tauto.
    destruct (Z.eqb_spec val bitrate); [tauto | reflexivity].
Qed.

(** A bit rate that is in a table of non-negative symbols yields one. *)
Lemma find_sym_bitrate_present (bitrate : Z) :
  forall (table : list (Z * Z)) (sym : Z),
    (forall p, In p table -> 0 <= snd p) ->
    0 <= sym \/ In bitrate (map fst table) ->
    0 <= find_sym_bitrate table bitrate sym.
Proof.
  induction table as [| [val symbolic] table IH]; intros sym Hsyms Hcase;
    simpl.
  - destruct Hcase as [Hsym | []]. exact Hsym.
  - apply IH; [intros p Hp; apply Hsyms; right; exact Hp |].
    pose proof (Hsyms (val, symbolic) (or_introl eq_refl)) as Hsymbolic.
    simpl in Hsymbolic, Hcase.
    destruct (Z.eqb_spec val bitrate) as [Heq | Hne]; [left; exact Hsymbolic |].
    destruct Hcase as [Hsym | [Heq | Hin]];
      [left; exact Hsym | contradiction | right; exact Hin].
Qed.

(** C9.  [driver_uart_open] returns, and then a descriptor that is not
    negative, only for a bit rate among
    9600, 19200, 38400, 57600, 115200, 230400, 460800 and 921600; for any
    other bit rate it ends in a fatal error whatever the system calls
    answer.  For a bit rate of the set, speed symbols that are not negative
    and system calls that succeed, it returns the descriptor. *)
Theorem driver_uart_open_bitrates (t : termios_h) (io : open_syscalls)
    (bitrate : Z) (hardflow : bool) :
  (forall fd, driver_uart_open t io bitrate hardflow = Ok fd ->
              In bitrate supported_bitrates /\ 0 <= fd)
  /\ (~ In bitrate supported_bitrates ->
      driver_uart_open t io bitrate hardflow = Fatal)
  /\ (In bitrate supported_bitrates ->
      (forall p, In p (conversion t) -> 0 <= snd p) ->
      0 <= open_retval io -> tcgetattr_retval io <> -1 ->
      0 <= tcsetattr_retval io ->
      driver_uart_open t io bitrate hardflow = Ok (open_retval io)).
Proof.
  assert (Hother : ~ In bitrate supported_bitrates ->
                   driver_uart_open t io bitrate hardflow = Fatal).
  { intros Habsent. unfold driver_uart_open.
    destruct (open_retval io <? 0); [reflexivity |].
    destruct (tcgetattr_retval io =? -1); [reflexivity |].
    rewrite find_sym_bitrate_absent by exact Habsent.
    reflexivity. }
  split; [| split].
  - intros fd Hopen. split.
    + destruct (in_dec Z.eq_dec bitrate supported_bitrates) as [Hin | Hout];
        [exact Hin |].
      rewrite (Hother Hout) in Hopen. discriminate.
    + unfold driver_uart_open in Hopen.
      destruct (Z.ltb_spec (open_retval io) 0); [discriminate |].
      destruct (tcgetattr_retval io =? -1); [discriminate |].
      destruct (find_sym_bitrate (conversion t) bitrate (-1) <? 0);
        [discriminate |].
      destruct (tcsetattr_retval io <? 0); [discriminate |].
      inversion Hopen; subst fd. assumption.
  - exact Hother.
  - intros Hin Hsyms Hopen Hget Hset. unfold driver_uart_open.
    destruct (Z.ltb_spec (open_retval io) 0); [lia |].
    destruct (Z.eqb_spec (tcgetattr_retval io) (-1)); [contradiction |].
    pose proof (find_sym_bitrate_present bitrate (conversion t) (-1) Hsyms
                  (or_intror Hin)) as Hsym.
    destruct (Z.ltb_spec (find_sym_bitrate (conversion t) bitrate (-1)) 0);
      [lia |].
    destruct (Z.ltb_spec (tcsetattr_retval io) 0); [lia | reflexivity].
Qed.

Lemma driver_uart_open_bitrates_witness :
  driver_uart_open linux_termios good_device 250000 false = Fatal
  /\ driver_uart_open linux_termios good_device 115200 false = Ok 3.
Proof.
  split.
  - destruct (driver_uart_open_bitrates linux_termios good_device 250000
                false) as (_ & Hother & _).
    apply Hother. vm_compute.
    intros Hin. repeat (destruct Hin as [Hin | Hin]; [discriminate |]).
    exact Hin.
  - destruct (driver_uart_open_bitrates linux_termios good_device 115200
                false) as (_ & _ & Hgood).
    apply Hgood.
    + vm_compute. do 4 right. left. reflexivity.
    + intros p Hp. vm_compute in Hp.
      repeat (destruct Hp as [Hp | Hp]; [subst p; simpl; lia |]).
      destruct Hp.
    + simpl. lia.
    + simpl. lia.
    + simpl. lia.
Defined.

(** ** Feeding a stream in pieces *)

Lemma sub_array_app_prefix (l rest : list byte) (a n : Z) :
  0 <= a -> 0 <= n -> a + n <= Z.of_nat (length l) ->
  sub_array (l ++ rest) a n = sub_array l a n.
Proof.
  intros Ha Hn Hfit. unfold sub_array.
  rewrite skipn_app, firstn_app.
  replace (Z.to_nat n - length (skipn (Z.to_nat a) l))%nat with 0%nat
    by (rewrite length_skipn; lia).
  rewrite firstn_O, app_nil_r. reflexivity.
Qed.

Lemma sub_array_to_end (l : list byte) (a : Z) :
  0 <= a ->
  sub_array l a (Z.of_nat (length l) - a) = skipn (Z.to_nat a) l.
Proof.
  intros Ha. unfold sub_array. apply firstn_all2.
  rewrite length_skipn. lia.
Qed.

Lemma sub_array_app_tail (l data : list byte) (a : Z) :
  0 <= a <= Z.of_nat (length l) ->
  sub_array l a (Z.of_nat (length l) - a) ++ data
  = sub_array (l ++ data) a (Z.of_nat (length (l ++ data)) - a).
Proof.
  intros Ha. rewrite !sub_array_to_end by lia.
  rewrite skipn_app.
  replace (Z.to_nat a - length l)%nat with 0%nat by lia.
  reflexivity.
Qed.

Section Feeding.

Variable c : hdlc.
Hypothesis header_size : 0 < SLI_CPC_HDLC_HEADER_RAW_SIZE c < 2 ^ 32.

Lemma length_buffered (d : uart_ingress) :
  ingress_inv c d -> Z.of_nat (length (buffered d)) = buffer_head d.
Proof.
  intros [Hlen Hhead]. unfold buffered. apply length_sub_array; lia.
Qed.

(** A block of the bytes held is a block of the array. *)
Lemma sub_array_buffered (d : uart_ingress) (b m : Z) :
  0 <= b -> 0 <= m -> b + m <= buffer_head d ->
  sub_array (buffered d) b m = sub_array (buffer d) b m.
Proof.
  intros Hb Hm Hfit. unfold buffered.
  apply (sub_array_sub_array (buffer d) 0 (buffer_head d) b m); lia.
Qed.

(** A window over the array is a window over the bytes held. *)
Lemma header_at_buffered (d : uart_ingress) (j : Z) :
  0 <= j -> j + SLI_CPC_HDLC_HEADER_RAW_SIZE c <= buffer_head d ->
  header_at c (buffer d) j = header_at c (buffered d) j.
Proof.
  intros Hj Hfit. unfold header_at, buffered.
  rewrite sub_array_sub_array by lia. reflexivity.
Qed.

(** One invocation appends the bytes read and then runs the loop. *)
Lemma driver_uart_process_uart_steps (io : uart_syscalls)
    (d d' : uart_ingress) :
  ingress_inv c d ->
  driver_uart_process_uart c io d = Some (Ok d') ->
  exists buf1 fuel,
    let d1 := {| buffer := buf1;
                 buffer_head :=
                   buffer_head d + Z.of_nat (length (bytes_read c io d));
                 state := state d; core_frames := core_frames d |} in
    ingress_inv c d1
    /\ buffered d1 = buffered d ++ bytes_read c io d
    /\ uart_loop c fuel io d1 = Some (Ok d').
Proof.
  intros Hinv Hrun. unfold driver_uart_process_uart in Hrun.
  unfold bytes_read.
  destruct (read_and_append_uart_received_data io (buffer d)
              (buffer_head d) (UART_BUFFER_SIZE c))
    as [[buf1 appended] |] eqn:Hcall; [| discriminate].
  destruct (append_inv c header_size io d buf1 appended Hinv Hcall)
    as (Hsz & Hpos & Hinv1).
  destruct Hinv as [Hlen Hhead].
  destruct (read_and_append_spec c header_size io _ _ _ _ Hhead Hlen Hcall)
    as (_ & _ & _ & data & Hread & Hdata & Hblock).
  rewrite Hread, Hdata. rewrite Hsz in Hrun.
  exists buf1. eexists. split; [exact Hinv1 |]. split; [exact Hblock |].
  exact Hrun.
Qed.

(** A turn that leaves the loop decides what the loop returns. *)
Lemma uart_loop_exit (io : uart_syscalls) (fuel : nat)
    (d d1 d' : uart_ingress) :
  uart_iteration c io d = Ok (false, d1) ->
  uart_loop c fuel io d = Some (Ok d') -> d' = d1.
Proof.
  intros Hturn Hrun. destruct fuel as [| fuel]; simpl in Hrun.
  - discriminate.
  - rewrite Hturn in Hrun. inversion Hrun. reflexivity.
Qed.

Lemma uart_loop_again (io : uart_syscalls) (fuel : nat)
    (d d1 d' : uart_ingress) :
  uart_iteration c io d = Ok (true, d1) ->
  uart_loop c fuel io d = Some (Ok d') ->
  exists fuel', uart_loop c fuel' io d1 = Some (Ok d').
Proof.
  intros Hturn Hrun. destruct fuel as [| fuel]; simpl in Hrun.
  - discriminate.
  - rewrite Hturn in Hrun. exists fuel. exact Hrun.
Qed.

(** While the frame at offset 0 is not complete, a turn in
    [EXPECTING_PAYLOAD] changes nothing and leaves the loop. *)
Lemma payload_waits (io : uart_syscalls) (d : uart_ingress) :
  ingress_inv c d -> state d = EXPECTING_PAYLOAD ->
  buffer_head d
  < uint16_t (hdlc_get_length c (header_at c (buffer d) 0))
    + SLI_CPC_HDLC_HEADER_RAW_SIZE c ->
  uart_iteration c io d = Ok (false, d).
Proof.
  intros [Hlen Hhead] Hstate Hshort. unfold uart_iteration. rewrite Hstate.
  unfold UART_BUFFER_SIZE in Hhead.
  destruct (delimit_cases c header_size io (buffer d) (buffer_head d)
              (core_frames d)) as [(_ & Hres) | [(Hfit & _) | (Hfit & _)]];
    [lia | | lia | lia].
  rewrite Hres. destruct d; simpl in *. subst. reflexivity.
Qed.

(** With less than a header held, a turn in [EXPECTING_HEADER] changes
    nothing and leaves the loop. *)
Lemma header_waits (io : uart_syscalls) (d : uart_ingress) :
  state d = EXPECTING_HEADER ->
  buffer_head d < SLI_CPC_HDLC_HEADER_RAW_SIZE c ->
  uart_iteration c io d = Ok (false, d).
Proof.
  intros Hstate Hshort. unfold uart_iteration. rewrite Hstate.
  rewrite header_re_synch_short by exact Hshort.
  destruct d; simpl in *. subst. reflexivity.
Qed.

(** The pass that finds the first valid window at [k]: the bytes from [k]
    on are at offset 0 afterwards. *)
Lemma header_re_synch_found_block (buf : list byte) (head k : Z) :
  head <= Z.of_nat (length buf) -> Z.of_nat (length buf) < 2 ^ 64 ->
  0 <= k -> k + SLI_CPC_HDLC_HEADER_RAW_SIZE c <= head ->
  (forall j, 0 <= j < k -> validate_header c (header_at c buf j) = false) ->
  validate_header c (header_at c buf k) = true ->
  exists buf',
    header_re_synch c buf head = (true, buf', head - k)
    /\ length buf' = length buf
    /\ sub_array buf' 0 (head - k) = sub_array buf k (head - k).
Proof.
  intros Hhead Hlen Hk Hfit Hbad Hgood.
  rewrite (header_re_synch_found c header_size buf head k);
    [| lia | lia | lia | exact Hbad | exact Hgood].
  destruct (Z.eqb_spec k 0) as [-> | Hk0].
  - exists buf. rewrite Z.sub_0_r. repeat split.
  - eexists. split; [reflexivity |].
    split; [apply length_memmove_front; lia |].
    apply memmove_front_block; lia.
Qed.

End Feeding.

Section Synchronising.

Variable c : hdlc.
Hypothesis header_size : 0 < SLI_CPC_HDLC_HEADER_RAW_SIZE c < 2 ^ 32.

(** One invocation on a stream whose first valid header is at [k] and whose
    frame stays incomplete. *)
Lemma seeking_step (io : uart_syscalls) (d d' : uart_ingress)
    (k : Z) (pre rest s : list byte) :
  ingress_inv c d -> seeking c k pre d ->
  s = (pre ++ bytes_read c io d) ++ rest ->
  first_header_at c s k -> frame_incomplete c s k ->
  driver_uart_process_uart c io d = Some (Ok d') ->
  ingress_inv c d'
  /\ seeking c k (pre ++ bytes_read c io d) d'
  /\ core_frames d' = core_frames d.
Proof.
  intros Hinv (o & Ho & Hopre & Hhead & Hheld & Hphase) Hs
         (Hk & Hkfit & Hbad & Hgood) Hpartial Hrun.
  destruct (driver_uart_process_uart_steps c header_size io d d' Hinv Hrun)
    as (buf1 & fuel & Hinv1 & Hheld1 & Hloop).
  set (data := bytes_read c io d) in *.
  set (pre' := pre ++ data) in *.
  set (d1 := {| buffer := buf1;
                buffer_head := buffer_head d + Z.of_nat (length data);
                state := state d; core_frames := core_frames d |}) in *.
  assert (Hpre' : Z.of_nat (length pre')
                  = Z.of_nat (length pre) + Z.of_nat (length data))
    by (unfold pre'; rewrite length_app; lia).
  assert (Hslen : Z.of_nat (length pre') <= Z.of_nat (length s))
    by (rewrite Hs, length_app; lia).
  assert (Hhead1 : buffer_head d1 = Z.of_nat (length pre') - o)
    by (unfold d1; cbn [buffer_head]; lia).
  assert (Hheld1' : buffered d1
                    = sub_array pre' o (Z.of_nat (length pre') - o)).
  { rewrite Hheld1, Hheld. unfold pre'. apply sub_array_app_tail. lia. }
  assert (Hwindow : forall i,
             0 <= i ->
             i + SLI_CPC_HDLC_HEADER_RAW_SIZE c <= buffer_head d1 ->
             header_at c (buffer d1) i = header_at c s (o + i)).
  { intros i Hi Hfit.
    rewrite (header_at_buffered c header_size d1 i Hi Hfit). unfold header_at.
    rewrite Hheld1', sub_array_sub_array by lia.
    rewrite Hs. symmetry. apply sub_array_app_prefix; lia. }
  unfold frame_incomplete in Hpartial.
  assert (Hstate1 : state d1 = state d) by reflexivity.
  assert (Hcore1 : core_frames d1 = core_frames d) by reflexivity.
  clearbody d1.
  destruct Hphase as [(Hstate & Hshort) | (Hstate & -> & Henough)].
  - (* still seeking the header *)
    rewrite Hstate in Hstate1.
    destruct (Z.lt_ge_cases (buffer_head d1)
                (SLI_CPC_HDLC_HEADER_RAW_SIZE c)) as [Hlt | Hge].
    + (* not even a header's worth *)
      pose proof (header_waits c io d1 Hstate1 Hlt) as Hturn.
      rewrite (uart_loop_exit c io fuel d1 d1 d' Hturn Hloop).
      split; [exact Hinv1 |]. split; [| exact Hcore1].
      exists o. repeat split; try lia; try assumption.
      left. split; assumption.
    + destruct (Z.le_gt_cases (k + SLI_CPC_HDLC_HEADER_RAW_SIZE c)
                  (Z.of_nat (length pre'))) as [Hin | Hout].
      * (* the header at [k] is entirely there *)
        destruct (ingress_inv_bounds c header_size d1 Hinv1)
          as [Hb1 Hb2].
        destruct (header_re_synch_found_block c header_size (buffer d1)
                    (buffer_head d1) (k - o))
          as (buf2 & Hpass & Hlen2 & Hblock);
          [lia | lia | lia | lia | | |].
        { intros j Hj. rewrite Hwindow by lia. apply Hbad. lia. }
        { rewrite Hwindow by lia. replace (o + (k - o)) with k by lia.
          exact Hgood. }
        set (d2 := {| buffer := buf2;
                      buffer_head := buffer_head d1 - (k - o);
                      state := EXPECTING_PAYLOAD;
                      core_frames := core_frames d1 |}).
        assert (Hturn : uart_iteration c io d1 = Ok (true, d2)).
        { unfold uart_iteration. rewrite Hstate1, Hpass. reflexivity. }
        destruct (uart_iteration_step c header_size io d1 d2 true Hinv1 Hturn)
          as (Hinv2 & _).
        assert (Hheld2 : buffered d2
                         = sub_array pre' k (Z.of_nat (length pre') - k)).
        { unfold buffered, d2. cbn [buffer buffer_head]. rewrite Hblock.
          fold (buffered d1) in Hheld1'.
          replace (sub_array (buffer d1) (k - o) (buffer_head d1 - (k - o)))
            with (sub_array (buffered d1) (k - o)
                    (buffer_head d1 - (k - o)))
            by (apply sub_array_buffered; lia).
          rewrite Hheld1', sub_array_sub_array by lia.
          f_equal; lia. }
        assert (Hhdr2 : header_at c (buffer d2) 0 = header_at c s k).
        { rewrite (header_at_buffered c header_size d2 0)
            by (unfold d2; cbn [buffer_head]; lia).
          unfold header_at. rewrite Hheld2, sub_array_sub_array by lia.
          rewrite Hs, Z.add_0_r. symmetry. apply sub_array_app_prefix; lia. }
        destruct (uart_loop_again c io fuel d1 d2 d' Hturn Hloop)
          as [fuel' Hloop'].
        assert (Hturn2 : uart_iteration c io d2 = Ok (false, d2)).
        { apply (payload_waits c header_size io d2 Hinv2 eq_refl).
          rewrite Hhdr2. unfold d2. cbn [buffer_head]. lia. }
        rewrite (uart_loop_exit c io fuel' d2 d2 d' Hturn2 Hloop').
        split; [exact Hinv2 |]. split; [| exact Hcore1].
        exists k. split; [lia |]. split; [lia |].
        split; [unfold d2; cbn [buffer_head]; lia |].
        split; [exact Hheld2 |].
        right. split; [reflexivity |]. split; [reflexivity |].
        unfold d2; cbn [buffer_head]; lia.
      * (* the header at [k] is not entirely there yet *)
        assert (Hpass :
          header_re_synch c (buffer d1) (buffer_head d1)
          = (false,
             memmove (buffer d1) 0
               (buffer_head d1 - SLI_CPC_HDLC_HEADER_RAW_SIZE c + 1)
               (SLI_CPC_HDLC_HEADER_RAW_SIZE c - 1),
             SLI_CPC_HDLC_HEADER_RAW_SIZE c - 1)).
        { destruct (ingress_inv_bounds c header_size d1 Hinv1) as [Hb1 Hb2].
          apply (header_re_synch_none c header_size); [lia |].
          intros j Hj. rewrite Hwindow by lia. apply Hbad. lia. }
        set (d2 := {| buffer :=
                        memmove (buffer d1) 0
                          (buffer_head d1
                           - SLI_CPC_HDLC_HEADER_RAW_SIZE c + 1)
                          (SLI_CPC_HDLC_HEADER_RAW_SIZE c - 1);
                      buffer_head := SLI_CPC_HDLC_HEADER_RAW_SIZE c - 1;
                      state := EXPECTING_HEADER;
                      core_frames := core_frames d1 |}).
        assert (Hturn : uart_iteration c io d1 = Ok (false, d2)).
        { unfold uart_iteration. rewrite Hstate1, Hpass. reflexivity. }
        destruct (uart_iteration_step c header_size io d1 d2 false Hinv1
                    Hturn) as (Hinv2 & _).
        rewrite (uart_loop_exit c io fuel d1 d2 d' Hturn Hloop).
        split; [exact Hinv2 |]. split; [| exact Hcore1].
        destruct (ingress_inv_bounds c header_size d1 Hinv1) as [Hb1 Hb2].
        exists (Z.of_nat (length pre')
                - SLI_CPC_HDLC_HEADER_RAW_SIZE c + 1).
        split; [lia |]. split; [lia |].
        split; [unfold d2; cbn [buffer_head]; lia |].
        split; [| left; split;
                    [reflexivity | unfold d2; cbn [buffer_head]; lia]].
        unfold buffered, d2. cbn [buffer buffer_head].
        rewrite memmove_front_block by lia.
        fold (buffered d1) in Hheld1'.
        replace (sub_array (buffer d1)
                   (buffer_head d1 - SLI_CPC_HDLC_HEADER_RAW_SIZE c + 1)
                   (SLI_CPC_HDLC_HEADER_RAW_SIZE c - 1))
          with (sub_array (buffered d1)
                  (buffer_head d1 - SLI_CPC_HDLC_HEADER_RAW_SIZE c + 1)
                  (SLI_CPC_HDLC_HEADER_RAW_SIZE c - 1))
          by (apply sub_array_buffered; lia).
        rewrite Hheld1', sub_array_sub_array by lia.
        f_equal; lia.
  - (* synchronised, the payload is awaited *)
    rewrite Hstate in Hstate1.
    assert (Hhdr1 : header_at c (buffer d1) 0 = header_at c s k).
    { rewrite Hwindow by lia. f_equal. lia. }
    assert (Hturn : uart_iteration c io d1 = Ok (false, d1)).
    { apply (payload_waits c header_size io d1 Hinv1 Hstate1).
      rewrite Hhdr1. lia. }
    rewrite (uart_loop_exit c io fuel d1 d1 d' Hturn Hloop).
    split; [exact Hinv1 |]. split; [| exact Hcore1].
    exists k. repeat split; try lia; try assumption.
    right. repeat split; [assumption | lia].
Qed.

End Synchronising.

Section Runs.

Variable c : hdlc.
Hypothesis header_size : 0 < SLI_CPC_HDLC_HEADER_RAW_SIZE c < 2 ^ 32.

(** Any number of invocations returns. *)
Lemma uart_calls_returns :
  forall (ios : list uart_syscalls) (d : uart_ingress),
    ingress_inv c d -> exists r, uart_calls c ios d = Some r.
Proof.
  induction ios as [| io ios IH]; intros d Hinv; simpl.
  - eexists. reflexivity.
  - destruct (driver_uart_process_uart_returns c header_size io d Hinv)
      as [[d1 |] Hcall]; rewrite Hcall; [| eexists; reflexivity].
    destruct (IH d1) as [[[d2 later] |] Hrest].
    + apply (driver_uart_process_uart_inv c header_size io d d1 Hinv Hcall).
    + rewrite Hrest. eexists. reflexivity.
    + rewrite Hrest. eexists. reflexivity.
Qed.

(** Any number of invocations on a stream whose first valid header is at
    [k] and whose frame stays incomplete. *)
Lemma seeking_run (k : Z) :
  forall (ios : list uart_syscalls) (d d' : uart_ingress)
         (pre later s : list byte),
    ingress_inv c d -> seeking c k pre d ->
    uart_calls c ios d = Some (Ok (d', later)) ->
    s = pre ++ later ->
    first_header_at c s k -> frame_incomplete c s k ->
    ingress_inv c d' /\ seeking c k s d'
    /\ core_frames d' = core_frames d.
Proof.
  induction ios as [| io ios IH];
    intros d d' pre later s Hinv Hseek Hrun Hs Hfirst Hpartial;
    simpl in Hrun.
  - inversion Hrun; subst d' later. rewrite app_nil_r in Hs. subst s.
    split; [exact Hinv | split; [exact Hseek | reflexivity]].
  - destruct (driver_uart_process_uart c io d) as [[d1 |] |] eqn:Hcall;
      try discriminate.
    destruct (uart_calls c ios d1) as [[[d2 later'] |] |] eqn:Hrest;
      try discriminate.
    inversion Hrun; subst d2 later. clear Hrun.
    rewrite app_assoc in Hs.
    destruct (seeking_step c header_size io d d1 k pre later' s
                Hinv Hseek Hs Hfirst Hpartial Hcall)
      as (Hinv1 & Hseek1 & Hcore1).
    destruct (IH d1 d' _ later' s Hinv1 Hseek1 Hrest Hs Hfirst Hpartial)
      as (Hinv' & Hseek' & Hcore').
    split; [exact Hinv' | split; [exact Hseek' | congruence]].
Qed.

(** One invocation while the header held announces more than 4096 bytes of
    payload. *)
Lemma oversize_call (io : uart_syscalls) (d d' : uart_ingress) :
  ingress_inv c d -> state d = EXPECTING_PAYLOAD ->
  SLI_CPC_HDLC_HEADER_RAW_SIZE c <= buffer_head d ->
  4096 < uint16_t (hdlc_get_length c (header_at c (buffer d) 0)) ->
  driver_uart_process_uart c io d = Some (Ok d') ->
  ingress_inv c d' /\ state d' = EXPECTING_PAYLOAD
  /\ buffer_head d <= buffer_head d'
  /\ core_frames d' = core_frames d
  /\ buffered d' = buffered d ++ bytes_read c io d
  /\ header_at c (buffer d') 0 = header_at c (buffer d) 0.
Proof.
  intros Hinv Hstate Henough Hbig Hrun.
  destruct (driver_uart_process_uart_steps c header_size io d d' Hinv Hrun)
    as (buf1 & fuel & Hinv1 & Hheld1 & Hloop).
  set (d1 := {| buffer := buf1;
                buffer_head :=
                  buffer_head d + Z.of_nat (length (bytes_read c io d));
                state := state d; core_frames := core_frames d |}) in *.
  assert (Hhead1 : buffer_head d <= buffer_head d1)
    by (unfold d1; cbn [buffer_head]; lia).
  assert (Hhdr : header_at c (buffer d1) 0 = header_at c (buffer d) 0).
  { rewrite (header_at_buffered c header_size d1 0) by lia.
    rewrite (header_at_buffered c header_size d 0) by lia.
    unfold header_at. rewrite Hheld1.
    apply sub_array_app_prefix; [lia | lia |].
    rewrite (length_buffered c d Hinv). lia. }
  assert (Hturn : uart_iteration c io d1 = Ok (false, d1)).
  { apply (payload_waits c header_size io d1 Hinv1 Hstate).
    rewrite Hhdr. destruct Hinv1 as [_ Hcap].
    unfold UART_BUFFER_SIZE in Hcap. lia. }
  rewrite (uart_loop_exit c io fuel d1 d1 d' Hturn Hloop).
  split; [exact Hinv1 |]. split; [exact Hstate |]. split; [exact Hhead1 |].
  split; [reflexivity |]. split; [exact Hheld1 | exact Hhdr].
Qed.

Lemma oversize_run :
  forall (ios : list uart_syscalls) (d d' : uart_ingress) (s : list byte),
    ingress_inv c d -> state d = EXPECTING_PAYLOAD ->
    SLI_CPC_HDLC_HEADER_RAW_SIZE c <= buffer_head d ->
    4096 < uint16_t (hdlc_get_length c (header_at c (buffer d) 0)) ->
    uart_calls c ios d = Some (Ok (d', s)) ->
    state d' = EXPECTING_PAYLOAD
    /\ core_frames d' = core_frames d
    /\ buffered d' = buffered d ++ s
    /\ header_at c (buffer d') 0 = header_at c (buffer d) 0.
Proof.
  induction ios as [| io ios IH]; intros d d' s Hinv Hstate Henough Hbig Hrun;
    simpl in Hrun.
  - inversion Hrun; subst d' s. rewrite app_nil_r.
    split; [exact Hstate |]. repeat split.
  - destruct (driver_uart_process_uart c io d) as [[d1 |] |] eqn:Hcall;
      try discriminate.
    destruct (uart_calls c ios d1) as [[[d2 later] |] |] eqn:Hrest;
      try discriminate.
    inversion Hrun; subst d2 s. clear Hrun.
    destruct (oversize_call io d d1 Hinv Hstate Henough Hbig Hcall)
      as (Hinv1 & Hstate1 & Hhead1 & Hcore1 & Hheld1 & Hhdr1).
    destruct (IH d1 d' later Hinv1 Hstate1) as (Hs' & Hc' & Hb' & Hh');
      [lia | rewrite Hhdr1; exact Hbig | exact Hrest |].
    split; [exact Hs' |]. split; [congruence |].
    split; [rewrite Hb', Hheld1, app_assoc; reflexivity | congruence].
Qed.

End Runs.

(** ** The claims about synchronisation *)

(** C1.  Let the first header-sized window that validates be at offset [k],
    after [k] bytes none of which starts a valid header.  A resynchronisation
    pass over such a buffer returns "synchronised", lowers the cursor by [k]
    and leaves the bytes from offset [k] on, the valid header first, at
    offset 0; the turn of the processing loop goes to [EXPECTING_PAYLOAD].
    And however such a stream is cut into reads, from a fresh start and as
    long as the frame announced by the header is incomplete, once the reads
    have delivered the stream the synchronizer is in [EXPECTING_PAYLOAD] and
    holds exactly the stream without its first [k] bytes, the valid header
    at offset 0, nothing having been written to the core.  Every sequence of
    invocations returns. *)
Theorem resynchronisation_at_first_header (c : hdlc) (k : Z) :
  0 < SLI_CPC_HDLC_HEADER_RAW_SIZE c < 2 ^ 32 ->
  (forall (io : uart_syscalls) (d : uart_ingress),
      ingress_inv c d -> state d = EXPECTING_HEADER ->
      k + SLI_CPC_HDLC_HEADER_RAW_SIZE c <= buffer_head d ->
      first_header_at c (buffer d) k ->
      exists buffer',
        header_re_synch c (buffer d) (buffer_head d)
        = (true, buffer', buffer_head d - k)
        /\ sub_array buffer' 0 (buffer_head d - k)
           = sub_array (buffer d) k (buffer_head d - k)
        /\ validate_header c (header_at c buffer' 0) = true
        /\ uart_iteration c io d
           = Ok (true,
                 {| buffer := buffer';
                    buffer_head := buffer_head d - k;
                    state := EXPECTING_PAYLOAD;
                    core_frames := core_frames d |}))
  /\ (forall (ios : list uart_syscalls) (d d' : uart_ingress)
             (s : list byte),
         ingress_inv c d -> state d = EXPECTING_HEADER ->
         buffer_head d = 0 ->
         uart_calls c ios d = Some (Ok (d', s)) ->
         first_header_at c s k -> frame_incomplete c s k ->
         state d' = EXPECTING_PAYLOAD
         /\ buffer_head d' = Z.of_nat (length s) - k
         /\ buffered d' = skipn (Z.to_nat k) s
         /\ validate_header c (header_at c (buffer d') 0) = true
         /\ core_frames d' = core_frames d)
  /\ (forall (ios : list uart_syscalls) (d : uart_ingress),
         ingress_inv c d -> exists r, uart_calls c ios d = Some r).
Proof.
  intros Hraw. split; [| split].
  - intros io d Hinv Hstate Hfit (Hk & _ & Hbad & Hgood).
    destruct (ingress_inv_bounds c Hraw d Hinv) as [Hhead Hlen].
    destruct (header_re_synch_found_block c Hraw (buffer d) (buffer_head d) k)
      as (buf' & Hpass & Hlen' & Hblock); try assumption; try lia.
    exists buf'. split; [exact Hpass |]. split; [exact Hblock |].
    split.
    + unfold header_at.
      replace (sub_array buf' 0 (SLI_CPC_HDLC_HEADER_RAW_SIZE c))
        with (sub_array (sub_array buf' 0 (buffer_head d - k)) 0
                (SLI_CPC_HDLC_HEADER_RAW_SIZE c))
        by (apply (sub_array_sub_array buf' 0 (buffer_head d - k) 0); lia).
      rewrite Hblock, sub_array_sub_array by lia.
      rewrite Z.add_0_r. exact Hgood.
    + unfold uart_iteration. rewrite Hstate, Hpass. reflexivity.
  - intros ios d d' s Hinv Hstate Hempty Hrun Hfirst Hpartial.
    assert (Hseek : seeking c k [] d).
    { exists 0. destruct Hfirst as (Hk & _).
      split; [lia |]. split; [simpl; lia |]. split; [simpl; lia |].
      split; [unfold buffered; rewrite Hempty; reflexivity |].
      left. split; [exact Hstate | lia]. }
    destruct (seeking_run c Hraw k ios d d' [] s s Hinv Hseek Hrun eq_refl
                Hfirst Hpartial)
      as (Hinv' & (o & Ho & Hos & Hhead' & Hheld' & Hphase) & Hcore).
    destruct Hfirst as (Hk & Hkfit & Hbad & Hgood).
    destruct Hphase as [(_ & Hshort) | (Hstate' & -> & Henough)]; [lia |].
    split; [exact Hstate' |]. split; [exact Hhead' |].
    split; [rewrite Hheld'; apply sub_array_to_end; exact Hk |].
    split; [| exact Hcore].
    rewrite (header_at_buffered c Hraw d' 0) by lia.
    unfold header_at. rewrite Hheld', sub_array_sub_array by lia.
    rewrite Z.add_0_r. exact Hgood.
  - apply uart_calls_returns. exact Hraw.
Qed.

Lemma resynchronisation_at_first_header_witness :
  exists d',
    uart_calls sample_hdlc noisy_reads initial_ingress
    = Some (Ok (d', noisy_stream))
    /\ state d' = EXPECTING_PAYLOAD
    /\ buffer_head d' = 5
    /\ buffered d' = [x14; x02; x00; x16; xaa]
    /\ validate_header sample_hdlc (header_at sample_hdlc (buffer d') 0)
       = true
    /\ core_frames d' = [].
Proof.
  assert (Hrun : exists d',
             uart_calls sample_hdlc noisy_reads initial_ingress
             = Some (Ok (d', noisy_stream)))
    by (vm_compute; eexists; reflexivity).
  destruct Hrun as [d' Hrun]. exists d'. split; [exact Hrun |].
  destruct (resynchronisation_at_first_header sample_hdlc 3) as (_ & Hany & _).
  - simpl. lia.
  - apply (Hany noisy_reads initial_ingress d' noisy_stream).
    + sample_inv.
    + reflexivity.
    + reflexivity.
    + exact Hrun.
    + split; [lia |]. split; [simpl; lia |]. split; [| reflexivity].
      intros j Hj.
      assert (Hcases : j = 0 \/ j = 1 \/ j = 2) by lia.
      destruct Hcases as [-> | [-> | ->]]; reflexivity.
    + unfold frame_incomplete. vm_compute. reflexivity.
Defined.

(** C6.  When the header at offset 0 announces a payload of more than 4096
    bytes, so that the frame is larger than the array, payload delimiting
    returns "no progress" and changes nothing for every cursor within the
    array; and from [EXPECTING_PAYLOAD] with such a header held, whatever is
    read in however many invocations, the state stays [EXPECTING_PAYLOAD],
    the header stays where it is and nothing is written to the core. *)
Theorem oversize_frame_never_emitted (c : hdlc) :
  0 < SLI_CPC_HDLC_HEADER_RAW_SIZE c < 2 ^ 32 ->
  (forall (io : uart_syscalls) (buf : list byte) (head : Z)
          (core : list (list byte)),
      0 <= head <= UART_BUFFER_SIZE c ->
      4096 < uint16_t (hdlc_get_length c (header_at c buf 0)) ->
      delimit_and_push_frames_to_core c io buf head core
      = Ok (false, buf, head, core))
  /\ (forall (ios : list uart_syscalls) (d d' : uart_ingress)
             (s : list byte),
         ingress_inv c d -> state d = EXPECTING_PAYLOAD ->
         SLI_CPC_HDLC_HEADER_RAW_SIZE c <= buffer_head d ->
         4096 < uint16_t (hdlc_get_length c (header_at c (buffer d) 0)) ->
         uart_calls c ios d = Some (Ok (d', s)) ->
         state d' = EXPECTING_PAYLOAD
         /\ core_frames d' = core_frames d
         /\ buffered d' = buffered d ++ s
         /\ header_at c (buffer d') 0 = header_at c (buffer d) 0)
  /\ (forall (ios : list uart_syscalls) (d : uart_ingress),
         ingress_inv c d -> exists r, uart_calls c ios d = Some r).
Proof.
  intros Hraw. split; [| split].
  - intros io buf head core Hhead Hbig. unfold UART_BUFFER_SIZE in Hhead.
    destruct (delimit_cases c Hraw io buf head core)
      as [(_ & Hres) | [(Hfit & _) | (Hfit & _)]]; [lia | | lia | lia].
    exact Hres.
  - apply oversize_run. exact Hraw.
  - apply uart_calls_returns. exact Hraw.
Qed.

Lemma oversize_frame_never_emitted_witness :
  exists d',
    uart_calls sample_hdlc oversize_reads oversize_ingress
    = Some (Ok (d', [xbb; xcc; xdd]))
    /\ state d' = EXPECTING_PAYLOAD
    /\ core_frames d' = []
    /\ buffered d' = [x14; x01; x10; x25; xaa; xbb; xcc; xdd]
    /\ header_at sample_hdlc (buffer d') 0 = [x14; x01; x10; x25].
Proof.
  assert (Hrun : exists d',
             uart_calls sample_hdlc oversize_reads oversize_ingress
             = Some (Ok (d', [xbb; xcc; xdd])))
    by (vm_compute; eexists; reflexivity).
  destruct Hrun as [d' Hrun]. exists d'. split; [exact Hrun |].
  destruct (oversize_frame_never_emitted sample_hdlc) as (_ & Hany & _).
  - simpl. lia.
  - apply (Hany oversize_reads oversize_ingress d' [xbb; xcc; xdd]).
    + sample_inv.
    + reflexivity.
    + simpl. lia.
    + vm_compute. reflexivity.
    + exact Hrun.
Defined.

(** * Further properties of the ingress path *)

(** ** What a resynchronisation pass establishes *)

Section Pass.

Variable c : hdlc.
Hypothesis header_size : 0 < SLI_CPC_HDLC_HEADER_RAW_SIZE c < 2 ^ 32.

(** Among the windows from [i] on, [n] of them, either none validates or
    there is a first one that does. *)
Lemma first_valid_window (buf : list byte) :
  forall (n : nat) (i : Z),
    (forall j, i <= j < i + Z.of_nat n ->
               validate_header c (header_at c buf j) = false)
    \/ exists k, i <= k < i + Z.of_nat n
         /\ validate_header c (header_at c buf k) = true
         /\ forall j, i <= j < k ->
                      validate_header c (header_at c buf j) = false.
Proof.
  induction n as [| n IH]; intros i.
  - left. intros j Hj. lia.
  - destruct (validate_header c (header_at c buf i)) eqn:Hi.
    + right. exists i. split; [lia |]. split; [exact Hi |].
      intros j Hj. lia.
    + destruct (IH (i + 1)) as [Hnone | (k & Hk & Hgood & Hfirst)].
      * left. intros j Hj.
        destruct (Z.eq_dec j i) as [-> | Hne]; [exact Hi |].
        apply Hnone. lia.
      * right. exists k. split; [lia |]. split; [exact Hgood |].
        intros j Hj.
        destruct (Z.eq_dec j i) as [-> | Hne]; [exact Hi |].
        apply Hfirst. lia.
Qed.

(** The header found is at offset 0 of the array the pass leaves. *)
Lemma moved_header_validates (buf buf' : list byte) (head k : Z) :
  0 <= k -> k + SLI_CPC_HDLC_HEADER_RAW_SIZE c <= head ->
  sub_array buf' 0 (head - k) = sub_array buf k (head - k) ->
  header_at c buf' 0 = header_at c buf k.
Proof.
  intros Hk Hfit Hblock. unfold header_at.
  replace (sub_array buf' 0 (SLI_CPC_HDLC_HEADER_RAW_SIZE c))
    with (sub_array (sub_array buf' 0 (head - k)) 0
            (SLI_CPC_HDLC_HEADER_RAW_SIZE c))
    by (apply (sub_array_sub_array buf' 0 (head - k) 0); lia).
  rewrite Hblock, sub_array_sub_array by lia.
  rewrite Z.add_0_r. reflexivity.
Qed.

(** The three ways a pass can end, with what decides between them. *)
Lemma header_re_synch_outcome (buf : list byte) (head : Z) :
  0 <= head <= Z.of_nat (length buf) -> Z.of_nat (length buf) < 2 ^ 64 ->
  (head < SLI_CPC_HDLC_HEADER_RAW_SIZE c
   /\ header_re_synch c buf head = (false, buf, head))
  \/ (SLI_CPC_HDLC_HEADER_RAW_SIZE c <= head
      /\ (forall j, 0 <= j <= head - SLI_CPC_HDLC_HEADER_RAW_SIZE c ->
                    validate_header c (header_at c buf j) = false)
      /\ exists buf',
          header_re_synch c buf head
          = (false, buf', SLI_CPC_HDLC_HEADER_RAW_SIZE c - 1)
          /\ length buf' = length buf
          /\ sub_array buf' 0 (SLI_CPC_HDLC_HEADER_RAW_SIZE c - 1)
             = sub_array buf (head - SLI_CPC_HDLC_HEADER_RAW_SIZE c + 1)
                 (SLI_CPC_HDLC_HEADER_RAW_SIZE c - 1))
  \/ (exists k buf',
         0 <= k /\ k + SLI_CPC_HDLC_HEADER_RAW_SIZE c <= head
         /\ (forall j, 0 <= j < k ->
                       validate_header c (header_at c buf j) = false)
         /\ validate_header c (header_at c buf k) = true
         /\ header_re_synch c buf head = (true, buf', head - k)
         /\ length buf' = length buf
         /\ sub_array buf' 0 (head - k) = sub_array buf k (head - k)
         /\ header_at c buf' 0 = header_at c buf k
         /\ (k = 0 -> buf' = buf)).
Proof.
  intros Hhead Hlen.
  destruct (Z.lt_ge_cases head (SLI_CPC_HDLC_HEADER_RAW_SIZE c))
    as [Hshort | Henough].
  - left. split; [exact Hshort |].
    apply header_re_synch_short. exact Hshort.
  - right.
    destruct (first_valid_window buf
                (Z.to_nat (head - SLI_CPC_HDLC_HEADER_RAW_SIZE c + 1)) 0)
      as [Hnone | (k & Hk & Hgood & Hfirst)].
    + left. split; [exact Henough |].
      assert (Hbad : forall j,
                 0 <= j <= head - SLI_CPC_HDLC_HEADER_RAW_SIZE c ->
                 validate_header c (header_at c buf j) = false)
        by (intros j Hj; apply Hnone; lia).
      split; [exact Hbad |].
      rewrite (header_re_synch_none c header_size buf head);
        [| lia | exact Hbad].
      eexists. split; [reflexivity |].
      split; [apply length_memmove_front; lia |].
      apply memmove_front_block; lia.
    + right. exists k.
      destruct (header_re_synch_found_block c header_size buf head k)
        as (buf' & Hpass & Hlen' & Hblock); try assumption; try lia.
      exists buf'. split; [lia |]. split; [lia |].
      split; [exact Hfirst |]. split; [exact Hgood |].
      split; [exact Hpass |]. split; [exact Hlen' |].
      split; [exact Hblock |].
      split; [apply (moved_header_validates buf buf' head k);
              (lia || exact Hblock) |].
      intros ->.
      rewrite (header_re_synch_found c header_size buf head 0) in Hpass;
        [| lia | lia | lia | exact Hfirst | exact Hgood].
      simpl in Hpass. inversion Hpass. reflexivity.
Qed.

End Pass.

Section PassProperties.

Variable c : hdlc.
Hypothesis header_size : 0 < SLI_CPC_HDLC_HEADER_RAW_SIZE c < 2 ^ 32.

(** X1.  [header_re_synch] returns true exactly when some header-sized
    window lying within the bytes held validates; it then leaves a header
    that validates at offset 0 and at least a header's worth of bytes.
    When it returns false it leaves fewer bytes than a header: all of them
    if there were fewer, the last header-size-minus-one otherwise. *)
Theorem header_re_synch_sound_and_complete (buf buf' : list byte)
    (head head' : Z) (synched : bool) :
  0 <= head <= Z.of_nat (length buf) -> Z.of_nat (length buf) < 2 ^ 64 ->
  header_re_synch c buf head = (synched, buf', head') ->
  (synched = true
   <-> exists j, 0 <= j /\ j + SLI_CPC_HDLC_HEADER_RAW_SIZE c <= head
         /\ validate_header c (header_at c buf j) = true)
  /\ (synched = true ->
      SLI_CPC_HDLC_HEADER_RAW_SIZE c <= head'
      /\ validate_header c (header_at c buf' 0) = true)
  /\ (synched = false ->
      head' = Z.min head (SLI_CPC_HDLC_HEADER_RAW_SIZE c - 1)).
Proof.
  intros Hhead Hlen Hpass.
  destruct (header_re_synch_outcome c header_size buf head Hhead Hlen)
    as [(Hshort & Hres) | [(Henough & Hbad & b1 & Hres & _)
       | (k & b1 & Hk & Hfit & Hfirst & Hgood & Hres & _ & _ & Hhdr & _)]];
    rewrite Hres in Hpass; inversion Hpass; subst; clear Hpass.
  - split; [| split]; [| discriminate | intros _; lia].
    split; [discriminate |]. intros (j & Hj & Hjfit & _). lia.
  - split; [| split]; [| discriminate | intros _; lia].
    split; [discriminate |]. intros (j & Hj & Hjfit & Hvalid).
    rewrite Hbad in Hvalid by lia. discriminate.
  - split; [| split]; [| | discriminate].
    + split; [| reflexivity]. intros _. exists k. repeat split; assumption.
    + intros _. split; [lia |]. rewrite Hhdr. exact Hgood.
Qed.

(** X2.  A second pass right after a pass changes nothing and returns the
    same answer. *)
Theorem header_re_synch_idempotent (buf buf' : list byte) (head head' : Z)
    (synched : bool) :
  0 <= head <= Z.of_nat (length buf) -> Z.of_nat (length buf) < 2 ^ 64 ->
  header_re_synch c buf head = (synched, buf', head') ->
  header_re_synch c buf' head' = (synched, buf', head').
Proof.
  intros Hhead Hlen Hpass.
  destruct (header_re_synch_outcome c header_size buf head Hhead Hlen)
    as [(Hshort & Hres) | [(Henough & Hbad & b1 & Hres & _)
       | (k & b1 & Hk & Hfit & Hfirst & Hgood & Hres & Hlen' & _ & Hhdr & _)]];
    rewrite Hres in Hpass; inversion Hpass; subst; clear Hpass.
  - exact Hres.
  - apply header_re_synch_short. lia.
  - rewrite (header_re_synch_found c header_size buf' (head - k) 0);
      [reflexivity | lia | lia | lia | intros j Hj; lia |].
    rewrite Hhdr. exact Hgood.
Qed.

End PassProperties.

Lemma header_re_synch_sound_and_complete_witness :
  exists buf',
    header_re_synch sample_hdlc (buffer noisy_ingress) 8 = (true, buf', 5)
    /\ 4 <= 5
    /\ validate_header sample_hdlc (header_at sample_hdlc buf' 0) = true.
Proof.
  assert (Hpass : exists buf',
             header_re_synch sample_hdlc (buffer noisy_ingress) 8
             = (true, buf', 5))
    by (vm_compute; eexists; reflexivity).
  destruct Hpass as [buf' Hpass]. exists buf'. split; [exact Hpass |].
  destruct (header_re_synch_sound_and_complete sample_hdlc
              ltac:(simpl; lia) (buffer noisy_ingress) buf' 8 5 true)
    as (_ & Hsound & _).
  - vm_compute. split; discriminate.
  - vm_compute. reflexivity.
  - exact Hpass.
  - exact (Hsound eq_refl).
Defined.

Lemma header_re_synch_idempotent_witness :
  exists buf',
    header_re_synch sample_hdlc (buffer noisy_ingress) 8 = (true, buf', 5)
    /\ header_re_synch sample_hdlc buf' 5 = (true, buf', 5).
Proof.
  assert (Hpass : exists buf',
             header_re_synch sample_hdlc (buffer noisy_ingress) 8
             = (true, buf', 5))
    by (vm_compute; eexists; reflexivity).
  destruct Hpass as [buf' Hpass]. exists buf'. split; [exact Hpass |].
  apply (header_re_synch_idempotent sample_hdlc ltac:(simpl; lia)
           (buffer noisy_ingress) buf' 8 5 true).
  - vm_compute. split; discriminate.
  - vm_compute. reflexivity.
  - exact Hpass.
Defined.

(** ** What an invocation establishes *)

Section Invocation.

Variable c : hdlc.
Hypothesis header_size : 0 < SLI_CPC_HDLC_HEADER_RAW_SIZE c < 2 ^ 32.

(** A turn that leaves the loop leaves the synchronizer starved. *)
Lemma exit_turn_starved (io : uart_syscalls) (d d' : uart_ingress) :
  ingress_inv c d ->
  uart_iteration c io d = Ok (false, d') -> starved c d'.
Proof.
  intros Hinv Hturn.
  destruct (ingress_inv_bounds c header_size d Hinv) as [Hhead Hlen].
  unfold uart_iteration in Hturn. unfold starved.
  destruct (state d) eqn:Hstate.
  - destruct (header_re_synch_outcome c header_size (buffer d)
                (buffer_head d) Hhead Hlen)
      as [(Hshort & Hres) | [(Henough & _ & b1 & Hres & _)
         | (k & b1 & _ & _ & _ & _ & Hres & _)]];
      rewrite Hres in Hturn; inversion Hturn; subst d';
      cbn [state buffer_head]; lia.
  - destruct (delimit_cases c header_size io (buffer d) (buffer_head d)
                (core_frames d)) as [(Hwait & Hres) | [(_ & Hres)
      | (_ & Hres)]]; [lia | | |];
      rewrite Hres in Hturn; inversion Hturn; subst d';
      cbn [state buffer buffer_head]; exact Hwait.
Qed.

Lemma uart_loop_starved (io : uart_syscalls) :
  forall (fuel : nat) (d d' : uart_ingress),
    ingress_inv c d -> uart_loop c fuel io d = Some (Ok d') ->
    starved c d'.
Proof.
  induction fuel as [| fuel IH]; intros d d' Hinv Hrun; simpl in Hrun.
  - discriminate.
  - destruct (uart_iteration c io d) as [[again d1] |] eqn:Hturn;
      [| discriminate].
    destruct again.
    + destruct (uart_iteration_step c header_size io d d1 true Hinv Hturn)
        as (Hinv1 & _).
      apply (IH d1 d' Hinv1 Hrun).
    + inversion Hrun; subst d1.
      apply (exit_turn_starved io d d' Hinv Hturn).
Qed.

(** X3.  When [driver_uart_process_uart] returns, nothing more could have
    been done with the bytes it holds: in [EXPECTING_HEADER] it holds fewer
    bytes than a header, so that noise never accumulates; in
    [EXPECTING_PAYLOAD] it holds fewer bytes than the frame announced at
    offset 0. *)
Theorem invocation_ends_starved (io : uart_syscalls) (d d' : uart_ingress) :
  ingress_inv c d ->
  driver_uart_process_uart c io d = Some (Ok d') ->
  starved c d'
  /\ (state d' = EXPECTING_HEADER ->
      buffer_head d' <= SLI_CPC_HDLC_HEADER_RAW_SIZE c - 1).
Proof.
  intros Hinv Hrun.
  destruct (driver_uart_process_uart_steps c header_size io d d' Hinv Hrun)
    as (buf1 & fuel & Hinv1 & _ & Hloop).
  pose proof (uart_loop_starved io fuel _ d' Hinv1 Hloop) as Hstarved.
  split; [exact Hstarved |].
  intros Hstate. unfold starved in Hstarved. rewrite Hstate in Hstarved. lia.
Qed.

(** A turn keeps the synchronised state, and what it writes to the core is
    a whole frame. *)
Lemma uart_iteration_frames (io : uart_syscalls) (d d' : uart_ingress)
    (again : bool) :
  sync_inv c d ->
  uart_iteration c io d = Ok (again, d') ->
  sync_inv c d'
  /\ exists new, core_frames d' = core_frames d ++ new
                 /\ Forall (well_framed c) new.
Proof.
  intros [Hinv Hsync] Hturn.
  destruct (uart_iteration_step c header_size io d d' again Hinv Hturn)
    as (Hinv' & _).
  destruct (ingress_inv_bounds c header_size d Hinv) as [Hhead Hlen].
  unfold uart_iteration in Hturn. unfold sync_inv.
  destruct (state d) eqn:Hstate.
  - destruct (header_re_synch_outcome c header_size (buffer d)
                (buffer_head d) Hhead Hlen)
      as [(Hshort & Hres) | [(Henough & _ & b1 & Hres & _)
         | (k & b1 & Hk & Hfit & _ & Hgood & Hres & _ & _ & Hhdr & _)]];
      rewrite Hres in Hturn; inversion Hturn; subst again d';
      (split; [split; [exact Hinv' |] | exists []; rewrite app_nil_r;
                                        split; [reflexivity | constructor]]);
      cbn [state buffer buffer_head]; try discriminate.
    intros _. split; [lia |]. rewrite Hhdr. exact Hgood.
  - destruct (Hsync eq_refl) as [Henough Hvalid].
    pose proof (uint16_t_range
                  (hdlc_get_length c (header_at c (buffer d) 0))) as Hpl.
    destruct (delimit_cases c header_size io (buffer d) (buffer_head d)
                (core_frames d)) as [(_ & Hres) | [(_ & Hres)
      | (Hwhole & Hres)]]; [lia | | |];
      rewrite Hres in Hturn; inversion Hturn; subst again d'.
    + split; [split; [exact Hinv' |] |].
      * cbn [state buffer buffer_head]. intros _. split; assumption.
      * exists []. rewrite app_nil_r. split; [reflexivity | constructor].
    + split; [split; [exact Hinv' |] |].
      * cbn [state]. discriminate.
      * eexists. split; [reflexivity |].
        constructor; [| constructor].
        assert (Hhdr : header_at c
                         (sub_array (buffer d) 0
                            (uint16_t (hdlc_get_length c
                                         (header_at c (buffer d) 0))
                             + SLI_CPC_HDLC_HEADER_RAW_SIZE c)) 0
                       = header_at c (buffer d) 0).
        { unfold header_at at 1. rewrite sub_array_sub_array by lia.
          reflexivity. }
        unfold well_framed. rewrite Hhdr. split; [exact Hvalid |].
        rewrite length_sub_array by lia. lia.
Qed.

Lemma uart_loop_frames (io : uart_syscalls) :
  forall (fuel : nat) (d d' : uart_ingress),
    sync_inv c d -> uart_loop c fuel io d = Some (Ok d') ->
    sync_inv c d'
    /\ exists new, core_frames d' = core_frames d ++ new
                   /\ Forall (well_framed c) new.
Proof.
  induction fuel as [| fuel IH]; intros d d' Hsync Hrun; simpl in Hrun.
  - discriminate.
  - destruct (uart_iteration c io d) as [[again d1] |] eqn:Hturn;
      [| discriminate].
    destruct (uart_iteration_frames io d d1 again Hsync Hturn)
      as (Hsync1 & new1 & Hcore1 & Hwf1).
    destruct again.
    + destruct (IH d1 d' Hsync1 Hrun) as (Hsync' & new2 & Hcore2 & Hwf2).
      split; [exact Hsync' |]. exists (new1 ++ new2).
      split; [rewrite Hcore2, Hcore1, app_assoc; reflexivity |].
      apply Forall_app. split; assumption.
    + inversion Hrun; subst d1. split; [exact Hsync1 |].
      exists new1. split; assumption.
Qed.

(** Appending leaves a header held at offset 0 where it is. *)
Lemma append_keeps_header (d d1 : uart_ingress) (data : list byte) :
  ingress_inv c d -> ingress_inv c d1 ->
  SLI_CPC_HDLC_HEADER_RAW_SIZE c <= buffer_head d ->
  buffer_head d <= buffer_head d1 ->
  buffered d1 = buffered d ++ data ->
  header_at c (buffer d1) 0 = header_at c (buffer d) 0.
Proof.
  intros Hinv Hinv1 Henough Hgrow Hheld.
  rewrite (header_at_buffered c header_size d1 0) by lia.
  rewrite (header_at_buffered c header_size d 0) by lia.
  unfold header_at. rewrite Hheld.
  apply sub_array_app_prefix; [lia | lia |].
  rewrite (length_buffered c d Hinv). lia.
Qed.

Lemma driver_uart_process_uart_frames (io : uart_syscalls)
    (d d' : uart_ingress) :
  sync_inv c d ->
  driver_uart_process_uart c io d = Some (Ok d') ->
  sync_inv c d'
  /\ exists new, core_frames d' = core_frames d ++ new
                 /\ Forall (well_framed c) new.
Proof.
  intros [Hinv Hsync] Hrun.
  destruct (driver_uart_process_uart_steps c header_size io d d' Hinv Hrun)
    as (buf1 & fuel & Hinv1 & Hheld1 & Hloop).
  set (d1 := {| buffer := buf1;
                buffer_head :=
                  buffer_head d + Z.of_nat (length (bytes_read c io d));
                state := state d; core_frames := core_frames d |}) in *.
  assert (Hsync1 : sync_inv c d1).
  { split; [exact Hinv1 |]. intros Hstate.
    destruct (Hsync Hstate) as [Henough Hvalid].
    split; [unfold d1; cbn [buffer_head]; lia |].
    rewrite (append_keeps_header d d1 (bytes_read c io d) Hinv Hinv1
               Henough);
      [exact Hvalid | unfold d1; cbn [buffer_head]; lia | exact Hheld1]. }
  destruct (uart_loop_frames io fuel d1 d' Hsync1 Hloop)
    as (Hsync' & new & Hcore & Hwf).
  split; [exact Hsync' |]. exists new. split; [exact Hcore | exact Hwf].
Qed.

(** X4.  From a fresh start, or from any state reached from one, whatever
    the link delivers and however it is cut into reads, every datagram
    written to the core is a whole frame: it starts with a header that
    validates and is exactly as long as that header announces.  The state
    reached again has a validated header at offset 0 whenever the payload is
    awaited. *)
Theorem forwarded_frames_are_well_framed :
  forall (ios : list uart_syscalls) (d d' : uart_ingress) (s : list byte),
    sync_inv c d ->
    uart_calls c ios d = Some (Ok (d', s)) ->
    sync_inv c d'
    /\ exists new, core_frames d' = core_frames d ++ new
                   /\ Forall (well_framed c) new.
Proof.
  induction ios as [| io ios IH]; intros d d' s Hsync Hrun; simpl in Hrun.
  - inversion Hrun; subst d' s. split; [exact Hsync |].
    exists []. rewrite app_nil_r. split; [reflexivity | constructor].
  - destruct (driver_uart_process_uart c io d) as [[d1 |] |] eqn:Hcall;
      try discriminate.
    destruct (uart_calls c ios d1) as [[[d2 later] |] |] eqn:Hrest;
      try discriminate.
    inversion Hrun; subst d2 s. clear Hrun.
    destruct (driver_uart_process_uart_frames io d d1 Hsync Hcall)
      as (Hsync1 & new1 & Hcore1 & Hwf1).
    destruct (IH d1 d' later Hsync1 Hrest) as (Hsync' & new2 & Hcore2 & Hwf2).
    split; [exact Hsync' |]. exists (new1 ++ new2).
    split; [rewrite Hcore2, Hcore1, app_assoc; reflexivity |].
    apply Forall_app. split; assumption.
Qed.

(** With the array full nothing is requested from the link. *)
Lemma read_and_append_full (io : uart_syscalls) (buf buf' : list byte)
    (appended : Z) :
  Z.of_nat (length buf) = UART_BUFFER_SIZE c ->
  read_and_append_uart_received_data io buf (UART_BUFFER_SIZE c)
    (UART_BUFFER_SIZE c) = Ok (buf', appended) ->
  appended = 0 /\ buf' = buf /\ read_fd_uart io 0 = Some [].
Proof.
  intros Hlen Hcall. unfold read_and_append_uart_received_data in Hcall.
  pose proof (size_t_range (fionread_bytes io)) as Hav.
  destruct (fionread_retval io <? 0); [discriminate |].
  destruct (size_t (fionread_bytes io) =? 0); [discriminate |].
  rewrite Z.sub_diag in Hcall. change (size_t 0) with 0 in Hcall.
  destruct (Z.ltb_spec (size_t (fionread_bytes io)) 0); [lia |].
  destruct (malloc_ok io 0); [| discriminate]. simpl in Hcall.
  destruct (read_fd_uart io 0) as [data |]; [| discriminate].
  destruct (Z.eqb_spec (Z.of_nat (length data)) 0) as [Hdata | Hdata];
    [| discriminate].
  simpl in Hcall. inversion Hcall; subst buf' appended.
  split; [reflexivity |].
  split; [| destruct data; [reflexivity | discriminate]].
  unfold memcpy. rewrite Z.add_0_r. simpl. apply firstn_skipn.
Qed.

(** X5.  Once the array is full between two invocations, which can only be
    while the payload of a frame larger than the array is awaited, an
    invocation requests no byte from the link and returns with nothing
    changed. *)
Theorem full_buffer_stalls (io : uart_syscalls) (d d' : uart_ingress) :
  ingress_inv c d -> starved c d ->
  buffer_head d = UART_BUFFER_SIZE c ->
  driver_uart_process_uart c io d = Some (Ok d') ->
  d' = d
  /\ bytes_read c io d = []
  /\ state d = EXPECTING_PAYLOAD
  /\ 4096 < uint16_t (hdlc_get_length c (header_at c (buffer d) 0)).
Proof.
  intros Hinv Hstarved Hfull Hrun.
  assert (Hphase : state d = EXPECTING_PAYLOAD
                   /\ buffer_head d
                      < uint16_t (hdlc_get_length c
                                    (header_at c (buffer d) 0))
                        + SLI_CPC_HDLC_HEADER_RAW_SIZE c).
  { unfold starved in Hstarved. unfold UART_BUFFER_SIZE in Hfull.
    destruct (state d); [lia |]. split; [reflexivity | lia]. }
  destruct Hphase as [Hstate Hwait].
  unfold driver_uart_process_uart in Hrun. unfold bytes_read.
  destruct (read_and_append_uart_received_data io (buffer d)
              (buffer_head d) (UART_BUFFER_SIZE c))
    as [[buf1 appended] |] eqn:Hcall; [| discriminate].
  rewrite Hfull in Hcall.
  destruct (read_and_append_full io (buffer d) buf1 appended
              (proj1 Hinv) Hcall) as (-> & -> & Hread).
  rewrite Z.add_0_r in Hrun.
  rewrite size_t_small in Hrun
    by (destruct Hinv as [_ Hh]; unfold UART_BUFFER_SIZE in Hh; lia).
  assert (Hsame : {| buffer := buffer d; buffer_head := buffer_head d;
                     state := state d; core_frames := core_frames d |} = d)
    by (destruct d; reflexivity).
  rewrite Hsame in Hrun.
  pose proof (payload_waits c header_size io d Hinv Hstate Hwait) as Hturn.
  rewrite (uart_loop_exit c io _ d d d' Hturn Hrun).
  split; [reflexivity |]. split.
  - rewrite Hread. reflexivity.
  - split; [exact Hstate |]. unfold UART_BUFFER_SIZE in Hfull. lia.
Qed.

End Invocation.

Lemma invocation_ends_starved_witness :
  exists d',
    driver_uart_process_uart sample_hdlc (link_syscalls [xcc] write_all)
      framed_ingress = Some (Ok d')
    /\ starved sample_hdlc d'
    /\ (state d' = EXPECTING_HEADER -> buffer_head d' <= 3).
Proof.
  assert (Hrun : exists d',
             driver_uart_process_uart sample_hdlc
               (link_syscalls [xcc] write_all) framed_ingress
             = Some (Ok d'))
    by (vm_compute; eexists; reflexivity).
  destruct Hrun as [d' Hrun]. exists d'. split; [exact Hrun |].
  apply (invocation_ends_starved sample_hdlc ltac:(simpl; lia)
           (link_syscalls [xcc] write_all) framed_ingress d').
  - sample_inv.
  - exact Hrun.
Defined.

Lemma forwarded_frames_are_well_framed_witness :
  exists d',
    uart_calls sample_hdlc whole_frame_reads initial_ingress
    = Some (Ok (d', [x01; x02; x03; x14; x02; x00; x16; xaa; xbb]))
    /\ sync_inv sample_hdlc d'
    /\ exists new, core_frames d' = [] ++ new
                   /\ Forall (well_framed sample_hdlc) new.
Proof.
  assert (Hrun : exists d',
             uart_calls sample_hdlc whole_frame_reads initial_ingress
             = Some (Ok (d', [x01; x02; x03; x14; x02; x00; x16; xaa; xbb])))
    by (vm_compute; eexists; reflexivity).
  destruct Hrun as [d' Hrun]. exists d'. split; [exact Hrun |].
  apply (forwarded_frames_are_well_framed sample_hdlc ltac:(simpl; lia)
           whole_frame_reads initial_ingress d'
           [x01; x02; x03; x14; x02; x00; x16; xaa; xbb]).
  - split; [sample_inv | discriminate].
  - exact Hrun.
Defined.

Lemma full_buffer_stalls_witness :
  driver_uart_process_uart sample_hdlc (link_syscalls [x01] write_all)
    full_ingress = Some (Ok full_ingress)
  /\ bytes_read sample_hdlc (link_syscalls [x01] write_all) full_ingress
     = [].
Proof.
  assert (Hrun : exists d',
             driver_uart_process_uart sample_hdlc
               (link_syscalls [x01] write_all) full_ingress
             = Some (Ok d'))
    by (vm_compute; eexists; reflexivity).
  destruct Hrun as [d' Hrun].
  destruct (full_buffer_stalls sample_hdlc ltac:(simpl; lia)
              (link_syscalls [x01] write_all) full_ingress d')
    as (Hsame & Hnone & _).
  - sample_inv.
  - right. vm_compute. reflexivity.
  - reflexivity.
  - exact Hrun.
  - rewrite Hsame in Hrun. split; [exact Hrun | exact Hnone].
Defined.

(** ** Whole frames through the synchronizer *)

Section WholeFrames.

Variable c : hdlc.
Hypothesis header_size : 0 < SLI_CPC_HDLC_HEADER_RAW_SIZE c < 2 ^ 32.

(** One invocation while the bytes read so far stop short of the end of the
    frame announced at [k], whatever the stream holds further on. *)
Lemma seeking_step_prefix (io : uart_syscalls) (d d' : uart_ingress)
    (k : Z) (pre rest s : list byte) :
  ingress_inv c d -> seeking c k pre d ->
  s = (pre ++ bytes_read c io d) ++ rest ->
  first_header_at c s k ->
  Z.of_nat (length (pre ++ bytes_read c io d))
  < k + SLI_CPC_HDLC_HEADER_RAW_SIZE c
    + uint16_t (hdlc_get_length c (header_at c s k)) ->
  driver_uart_process_uart c io d = Some (Ok d') ->
  ingress_inv c d'
  /\ seeking c k (pre ++ bytes_read c io d) d'
  /\ core_frames d' = core_frames d.
Proof.
  intros Hinv (o & Ho & Hopre & Hhead & Hheld & Hphase) Hs
         (Hk & Hkfit & Hbad & Hgood) Hpartial Hrun.
  destruct (driver_uart_process_uart_steps c header_size io d d' Hinv Hrun)
    as (buf1 & fuel & Hinv1 & Hheld1 & Hloop).
  set (data := bytes_read c io d) in *.
  set (pre' := pre ++ data) in *.
  set (d1 := {| buffer := buf1;
                buffer_head := buffer_head d + Z.of_nat (length data);
                state := state d; core_frames := core_frames d |}) in *.
  assert (Hpre' : Z.of_nat (length pre')
                  = Z.of_nat (length pre) + Z.of_nat (length data))
    by (unfold pre'; rewrite length_app; lia).
  assert (Hslen : Z.of_nat (length pre') <= Z.of_nat (length s))
    by (rewrite Hs, length_app; lia).
  assert (Hhead1 : buffer_head d1 = Z.of_nat (length pre') - o)
    by (unfold d1; cbn [buffer_head]; lia).
  assert (Hheld1' : buffered d1
                    = sub_array pre' o (Z.of_nat (length pre') - o)).
  { rewrite Hheld1, Hheld. unfold pre'. apply sub_array_app_tail. lia. }
  assert (Hwindow : forall i,
             0 <= i ->
             i + SLI_CPC_HDLC_HEADER_RAW_SIZE c <= buffer_head d1 ->
             header_at c (buffer d1) i = header_at c s (o + i)).
  { intros i Hi Hfit.
    rewrite (header_at_buffered c header_size d1 i Hi Hfit). unfold header_at.
    rewrite Hheld1', sub_array_sub_array by lia.
    rewrite Hs. symmetry. apply sub_array_app_prefix; lia. }
  assert (Hstate1 : state d1 = state d) by reflexivity.
  assert (Hcore1 : core_frames d1 = core_frames d) by reflexivity.
  clearbody d1.
  destruct Hphase as [(Hstate & Hshort) | (Hstate & -> & Henough)].
  - (* still seeking the header *)
    rewrite Hstate in Hstate1.
    destruct (Z.lt_ge_cases (buffer_head d1)
                (SLI_CPC_HDLC_HEADER_RAW_SIZE c)) as [Hlt | Hge].
    + (* not even a header's worth *)
      pose proof (header_waits c io d1 Hstate1 Hlt) as Hturn.
      rewrite (uart_loop_exit c io fuel d1 d1 d' Hturn Hloop).
      split; [exact Hinv1 |]. split; [| exact Hcore1].
      exists o. repeat split; try lia; try assumption.
      left. split; assumption.
    + destruct (Z.le_gt_cases (k + SLI_CPC_HDLC_HEADER_RAW_SIZE c)
                  (Z.of_nat (length pre'))) as [Hin | Hout].
      * (* the header at [k] is entirely there *)
        destruct (ingress_inv_bounds c header_size d1 Hinv1)
          as [Hb1 Hb2].
        destruct (header_re_synch_found_block c header_size (buffer d1)
                    (buffer_head d1) (k - o))
          as (buf2 & Hpass & Hlen2 & Hblock);
          [lia | lia | lia | lia | | |].
        { intros j Hj. rewrite Hwindow by lia. apply Hbad. lia. }
        { rewrite Hwindow by lia. replace (o + (k - o)) with k by lia.
          exact Hgood. }
        set (d2 := {| buffer := buf2;
                      buffer_head := buffer_head d1 - (k - o);
                      state := EXPECTING_PAYLOAD;
                      core_frames := core_frames d1 |}).
        assert (Hturn : uart_iteration c io d1 = Ok (true, d2)).
        { unfold uart_iteration. rewrite Hstate1, Hpass. reflexivity. }
        destruct (uart_iteration_step c header_size io d1 d2 true Hinv1 Hturn)
          as (Hinv2 & _).
        assert (Hheld2 : buffered d2
                         = sub_array pre' k (Z.of_nat (length pre') - k)).
        { unfold buffered, d2. cbn [buffer buffer_head]. rewrite Hblock.
          fold (buffered d1) in Hheld1'.
          replace (sub_array (buffer d1) (k - o) (buffer_head d1 - (k - o)))
            with (sub_array (buffered d1) (k - o)
                    (buffer_head d1 - (k - o)))
            by (apply sub_array_buffered; lia).
          rewrite Hheld1', sub_array_sub_array by lia.
          f_equal; lia. }
        assert (Hhdr2 : header_at c (buffer d2) 0 = header_at c s k).
        { rewrite (header_at_buffered c header_size d2 0)
            by (unfold d2; cbn [buffer_head]; lia).
          unfold header_at. rewrite Hheld2, sub_array_sub_array by lia.
          rewrite Hs, Z.add_0_r. symmetry. apply sub_array_app_prefix; lia. }
        destruct (uart_loop_again c io fuel d1 d2 d' Hturn Hloop)
          as [fuel' Hloop'].
        assert (Hturn2 : uart_iteration c io d2 = Ok (false, d2)).
        { apply (payload_waits c header_size io d2 Hinv2 eq_refl).
          rewrite Hhdr2. unfold d2. cbn [buffer_head]. lia. }
        rewrite (uart_loop_exit c io fuel' d2 d2 d' Hturn2 Hloop').
        split; [exact Hinv2 |]. split; [| exact Hcore1].
        exists k. split; [lia |]. split; [lia |].
        split; [unfold d2; cbn [buffer_head]; lia |].
        split; [exact Hheld2 |].
        right. split; [reflexivity |]. split; [reflexivity |].
        unfold d2; cbn [buffer_head]; lia.
      * (* the header at [k] is not entirely there yet *)
        assert (Hpass :
          header_re_synch c (buffer d1) (buffer_head d1)
          = (false,
             memmove (buffer d1) 0
               (buffer_head d1 - SLI_CPC_HDLC_HEADER_RAW_SIZE c + 1)
               (SLI_CPC_HDLC_HEADER_RAW_SIZE c - 1),
             SLI_CPC_HDLC_HEADER_RAW_SIZE c - 1)).
        { destruct (ingress_inv_bounds c header_size d1 Hinv1) as [Hb1 Hb2].
          apply (header_re_synch_none c header_size); [lia |].
          intros j Hj. rewrite Hwindow by lia. apply Hbad. lia. }
        set (d2 := {| buffer :=
                        memmove (buffer d1) 0
                          (buffer_head d1
                           - SLI_CPC_HDLC_HEADER_RAW_SIZE c + 1)
                          (SLI_CPC_HDLC_HEADER_RAW_SIZE c - 1);
                      buffer_head := SLI_CPC_HDLC_HEADER_RAW_SIZE c - 1;
                      state := EXPECTING_HEADER;
                      core_frames := core_frames d1 |}).
        assert (Hturn : uart_iteration c io d1 = Ok (false, d2)).
        { unfold uart_iteration. rewrite Hstate1, Hpass. reflexivity. }
        destruct (uart_iteration_step c header_size io d1 d2 false Hinv1
                    Hturn) as (Hinv2 & _).
        rewrite (uart_loop_exit c io fuel d1 d2 d' Hturn Hloop).
        split; [exact Hinv2 |]. split; [| exact Hcore1].
        destruct (ingress_inv_bounds c header_size d1 Hinv1) as [Hb1 Hb2].
        exists (Z.of_nat (length pre')
                - SLI_CPC_HDLC_HEADER_RAW_SIZE c + 1).
        split; [lia |]. split; [lia |].
        split; [unfold d2; cbn [buffer_head]; lia |].
        split; [| left; split;
                    [reflexivity | unfold d2; cbn [buffer_head]; lia]].
        unfold buffered, d2. cbn [buffer buffer_head].
        rewrite memmove_front_block by lia.
        fold (buffered d1) in Hheld1'.
        replace (sub_array (buffer d1)
                   (buffer_head d1 - SLI_CPC_HDLC_HEADER_RAW_SIZE c + 1)
                   (SLI_CPC_HDLC_HEADER_RAW_SIZE c - 1))
          with (sub_array (buffered d1)
                  (buffer_head d1 - SLI_CPC_HDLC_HEADER_RAW_SIZE c + 1)
                  (SLI_CPC_HDLC_HEADER_RAW_SIZE c - 1))
          by (apply sub_array_buffered; lia).
        rewrite Hheld1', sub_array_sub_array by lia.
        f_equal; lia.
  - (* synchronised, the payload is awaited *)
    rewrite Hstate in Hstate1.
    assert (Hhdr1 : header_at c (buffer d1) 0 = header_at c s k).
    { rewrite Hwindow by lia. f_equal. lia. }
    assert (Hturn : uart_iteration c io d1 = Ok (false, d1)).
    { apply (payload_waits c header_size io d1 Hinv1 Hstate1).
      rewrite Hhdr1. lia. }
    rewrite (uart_loop_exit c io fuel d1 d1 d' Hturn Hloop).
    split; [exact Hinv1 |]. split; [| exact Hcore1].
    exists k. repeat split; try lia; try assumption.
    right. repeat split; [assumption | lia].
Qed.

(** With a whole frame held and a core that takes it, payload delimiting
    writes it and moves the rest to offset 0. *)
Lemma delimit_emits (io : uart_syscalls) (buf : list byte) (head : Z)
    (core : list (list byte)) :
  0 <= head < 2 ^ 64 ->
  let frame_size :=
    uint16_t (hdlc_get_length c (header_at c buf 0))
    + SLI_CPC_HDLC_HEADER_RAW_SIZE c in
  frame_size <= head ->
  write_fd_core io (sub_array buf 0 frame_size) = frame_size ->
  delimit_and_push_frames_to_core c io buf head core
  = Ok (true, memmove buf 0 frame_size (head - frame_size),
        head - frame_size, core ++ [sub_array buf 0 frame_size]).
Proof.
  intros Hhead frame_size Hwhole Hwrite.
  pose proof (uint16_t_range (hdlc_get_length c (header_at c buf 0))) as Hpl.
  assert (Hfs : size_t (uint16_t (hdlc_get_length c (header_at c buf 0))
                        + SLI_CPC_HDLC_HEADER_RAW_SIZE c) = frame_size)
    by (apply size_t_small; unfold frame_size; lia).
  unfold delimit_and_push_frames_to_core.
  destruct (Z.ltb_spec head (SLI_CPC_HDLC_HEADER_RAW_SIZE c));
    [unfold frame_size in Hwhole; lia |].
  fold (header_at c buf 0). rewrite Hfs, Z.gtb_ltb.
  destruct (Z.ltb_spec head frame_size); [lia |].
  rewrite Hwrite.
  destruct (Z.ltb_spec frame_size 0); [unfold frame_size in *; lia |].
  rewrite (size_t_small frame_size) by (unfold frame_size in *; lia).
  rewrite Z.eqb_refl. simpl.
  rewrite size_t_small by (unfold frame_size in *; lia).
  reflexivity.
Qed.

(** The header of a frame that leads a block is the header of the
    block. *)
Lemma header_at_leading_frame (frame rest : list byte) :
  SLI_CPC_HDLC_HEADER_RAW_SIZE c <= Z.of_nat (length frame) ->
  header_at c (frame ++ rest) 0 = header_at c frame 0.
Proof.
  intros Hlen. unfold header_at. apply sub_array_app_prefix; lia.
Qed.

Lemma well_framed_length (frame : list byte) :
  well_framed c frame ->
  SLI_CPC_HDLC_HEADER_RAW_SIZE c <= Z.of_nat (length frame).
Proof.
  intros [_ Hlen].
  pose proof (uint16_t_range (hdlc_get_length c (header_at c frame 0))).
  lia.
Qed.

(** A turn in [EXPECTING_HEADER] with a whole frame at offset 0 only
    changes the state. *)
Lemma sync_aligned (io : uart_syscalls) (d : uart_ingress)
    (frame rest : list byte) :
  ingress_inv c d -> state d = EXPECTING_HEADER ->
  buffered d = frame ++ rest -> well_framed c frame ->
  uart_iteration c io d
  = Ok (true,
        {| buffer := buffer d; buffer_head := buffer_head d;
           state := EXPECTING_PAYLOAD; core_frames := core_frames d |}).
Proof.
  intros Hinv Hstate Hheld Hwf.
  pose proof (well_framed_length frame Hwf) as Hflen.
  pose proof (length_buffered c d Hinv) as Hhead.
  rewrite Hheld, length_app in Hhead.
  destruct (ingress_inv_bounds c header_size d Hinv) as [Hb1 Hb2].
  unfold uart_iteration. rewrite Hstate.
  rewrite (header_re_synch_found c header_size (buffer d) (buffer_head d) 0);
    [reflexivity | lia | lia | lia | intros j Hj; lia |].
  rewrite (header_at_buffered c header_size d 0) by lia.
  rewrite Hheld, (header_at_leading_frame frame rest Hflen).
  apply Hwf.
Qed.

(** A turn in [EXPECTING_PAYLOAD] with a whole frame at offset 0 writes it
    to the core and keeps what follows. *)
Lemma emit_first_frame (io : uart_syscalls) (d : uart_ingress)
    (frame rest : list byte) :
  ingress_inv c d -> state d = EXPECTING_PAYLOAD ->
  buffered d = frame ++ rest -> well_framed c frame ->
  (forall f, write_fd_core io f = Z.of_nat (length f)) ->
  exists d2,
    uart_iteration c io d = Ok (true, d2)
    /\ ingress_inv c d2 /\ state d2 = EXPECTING_HEADER
    /\ buffered d2 = rest
    /\ core_frames d2 = core_frames d ++ [frame].
Proof.
  intros Hinv Hstate Hheld Hwf Hwrite.
  pose proof (well_framed_length frame Hwf) as Hflen.
  pose proof (length_buffered c d Hinv) as Hhead.
  rewrite Hheld, length_app in Hhead.
  destruct (ingress_inv_bounds c header_size d Hinv) as [Hb1 Hb2].
  assert (Hhdr : header_at c (buffer d) 0 = header_at c frame 0).
  { rewrite (header_at_buffered c header_size d 0) by lia.
    rewrite Hheld. apply header_at_leading_frame. exact Hflen. }
  destruct Hwf as [Hvalid Hsize].
  assert (Hfs : uint16_t (hdlc_get_length c (header_at c (buffer d) 0))
                + SLI_CPC_HDLC_HEADER_RAW_SIZE c
                = Z.of_nat (length frame))
    by (rewrite Hhdr; lia).
  assert (Hframe : sub_array (buffer d) 0 (Z.of_nat (length frame)) = frame).
  { rewrite <- (sub_array_buffered d 0) by lia.
    rewrite Hheld, sub_array_0, Nat2Z.id, firstn_app, Nat.sub_diag.
    rewrite firstn_all, firstn_O, app_nil_r. reflexivity. }
  pose proof (delimit_emits io (buffer d) (buffer_head d) (core_frames d))
    as Hpush.
  cbv zeta in Hpush. rewrite Hfs in Hpush.
  specialize (Hpush ltac:(lia) ltac:(lia)).
  rewrite Hframe in Hpush. specialize (Hpush (Hwrite frame)).
  eexists. split.
  { unfold uart_iteration. rewrite Hstate, Hpush. reflexivity. }
  split.
  { split; cbn [buffer buffer_head].
    - rewrite length_memmove_front by lia. apply Hinv.
    - destruct Hinv as [_ Hcap]. lia. }
  split; [reflexivity |]. split; [| reflexivity].
  unfold buffered. cbn [buffer buffer_head].
  rewrite memmove_front_block by lia.
  rewrite <- (sub_array_buffered d) by lia.
  rewrite Hheld. unfold sub_array.
  rewrite Nat2Z.id, skipn_app, Nat.sub_diag, skipn_all. simpl.
  apply firstn_all2. lia.
Qed.

(** Two runs of the loop on the same state return the same. *)
Lemma uart_loop_agree (io : uart_syscalls) (fuel1 fuel2 : nat)
    (d : uart_ingress) (r1 r2 : result uart_ingress) :
  uart_loop c fuel1 io d = Some r1 -> uart_loop c fuel2 io d = Some r2 ->
  r1 = r2.
Proof.
  intros Hrun1 Hrun2.
  pose proof (uart_loop_more_fuel c io fuel1 (Nat.max fuel1 fuel2) d r1
                Hrun1 (Nat.le_max_l _ _)) as Hmax1.
  pose proof (uart_loop_more_fuel c io fuel2 (Nat.max fuel1 fuel2) d r2
                Hrun2 (Nat.le_max_r _ _)) as Hmax2.
  congruence.
Qed.

(** With whole frames held back to back, the loop writes them all, in
    order, and ends with nothing held. *)
Lemma uart_loop_batch (io : uart_syscalls) :
  (forall f, write_fd_core io f = Z.of_nat (length f)) ->
  forall (frames : list (list byte)) (d : uart_ingress),
    ingress_inv c d -> state d = EXPECTING_HEADER ->
    buffered d = concat frames -> Forall (well_framed c) frames ->
    exists fuel d',
      uart_loop c fuel io d = Some (Ok d')
      /\ ingress_inv c d' /\ state d' = EXPECTING_HEADER
      /\ buffer_head d' = 0
      /\ core_frames d' = core_frames d ++ frames.
Proof.
  intros Hwrite.
  induction frames as [| frame frames IH]; intros d Hinv Hstate Hheld Hwf.
  - pose proof (length_buffered c d Hinv) as Hhead.
    rewrite Hheld in Hhead. simpl in Hhead.
    exists 1%nat, d. simpl.
    rewrite (header_waits c io d Hstate) by lia.
    rewrite app_nil_r. repeat split; try assumption; try apply Hinv; lia.
  - inversion Hwf as [| f fs Hwf1 Hwfs]; subst f fs. simpl in Hheld.
    pose proof (sync_aligned io d frame (concat frames) Hinv Hstate Hheld
                  Hwf1) as Hturn1.
    set (d1 := {| buffer := buffer d; buffer_head := buffer_head d;
                  state := EXPECTING_PAYLOAD;
                  core_frames := core_frames d |}) in *.
    assert (Hinv1 : ingress_inv c d1) by exact Hinv.
    destruct (emit_first_frame io d1 frame (concat frames) Hinv1 eq_refl
                Hheld Hwf1 Hwrite)
      as (d2 & Hturn2 & Hinv2 & Hstate2 & Hheld2 & Hcore2).
    destruct (IH d2 Hinv2 Hstate2 Hheld2 Hwfs)
      as (fuel & d' & Hrun & Hinv' & Hstate' & Hhead' & Hcore').
    exists (S (S fuel)), d'. cbn [uart_loop].
    rewrite Hturn1. cbn [uart_loop]. rewrite Hturn2.
    split; [exact Hrun |]. split; [exact Hinv' |].
    split; [exact Hstate' |]. split; [exact Hhead' |].
    rewrite Hcore', Hcore2, <- app_assoc. reflexivity.
Qed.

(** X7.  When one read delivers whole frames back to back to a synchronizer
    that holds nothing and seeks a header, and the core takes every
    datagram, the invocation writes exactly these frames to the core, in
    order and each byte for byte, and ends with nothing held, seeking the
    next header. *)
Theorem batch_of_frames_is_forwarded (io : uart_syscalls)
    (d d' : uart_ingress) (frames : list (list byte)) :
  ingress_inv c d -> state d = EXPECTING_HEADER -> buffer_head d = 0 ->
  Forall (well_framed c) frames ->
  (forall f, write_fd_core io f = Z.of_nat (length f)) ->
  bytes_read c io d = concat frames ->
  driver_uart_process_uart c io d = Some (Ok d') ->
  core_frames d' = core_frames d ++ frames
  /\ state d' = EXPECTING_HEADER /\ buffer_head d' = 0.
Proof.
  intros Hinv Hstate Hempty Hwf Hwrite Hread Hrun.
  destruct (driver_uart_process_uart_steps c header_size io d d' Hinv Hrun)
    as (buf1 & fuel & Hinv1 & Hheld1 & Hloop).
  set (d1 := {| buffer := buf1;
                buffer_head :=
                  buffer_head d + Z.of_nat (length (bytes_read c io d));
                state := state d; core_frames := core_frames d |}) in *.
  assert (Hheld1' : buffered d1 = concat frames).
  { rewrite Hheld1, Hread. unfold buffered. rewrite Hempty. reflexivity. }
  destruct (uart_loop_batch io Hwrite frames d1 Hinv1 Hstate Hheld1' Hwf)
    as (fuel2 & d2 & Hrun2 & _ & Hstate2 & Hhead2 & Hcore2).
  pose proof (uart_loop_agree io fuel fuel2 d1 _ _ Hloop Hrun2) as Heq.
  inversion Heq; subst d2.
  split; [exact Hcore2 |]. split; assumption.
Qed.

End WholeFrames.

Section RoundTrip.

Variable c : hdlc.
Hypothesis header_size : 0 < SLI_CPC_HDLC_HEADER_RAW_SIZE c < 2 ^ 32.

(** A successful invocation with room left in the array reads at least one
    byte. *)
Lemma bytes_read_nonempty (io : uart_syscalls) (d d' : uart_ingress) :
  ingress_inv c d -> buffer_head d < UART_BUFFER_SIZE c ->
  driver_uart_process_uart c io d = Some (Ok d') ->
  bytes_read c io d <> [].
Proof.
  intros [Hlen Hhead] Hroom Hrun. unfold driver_uart_process_uart in Hrun.
  unfold bytes_read.
  destruct (read_and_append_uart_received_data io (buffer d)
              (buffer_head d) (UART_BUFFER_SIZE c))
    as [[buf1 appended] |] eqn:Hcall; [| discriminate].
  destruct (read_and_append_spec c header_size io _ _ _ _ Hhead Hlen Hcall)
    as (Hn & Hpos & _ & data & Hread & Hdata & _).
  rewrite Hread. intros ->. simpl in Hdata. lia.
Qed.

(** With exactly one whole frame held while the payload is awaited, the
    loop writes it and returns with nothing held. *)
Lemma emit_and_wait (io : uart_syscalls) (fuel : nat) (d d' : uart_ingress)
    (frame : list byte) :
  ingress_inv c d -> state d = EXPECTING_PAYLOAD ->
  buffered d = frame -> well_framed c frame ->
  (forall f, write_fd_core io f = Z.of_nat (length f)) ->
  uart_loop c fuel io d = Some (Ok d') ->
  ingress_inv c d' /\ state d' = EXPECTING_HEADER /\ buffer_head d' = 0
  /\ core_frames d' = core_frames d ++ [frame].
Proof.
  intros Hinv Hstate Hheld Hwf Hwrite Hloop.
  rewrite <- (app_nil_r frame) in Hheld.
  destruct (emit_first_frame c header_size io d frame [] Hinv Hstate Hheld
              Hwf Hwrite)
    as (d2 & Hturn & Hinv2 & Hstate2 & Hheld2 & Hcore2).
  destruct (uart_loop_again c io fuel d d2 d' Hturn Hloop)
    as [fuel' Hloop'].
  pose proof (length_buffered c d2 Hinv2) as Hhead2.
  rewrite Hheld2 in Hhead2. simpl in Hhead2.
  pose proof (header_waits c io d2 Hstate2 ltac:(lia)) as Hturn2.
  rewrite (uart_loop_exit c io fuel' d2 d2 d' Hturn2 Hloop').
  repeat split; try assumption; try apply Hinv2; lia.
Qed.

(** The invocation whose read completes the frame announced at [k]. *)
Lemma frame_completes (io : uart_syscalls) (d d' : uart_ingress)
    (k : Z) (pre s : list byte) :
  ingress_inv c d -> seeking c k pre d ->
  s = pre ++ bytes_read c io d ->
  first_header_at c s k ->
  Z.of_nat (length s)
  = k + SLI_CPC_HDLC_HEADER_RAW_SIZE c
    + uint16_t (hdlc_get_length c (header_at c s k)) ->
  (forall f, write_fd_core io f = Z.of_nat (length f)) ->
  driver_uart_process_uart c io d = Some (Ok d') ->
  ingress_inv c d' /\ state d' = EXPECTING_HEADER /\ buffer_head d' = 0
  /\ core_frames d' = core_frames d ++ [skipn (Z.to_nat k) s].
Proof.
  intros Hinv (o & Ho & Hopre & Hhead & Hheld & Hphase) Hs
         (Hk & Hkfit & Hbad & Hgood) Hwhole Hwrite Hrun.
  destruct (driver_uart_process_uart_steps c header_size io d d' Hinv Hrun)
    as (buf1 & fuel & Hinv1 & Hheld1 & Hloop).
  set (data := bytes_read c io d) in *.
  set (d1 := {| buffer := buf1;
                buffer_head := buffer_head d + Z.of_nat (length data);
                state := state d; core_frames := core_frames d |}) in *.
  assert (Hslen : Z.of_nat (length s)
                  = Z.of_nat (length pre) + Z.of_nat (length data))
    by (rewrite Hs, length_app; lia).
  assert (Hhead1 : buffer_head d1 = Z.of_nat (length s) - o)
    by (unfold d1; cbn [buffer_head]; lia).
  assert (Hheld1' : buffered d1 = sub_array s o (Z.of_nat (length s) - o)).
  { rewrite Hheld1, Hheld, Hs. apply sub_array_app_tail. lia. }
  assert (Hwf : well_framed c (skipn (Z.to_nat k) s)).
  { assert (Hhdr : header_at c (skipn (Z.to_nat k) s) 0 = header_at c s k)
      by reflexivity.
    split; [rewrite Hhdr; exact Hgood |].
    rewrite Hhdr, length_skipn. lia. }
  assert (Hstate1 : state d1 = state d) by reflexivity.
  assert (Hcore1 : core_frames d1 = core_frames d) by reflexivity.
  clearbody d1.
  destruct Hphase as [(Hstate & Hshort) | (Hstate & -> & Henough)].
  - rewrite Hstate in Hstate1.
    assert (Hwindow : forall i,
               0 <= i ->
               i + SLI_CPC_HDLC_HEADER_RAW_SIZE c <= buffer_head d1 ->
               header_at c (buffer d1) i = header_at c s (o + i)).
    { intros i Hi Hfit.
      rewrite (header_at_buffered c header_size d1 i Hi Hfit).
      unfold header_at.
      rewrite Hheld1', sub_array_sub_array by lia. reflexivity. }
    destruct (ingress_inv_bounds c header_size d1 Hinv1) as [Hb1 Hb2].
    pose proof (uint16_t_range (hdlc_get_length c (header_at c s k))) as Hpl.
    destruct (header_re_synch_found_block c header_size (buffer d1)
                (buffer_head d1) (k - o))
      as (buf2 & Hpass & Hlen2 & Hblock);
      [lia | lia | lia | lia | | |].
    { intros j Hj. rewrite Hwindow by lia. apply Hbad. lia. }
    { rewrite Hwindow by lia. replace (o + (k - o)) with k by lia.
      exact Hgood. }
    set (d2 := {| buffer := buf2;
                  buffer_head := buffer_head d1 - (k - o);
                  state := EXPECTING_PAYLOAD;
                  core_frames := core_frames d1 |}).
    assert (Hturn : uart_iteration c io d1 = Ok (true, d2)).
    { unfold uart_iteration. rewrite Hstate1, Hpass. reflexivity. }
    destruct (uart_iteration_step c header_size io d1 d2 true Hinv1 Hturn)
      as (Hinv2 & _).
    assert (Hheld2 : buffered d2 = skipn (Z.to_nat k) s).
    { unfold buffered, d2. cbn [buffer buffer_head]. rewrite Hblock.
      rewrite <- (sub_array_buffered d1) by lia.
      rewrite Hheld1', sub_array_sub_array by lia.
      replace (o + (k - o)) with k by lia.
      replace (buffer_head d1 - (k - o)) with (Z.of_nat (length s) - k)
        by lia.
      apply sub_array_to_end. exact Hk. }
    destruct (uart_loop_again c io fuel d1 d2 d' Hturn Hloop)
      as [fuel' Hloop'].
    destruct (emit_and_wait io fuel' d2 d' _ Hinv2 eq_refl Hheld2 Hwf Hwrite
                Hloop') as (Hinv' & Hstate' & Hhead' & Hcore').
    repeat split; try assumption; try apply Hinv'.
    rewrite Hcore'. unfold d2. cbn [core_frames]. rewrite Hcore1.
    reflexivity.
  - rewrite Hstate in Hstate1.
    assert (Hheld1'' : buffered d1 = skipn (Z.to_nat k) s)
      by (rewrite Hheld1'; apply sub_array_to_end; exact Hk).
    destruct (emit_and_wait io fuel d1 d' _ Hinv1 Hstate1 Hheld1'' Hwf
                Hwrite Hloop) as (Hinv' & Hstate' & Hhead' & Hcore').
    repeat split; try assumption; try apply Hinv'.
    rewrite Hcore', Hcore1. reflexivity.
Qed.

(** Any number of invocations that together read a stream ending with the
    frame announced at [k]. *)
Lemma round_trip_run (k : Z) (s : list byte) (core0 : list (list byte)) :
  first_header_at c s k ->
  Z.of_nat (length s)
  = k + SLI_CPC_HDLC_HEADER_RAW_SIZE c
    + uint16_t (hdlc_get_length c (header_at c s k)) ->
  forall (ios : list uart_syscalls) (d d' : uart_ingress)
         (pre later : list byte),
    ingress_inv c d -> core_takes_all ios ->
    (Z.of_nat (length pre) < Z.of_nat (length s)
     /\ seeking c k pre d /\ core_frames d = core0)
    \/ (pre = s /\ state d = EXPECTING_HEADER /\ buffer_head d = 0
        /\ core_frames d = core0 ++ [skipn (Z.to_nat k) s]) ->
    uart_calls c ios d = Some (Ok (d', later)) ->
    s = pre ++ later ->
    state d' = EXPECTING_HEADER /\ buffer_head d' = 0
    /\ core_frames d' = core0 ++ [skipn (Z.to_nat k) s].
Proof.
  intros Hfirst Hwhole.
  induction ios as [| io ios IH];
    intros d d' pre later Hinv Htakes Hstage Hrun Hs; simpl in Hrun.
  - inversion Hrun; subst d' later. rewrite app_nil_r in Hs. subst pre.
    destruct Hstage as [(Hless & _) | (_ & Hdone)]; [lia | exact Hdone].
  - destruct (driver_uart_process_uart c io d) as [[d1 |] |] eqn:Hcall;
      try discriminate.
    destruct (uart_calls c ios d1) as [[[d2 later'] |] |] eqn:Hrest;
      try discriminate.
    inversion Hrun; subst d2 later. clear Hrun.
    assert (Htakes' : core_takes_all ios)
      by (intros io' Hin; apply Htakes; right; exact Hin).
    pose proof (driver_uart_process_uart_inv c header_size io d d1 Hinv
                  Hcall) as Hinv1.
    rewrite app_assoc in Hs.
    destruct Hstage as [(Hless & Hseek & Hcore)
                       | (-> & Hstate & Hhead & Hcore)].
    + assert (Hlen : Z.of_nat (length s)
                     = Z.of_nat (length (pre ++ bytes_read c io d))
                       + Z.of_nat (length later'))
        by (rewrite Hs at 1; rewrite length_app; lia).
      destruct (Z.lt_ge_cases (Z.of_nat (length (pre ++ bytes_read c io d)))
                  (Z.of_nat (length s))) as [Hshort | Hall].
      * destruct (seeking_step_prefix c header_size io d d1 k pre later' s
                    Hinv Hseek Hs Hfirst ltac:(lia) Hcall)
          as (_ & Hseek1 & Hcore1).
        apply (IH d1 d' (pre ++ bytes_read c io d) later' Hinv1 Htakes');
          [| exact Hrest | exact Hs].
        left. split; [exact Hshort |]. split; [exact Hseek1 | congruence].
      * assert (Hnil : later' = [])
          by (destruct later'; [reflexivity | simpl in Hlen; lia]).
        subst later'. rewrite app_nil_r in Hs.
        destruct (frame_completes io d d1 k pre s Hinv Hseek Hs Hfirst
                    Hwhole (Htakes io (or_introl eq_refl)) Hcall)
          as (_ & Hstate1 & Hhead1 & Hcore1).
        apply (IH d1 d' s [] Hinv1 Htakes');
          [| exact Hrest | rewrite app_nil_r; reflexivity].
        right. split; [reflexivity |]. split; [exact Hstate1 |].
        split; [exact Hhead1 | congruence].
    + exfalso.
      assert (Hnone : bytes_read c io d = []).
      { assert (Hlen : length s
                       = (length (s ++ bytes_read c io d)
                          + length later')%nat)
          by (rewrite Hs at 1; rewrite length_app; reflexivity).
        rewrite length_app in Hlen.
        destruct (bytes_read c io d); [reflexivity | simpl in Hlen; lia]. }
      apply (bytes_read_nonempty io d d1 Hinv); [| exact Hcall | exact Hnone].
      unfold UART_BUFFER_SIZE. lia.
Qed.

(** X6.  From a fresh start, let the reads of any number of invocations
    deliver, cut in any way, some bytes none of which starts a header that
    validates, followed by one whole frame, and let the core take every
    datagram.  Then exactly one datagram has been written to the core, that
    frame byte for byte, none of the leading bytes appears in it, nothing is
    held any more and the next header is sought. *)
Theorem frame_round_trip (ios : list uart_syscalls) (d d' : uart_ingress)
    (garbage frame : list byte) :
  ingress_inv c d -> state d = EXPECTING_HEADER -> buffer_head d = 0 ->
  core_takes_all ios ->
  well_framed c frame ->
  (forall j, 0 <= j < Z.of_nat (length garbage) ->
             validate_header c (header_at c (garbage ++ frame) j) = false) ->
  uart_calls c ios d = Some (Ok (d', garbage ++ frame)) ->
  core_frames d' = core_frames d ++ [frame]
  /\ state d' = EXPECTING_HEADER /\ buffer_head d' = 0.
Proof.
  intros Hinv Hstate Hempty Htakes Hwf Hbad Hrun.
  pose proof (well_framed_length c frame Hwf) as Hflen.
  assert (Hskip : skipn (Z.to_nat (Z.of_nat (length garbage)))
                    (garbage ++ frame) = frame).
  { rewrite Nat2Z.id, skipn_app, Nat.sub_diag, skipn_all. reflexivity. }
  assert (Hhdr : header_at c (garbage ++ frame) (Z.of_nat (length garbage))
                 = header_at c frame 0).
  { unfold header_at, sub_array. rewrite Hskip. reflexivity. }
  destruct Hwf as [Hvalid Hsize].
  destruct (round_trip_run (Z.of_nat (length garbage)) (garbage ++ frame)
              (core_frames d)) with (ios := ios) (d := d) (d' := d')
              (pre := @nil byte) (later := garbage ++ frame)
    as (Hstate' & Hhead' & Hcore').
  - split; [lia |]. split; [rewrite length_app; lia |].
    split; [exact Hbad |]. rewrite Hhdr. exact Hvalid.
  - rewrite Hhdr, length_app. lia.
  - exact Hinv.
  - exact Htakes.
  - left. split; [rewrite length_app; simpl; lia |]. split; [| reflexivity].
    exists 0. split; [lia |]. split; [simpl; lia |]. split; [simpl; lia |].
    split; [unfold buffered; rewrite Hempty; reflexivity |].
    left. split; [exact Hstate | lia].
  - exact Hrun.
  - reflexivity.
  - rewrite Hskip in Hcore'. split; [exact Hcore' |]. split; assumption.
Qed.

End RoundTrip.

Lemma frame_round_trip_witness :
  exists d',
    uart_calls sample_hdlc whole_frame_reads initial_ingress
    = Some (Ok (d', [x01; x02; x03] ++ [x14; x02; x00; x16; xaa; xbb]))
    /\ core_frames d' = [] ++ [[x14; x02; x00; x16; xaa; xbb]]
    /\ state d' = EXPECTING_HEADER /\ buffer_head d' = 0.
Proof.
  assert (Hrun : exists d',
             uart_calls sample_hdlc whole_frame_reads initial_ingress
             = Some (Ok (d', [x01; x02; x03]
                             ++ [x14; x02; x00; x16; xaa; xbb])))
    by (vm_compute; eexists; reflexivity).
  destruct Hrun as [d' Hrun]. exists d'. split; [exact Hrun |].
  apply (frame_round_trip sample_hdlc ltac:(simpl; lia) whole_frame_reads
           initial_ingress d' [x01; x02; x03]
           [x14; x02; x00; x16; xaa; xbb]).
  - sample_inv.
  - reflexivity.
  - reflexivity.
  - intros io Hin frame. simpl in Hin.
    destruct Hin as [<- | [<- | [<- | []]]]; reflexivity.
  - split; vm_compute; reflexivity.
  - intros j Hj. simpl in Hj.
    assert (Hcases : j = 0 \/ j = 1 \/ j = 2) by lia.
    destruct Hcases as [-> | [-> | ->]]; reflexivity.
  - exact Hrun.
Defined.

Lemma batch_of_frames_is_forwarded_witness :
  exists d',
    driver_uart_process_uart sample_hdlc two_frames_read initial_ingress
    = Some (Ok d')
    /\ core_frames d' = [] ++ two_frames
    /\ state d' = EXPECTING_HEADER /\ buffer_head d' = 0.
Proof.
  assert (Hrun : exists d',
             driver_uart_process_uart sample_hdlc two_frames_read
               initial_ingress = Some (Ok d'))
    by (vm_compute; eexists; reflexivity).
  destruct Hrun as [d' Hrun]. exists d'. split; [exact Hrun |].
  apply (batch_of_frames_is_forwarded sample_hdlc ltac:(simpl; lia)
           two_frames_read initial_ingress d' two_frames).
  - sample_inv.
  - reflexivity.
  - reflexivity.
  - repeat constructor; vm_compute; reflexivity.
  - intros f. reflexivity.
  - vm_compute. reflexivity.
  - exact Hrun.
Defined.

(** * Further properties of the egress path *)

Section Draining.

Variable usec_of_bits : Z -> Z.

(** Against depths that are not zero followed by a zero, the drain loop
    polls up to that zero and no further. *)
Lemma drain_until_empty :
  forall (busy : list Z) (bytes_remaining : Z) (rest : list Z)
         (trace : list egress_event),
    bytes_remaining <> 0 -> Forall (fun depth => depth <> 0) busy ->
    drain_transmit_queue usec_of_bits (busy ++ 0 :: rest) bytes_remaining
      trace
    = (trace ++ drain_events usec_of_bits bytes_remaining (busy ++ [0]),
       true).
Proof.
  induction busy as [| depth busy IH]; intros b rest trace Hb Hbusy;
    cbn [app drain_transmit_queue drain_events].
  - destruct (Z.eqb_spec b 0) as [Hz | _]; [contradiction |].
    destruct rest; reflexivity.
  - destruct (Z.eqb_spec b 0) as [Hz | _]; [contradiction |].
    inversion Hbusy as [| x xs Hdepth Hbusy']; subst x xs.
    rewrite (IH depth rest _ Hdepth Hbusy'), <- app_assoc. reflexivity.
Qed.

(** Against depths none of which is zero, the drain loop uses them all up
    and is still running. *)
Lemma drain_never_empty :
  forall (polls : list Z) (bytes_remaining : Z)
         (trace : list egress_event),
    bytes_remaining <> 0 -> Forall (fun depth => depth <> 0) polls ->
    drain_transmit_queue usec_of_bits polls bytes_remaining trace
    = (trace ++ drain_events usec_of_bits bytes_remaining polls, false).
Proof.
  induction polls as [| depth polls IH]; intros b trace Hb Hpolls;
    cbn [drain_transmit_queue drain_events].
  - destruct (Z.eqb_spec b 0) as [Hz | _]; [contradiction |].
    rewrite app_nil_r. reflexivity.
  - destruct (Z.eqb_spec b 0) as [Hz | _]; [contradiction |].
    inversion Hpolls as [| x xs Hdepth Hpolls']; subst x xs.
    rewrite (IH depth _ Hdepth Hpolls'), <- app_assoc. reflexivity.
Qed.

Lemma drain_events_no_write (m : list byte) :
  forall (polls : list Z) (bytes_remaining : Z),
    ~ In (EvWriteUart m) (drain_events usec_of_bits bytes_remaining polls).
Proof.
  induction polls as [| depth polls IH]; intros b; simpl.
  - tauto.
  - intros [Hin | [Hin | Hin]]; try discriminate.
    exact (IH depth Hin).
Qed.

End Draining.

(** X20.  The sleep the driver computes for a queue depth, or for the 20
    idle bytes, with its two binary64 operations and its truncation: as
    long as the bit count is a positive [int] and the time fits an
    [unsigned int], the value is defined, and it is the exact time
    [bits * 1000000 / uart_bitrate] in microseconds with its fraction
    dropped, except that it may be one microsecond less when the exact time
    is a whole number of microseconds.  With a bit rate of zero the value
    is undefined. *)
Theorem time_usec_within_a_microsecond (uart_bitrate bits : Z) :
  0 < bits < 2 ^ 31 ->
  (0 < uart_bitrate < 2 ^ 32 ->
   bits * 1000000 < 2 ^ 32 * uart_bitrate ->
   exists usec,
     time_usec uart_bitrate bits = Some usec
     /\ (usec = bits * 1000000 / uart_bitrate
         \/ ((bits * 1000000) mod uart_bitrate = 0
             /\ usec = bits * 1000000 / uart_bitrate - 1)))
  /\ time_usec 0 bits = None.
Proof.
  intros Hbits. split.
  - intros Hrate Hfits.
    destruct (time_usec_near uart_bitrate bits Hrate Hbits Hfits)
      as (usec & Hdefined & Hlow & Hhigh).
    exists usec. split; [exact Hdefined |].
    destruct (Z.eq_dec (bits * 1000000) ((usec + 1) * uart_bitrate))
      as [Hwhole | Hpart].
    + right. rewrite Hwhole. rewrite Z.mod_mul, Z.div_mul by lia.
      split; [reflexivity | lia].
    + left. apply (Z.div_unique _ _ _ (bits * 1000000 - usec * uart_bitrate));
        lia.
  - unfold time_usec.
    destruct (Z.ltb_spec bits (- 2 ^ 31)) as [Hneg | _]; [lia |].
    destruct (Z.leb_spec (2 ^ 31) bits) as [Hbig | _]; [lia |].
    cbn [orb].
    destruct (digits_exist bits 31 Hbits ltac:(lia)) as (d & Hd & Hbd).
    destruct (double_of_Z_positive bits d Hbd ltac:(lia))
      as (m & -> & _ & _).
    reflexivity.
Qed.

Lemma time_usec_within_a_microsecond_witness :
  time_usec 115200 (1809 * 8) = Some 125624
  /\ (1809 * 8 * 1000000) mod 115200 = 0
  /\ 1809 * 8 * 1000000 / 115200 = 125625
  /\ time_usec 0 (1809 * 8) = None.
Proof.
  destruct (time_usec_within_a_microsecond 115200 (1809 * 8))
    as [Hnear Hzero]; [lia |].
  destruct (Hnear ltac:(lia) ltac:(lia)) as (usec & Hdefined & _).
  split; [| split; [reflexivity | split; [reflexivity | exact Hzero]]].
  rewrite Hdefined. vm_compute in Hdefined.
  inversion Hdefined. reflexivity.
Defined.

(** X8.  Whatever depths the transmit queue reports before it is first
    seen empty, growing or shrinking, [driver_uart_process_core] sleeps
    after each of them for the time the depth just seen takes at the
    configured bit rate, as the driver computes it: each sleep is at most
    that time, and less than it by one microsecond at most, provided the
    depth is positive, its bit count an [int] and the time an
    [unsigned int].  The driver makes no poll after the one that saw the
    queue empty, then sleeps the idle time of 20 bytes and writes the
    message read from the core, unchanged.  A complete write returns, a
    failed or short one is fatal. *)
Theorem egress_paces_on_observed_depth (uart_bitrate : Z)
    (usec_of_bits : Z -> Z) (io : core_syscalls) (msg : list byte)
    (busy rest : list Z) :
  In uart_bitrate supported_bitrates ->
  is_time_usec uart_bitrate usec_of_bits ->
  read_fd_core io = Some msg ->
  0 <= tiocoutq_retval io -> 0 < tiocoutq_first io ->
  Forall (fun depth => depth <> 0) busy ->
  tiocoutq_polls io = busy ++ 0 :: rest ->
  Z.of_nat (length msg) < 2 ^ 64 ->
  fst (driver_uart_process_core usec_of_bits io)
  = [EvReadCore msg; EvQueueDepth (tiocoutq_first io)]
      ++ drain_events usec_of_bits (tiocoutq_first io) (busy ++ [0])
      ++ [EvSleep (20 * 8 * 1000000 / uart_bitrate); EvWriteUart msg]
  /\ (forall depth,
        In depth (tiocoutq_first io :: busy) ->
        0 < depth -> depth * 8 < 2 ^ 31 ->
        depth * 8 * 1000000 < 2 ^ 32 * uart_bitrate ->
        usec_of_bits (depth * 8) * uart_bitrate
        <= depth * 8 * 1000000
        <= (usec_of_bits (depth * 8) + 1) * uart_bitrate)
  /\ (write_fd_uart io msg = Z.of_nat (length msg) ->
      snd (driver_uart_process_core usec_of_bits io) = Some (Ok tt))
  /\ (write_fd_uart io msg < Z.of_nat (length msg) ->
      snd (driver_uart_process_core usec_of_bits io) = Some Fatal).
Proof.
  intros Hrate Hcomputes Hread Hioctl Hfirst Hbusy Hpolls Hlen.
  rewrite <- (Hcomputes _ _ (idle_time_usec uart_bitrate Hrate)).
  assert (Hrange : 0 < uart_bitrate < 2 ^ 32).
  { unfold supported_bitrates in Hrate. simpl in Hrate.
    repeat (destruct Hrate as [Hrate | Hrate]; [lia |]). destruct Hrate. }
  unfold driver_uart_process_core. rewrite Hread, Hpolls.
  destruct (Z.ltb_spec (tiocoutq_retval io) 0); [lia |].
  destruct (Z.ltb_spec (tiocoutq_first io) 0); [lia |].
  rewrite drain_until_empty by (assumption || lia).
  split; [| split; [| split]].
  - destruct (write_fd_uart io msg <? 0);
      [| destruct (negb (size_t (write_fd_uart io msg)
                         =? size_t (Z.of_nat (length msg))))];
      cbn [fst]; rewrite <- !app_assoc; reflexivity.
  - intros depth _ Hpos Hint Hfits.
    destruct (time_usec_near uart_bitrate (depth * 8) Hrange
                ltac:(lia) Hfits) as (usec & Hdefined & Hnear).
    rewrite (Hcomputes _ _ Hdefined). exact Hnear.
  - intros Hfull. rewrite Hfull.
    destruct (Z.ltb_spec (Z.of_nat (length msg)) 0); [lia |].
    rewrite Z.eqb_refl. reflexivity.
  - intros Hshort.
    destruct (Z.ltb_spec (write_fd_uart io msg) 0); [reflexivity |].
    rewrite !size_t_small by lia.
    destruct (Z.eqb_spec (write_fd_uart io msg) (Z.of_nat (length msg)));
      [lia | reflexivity].
Qed.

Section Clogged.

Variable usec_of_bits : Z -> Z.

(** X9.  As long as no poll sees the transmit queue empty,
    [driver_uart_process_core] keeps sleeping and polling: it has not
    returned, it has slept once per poll and it has written nothing to the
    link. *)
Theorem egress_waits_while_queue_busy (io : core_syscalls)
    (msg : list byte) :
  read_fd_core io = Some msg ->
  0 <= tiocoutq_retval io -> 0 < tiocoutq_first io ->
  Forall (fun depth => depth <> 0) (tiocoutq_polls io) ->
  driver_uart_process_core usec_of_bits io
  = ([EvReadCore msg; EvQueueDepth (tiocoutq_first io)]
       ++ drain_events usec_of_bits (tiocoutq_first io) (tiocoutq_polls io),
     None)
  /\ forall m,
       ~ In (EvWriteUart m) (fst (driver_uart_process_core usec_of_bits io)).
Proof.
  intros Hread Hioctl Hfirst Hbusy.
  assert (Hrun :
    driver_uart_process_core usec_of_bits io
    = ([EvReadCore msg; EvQueueDepth (tiocoutq_first io)]
         ++ drain_events usec_of_bits (tiocoutq_first io)
              (tiocoutq_polls io), None)).
  { unfold driver_uart_process_core. rewrite Hread.
    destruct (Z.ltb_spec (tiocoutq_retval io) 0); [lia |].
    destruct (Z.ltb_spec (tiocoutq_first io) 0); [lia |].
    rewrite drain_never_empty by (assumption || lia). reflexivity. }
  split; [exact Hrun |].
  intros m. rewrite Hrun. cbn [fst]. intros Hin.
  apply in_app_or in Hin. destruct Hin as [Hin | Hin].
  - simpl in Hin. destruct Hin as [Hin | [Hin | []]]; discriminate.
  - exact (drain_events_no_write usec_of_bits m _ _ Hin).
Qed.

End Clogged.

Lemma egress_paces_on_observed_depth_witness :
  fst (driver_uart_process_core (usec_of_bits_at 115200) bursty_link)
  = [EvReadCore [x14; x00]; EvQueueDepth 3;
     EvSleep 208; EvQueueDepth 5; EvSleep 347; EvQueueDepth 1;
     EvSleep 69; EvQueueDepth 0; EvSleep 1388; EvWriteUart [x14; x00]]
  /\ usec_of_bits_at 115200 (5 * 8) * 115200
     <= 5 * 8 * 1000000
     <= (usec_of_bits_at 115200 (5 * 8) + 1) * 115200.
Proof.
  destruct (egress_paces_on_observed_depth 115200 (usec_of_bits_at 115200)
              bursty_link [x14; x00] [5; 1] [9]) as (Htrace & Hnear & _).
  - simpl. do 4 right. left. reflexivity.
  - apply usec_of_bits_at_is_time_usec.
  - reflexivity.
  - simpl. lia.
  - simpl. lia.
  - repeat constructor; discriminate.
  - reflexivity.
  - simpl. lia.
  - split; [exact Htrace |].
    apply (Hnear 5); [simpl; tauto | lia | lia | lia].
Defined.

Lemma egress_waits_while_queue_busy_witness :
  snd (driver_uart_process_core (usec_of_bits_at 115200) clogged_link)
  = None
  /\ forall m,
       ~ In (EvWriteUart m)
           (fst (driver_uart_process_core (usec_of_bits_at 115200)
                   clogged_link)).
Proof.
  destruct (egress_waits_while_queue_busy (usec_of_bits_at 115200)
              clogged_link
              [x14; x00]) as [Hrun Hquiet].
  - reflexivity.
  - simpl. lia.
  - simpl. lia.
  - repeat constructor; discriminate.
  - split; [rewrite Hrun; reflexivity | exact Hquiet].
Defined.

(** * Further properties of the dispatcher *)

Section Dispatching.

Variable EINTR : Z.
Variable S : Type.
Variable callback : driver_epoll_callback_t -> S -> result S.

(** X11.  Waits cut short by a signal leave no trace: the dispatcher does
    with a sequence of answers what it does with the same sequence without
    its interrupted waits. *)
Theorem interrupted_waits_are_invisible (answers : list epoll_answer)
    (s : S) :
  driver_thread_func EINTR S callback answers s
  = driver_thread_func EINTR S callback
      (filter (fun a => negb (interrupted EINTR a)) answers) s.
Proof.
  revert s. induction answers as [| a answers IH]; intros s;
    cbn [filter driver_thread_func].
  - reflexivity.
  - unfold interrupted at 1.
    destruct ((event_count a =? -1) && (errno a =? EINTR)) eqn:Hintr;
      cbn [negb]; [apply IH |].
    cbn [driver_thread_func]. rewrite Hintr.
    destruct (event_count a <? 0); [reflexivity |].
    destruct (event_count a =? 0); [reflexivity |].
    destruct (process_ready S callback
                (firstn (Z.to_nat (event_count a)) (events a)) s);
      [apply IH | reflexivity].
Qed.

Variable effect : driver_epoll_callback_t -> S -> S.

Lemma process_ready_all (ready : list driver_epoll_callback_t) :
  (forall cb s, callback cb s = Ok (effect cb s)) ->
  forall s,
    process_ready S callback ready s
    = Ok (fold_left (fun s cb => effect cb s) ready s).
Proof.
  intros Hok. induction ready as [| cb ready IH]; intros s; simpl.
  - reflexivity.
  - rewrite Hok. apply IH.
Qed.

(** X12.  When no callback dies and every wake-up is either an interrupted
    wait or reports at least one ready source, the dispatcher runs the
    callback of every ready source exactly once, in the order reported, and
    ends up waiting again. *)
Theorem callbacks_run_once_in_order (answers : list epoll_answer) (s : S) :
  (forall cb s, callback cb s = Ok (effect cb s)) ->
  Forall (fun a => interrupted EINTR a = true \/ 0 < event_count a)
    answers ->
  driver_thread_func EINTR S callback answers s
  = Waiting (fold_left (fun s cb => effect cb s)
               (flat_map ready_callbacks answers) s).
Proof.
  intros Hok Hanswers. revert s.
  induction Hanswers as [| a answers Ha _ IH]; intros s;
    cbn [flat_map driver_thread_func].
  - reflexivity.
  - rewrite fold_left_app. unfold interrupted in Ha.
    destruct ((event_count a =? -1) && (errno a =? EINTR)) eqn:Hintr.
    + apply andb_prop in Hintr. destruct Hintr as [Hcount _].
      apply Z.eqb_eq in Hcount. unfold ready_callbacks. rewrite Hcount.
      simpl. apply IH.
    + destruct Ha as [Ha | Ha]; [discriminate |].
      destruct (Z.ltb_spec (event_count a) 0); [lia |].
      destruct (Z.eqb_spec (event_count a) 0); [lia |].
      fold (ready_callbacks a).
      rewrite (process_ready_all (ready_callbacks a) Hok). apply IH.
Qed.

End Dispatching.

Lemma callbacks_run_once_in_order_witness :
  driver_thread_func linux_EINTR nat counting_callback busy_answers 0%nat
  = Waiting 2%nat.
Proof.
  apply (callbacks_run_once_in_order linux_EINTR nat counting_callback
           (fun _ n => Datatypes.S n) busy_answers 0%nat).
  - reflexivity.
  - repeat constructor; (left; reflexivity) || (right; simpl; lia).
Defined.

(** * Further properties of opening and initialising *)

(** X13.  The loop of [driver_uart_open] over its table is a lookup: the
    bit rates of the table are pairwise distinct, and over any table with
    pairwise distinct bit rates the loop ends with the symbol paired with
    the bit rate asked for when it is listed, and with the symbol it
    started with, the negative mark of an invalid bit rate in the driver,
    when it is not. *)
Theorem find_sym_bitrate_lookup (t : termios_h) :
  NoDup (map fst (conversion t))
  /\ forall (table : list (Z * Z)) (bitrate sym0 : Z),
       NoDup (map fst table) ->
       (forall symbolic, In (bitrate, symbolic) table ->
                         find_sym_bitrate table bitrate sym0 = symbolic)
       /\ (~ In bitrate (map fst table) ->
           find_sym_bitrate table bitrate sym0 = sym0).
Proof.
  split.
  - unfold conversion. cbn [map fst].
    repeat (constructor;
            [simpl; intros Hin;
             repeat (destruct Hin as [Hin | Hin]; [discriminate |]);
             exact Hin |]).
    constructor.
  - intros table bitrate sym0 Hdistinct.
    split; [| apply find_sym_bitrate_absent].
    revert sym0. induction table as [| [val sym] table IH];
      intros sym0 symbolic Hin.
    + destruct Hin.
    + cbn [map fst] in Hdistinct.
      inversion Hdistinct as [| x xs Hfresh Hdistinct']; subst x xs.
      cbn [find_sym_bitrate]. destruct Hin as [Hin | Hin].
      * inversion Hin; subst val sym. rewrite Z.eqb_refl.
        apply find_sym_bitrate_absent. exact Hfresh.
      * apply (IH Hdistinct'). exact Hin.
Qed.

Lemma find_sym_bitrate_lookup_witness :
  find_sym_bitrate (conversion linux_termios) 115200 (-1) = 4098
  /\ find_sym_bitrate (conversion linux_termios) 250000 (-1) = -1.
Proof.
  destruct (find_sym_bitrate_lookup linux_termios) as [Hdistinct Hlookup].
  destruct (Hlookup (conversion linux_termios) 115200 (-1) Hdistinct)
    as [Hlisted _].
  destruct (Hlookup (conversion linux_termios) 250000 (-1) Hdistinct)
    as [_ Habsent].
  split.
  - apply Hlisted. simpl. do 4 right. left. reflexivity.
  - apply Habsent. simpl.
    intros Hin. repeat (destruct Hin as [Hin | Hin]; [discriminate |]).
    exact Hin.
Defined.

(** ** Bits of the terminal flags *)

Lemma testbit_tcflag (z n : Z) :
  0 <= n -> Z.testbit (tcflag_t z) n = (n <? 32) && Z.testbit z n.
Proof.
  intros Hn. unfold tcflag_t.
  destruct (Z.ltb_spec n 32).
  - rewrite Z.mod_pow2_bits_low by lia. reflexivity.
  - rewrite Z.mod_pow2_bits_high by lia. reflexivity.
Qed.

Lemma testbit_small (z n : Z) :
  0 <= z < 2 ^ 32 -> 0 <= n ->
  Z.testbit z n = (n <? 32) && Z.testbit z n.
Proof.
  intros Hz Hn. rewrite <- testbit_tcflag by exact Hn.
  unfold tcflag_t. rewrite Z.mod_small by exact Hz. reflexivity.
Qed.

Lemma testbit_disjoint (a b n : Z) :
  Z.land a b = 0 -> 0 <= n -> Z.testbit a n && Z.testbit b n = false.
Proof.
  intros Hdisjoint Hn. rewrite <- Z.land_spec, Hdisjoint.
  apply Z.bits_0.
Qed.

(** Rewrites the bit [n] of a flag expression into a boolean formula. *)
Ltac flag_bits n Hn :=
  apply Z.bits_inj'; intros n Hn;
  repeat first
    [ rewrite Z.land_spec | rewrite Z.lor_spec
    | rewrite testbit_tcflag by exact Hn
    | rewrite Z.lnot_spec by exact Hn
    | rewrite Z.bits_0 ].

(** Settles a boolean formula over the bits at [n] by cases. *)
Ltac decide_bits n :=
  destruct (n <? 32);
  repeat match goal with
         | |- context [Z.testbit ?z n] => destruct (Z.testbit z n)
         end;
  try reflexivity; discriminate.

Section Flags.

Variable lib : termios_lib.
Variable b : termios_bits.

(** X14.  Whatever [tcgetattr] and the C library return and whatever the
    flag values are, the structure handed to [tcsetattr] has the bits of
    [IXON], [IXOFF] and [IXANY] cleared, [c_cc[VMIN]] equal to 1,
    [c_cc[VTIME]] equal to 0 when the two indices differ, and the bits of
    [CRTSCTS] cleared when hardware flow control is not asked for. *)
Theorem configure_tty_disables_flow_control (tty : termios)
    (sym_bitrate : Z) (hardflow : bool) :
  let tty' := configure_tty lib b tty sym_bitrate hardflow in
  Z.land (c_iflag tty') (IXON b) = 0
  /\ Z.land (c_iflag tty') (IXOFF b) = 0
  /\ Z.land (c_iflag tty') (IXANY b) = 0
  /\ c_cc tty' (VMIN b) = 1
  /\ (VTIME b <> VMIN b -> c_cc tty' (VTIME b) = 0)
  /\ (hardflow = false -> Z.land (c_cflag tty') (CRTSCTS b) = 0).
Proof.
  intros tty'. subst tty'. unfold configure_tty.
  set (raw := cfmakeraw lib _).
  repeat split.
  - destruct hardflow; cbn [c_iflag set_c_cflag set_c_iflag set_c_cc];
      flag_bits n Hn;
      decide_bits n.
  - destruct hardflow; cbn [c_iflag set_c_cflag set_c_iflag set_c_cc];
      flag_bits n Hn;
      decide_bits n.
  - destruct hardflow; cbn [c_iflag set_c_cflag set_c_iflag set_c_cc];
      flag_bits n Hn;
      decide_bits n.
  - destruct hardflow; cbn [c_cc set_c_cflag set_c_iflag set_c_cc];
      rewrite Z.eqb_refl; reflexivity.
  - intros Hdiffer.
    destruct hardflow; cbn [c_cc set_c_cflag set_c_iflag set_c_cc];
      (destruct (Z.eqb_spec (VTIME b) (VMIN b)); [contradiction |]);
      rewrite Z.eqb_refl; reflexivity.
  - intros ->. cbn [c_cflag set_c_cflag set_c_iflag set_c_cc].
    flag_bits n Hn.
    decide_bits n.
Qed.

(** X15.  When [CLOCAL] and [CRTSCTS] fit a [tcflag_t] and the bits of
    [HUPCL], [CLOCAL] and [CRTSCTS] do not overlap, the structure handed to
    [tcsetattr] has the bits of [CLOCAL] set and those of [HUPCL] cleared,
    and the bits of [CRTSCTS] set when hardware flow control is asked
    for. *)
Theorem configure_tty_line_control (tty : termios) (sym_bitrate : Z)
    (hardflow : bool) :
  0 <= CLOCAL b < 2 ^ 32 -> 0 <= CRTSCTS b < 2 ^ 32 ->
  Z.land (HUPCL b) (CLOCAL b) = 0 ->
  Z.land (HUPCL b) (CRTSCTS b) = 0 ->
  Z.land (CLOCAL b) (CRTSCTS b) = 0 ->
  let tty' := configure_tty lib b tty sym_bitrate hardflow in
  Z.land (c_cflag tty') (CLOCAL b) = CLOCAL b
  /\ Z.land (c_cflag tty') (HUPCL b) = 0
  /\ (hardflow = true -> Z.land (c_cflag tty') (CRTSCTS b) = CRTSCTS b).
Proof.
  intros Hclocal Hcrtscts Hhc Hhr Hcr tty'. subst tty'.
  unfold configure_tty. set (raw := cfmakeraw lib _).
  repeat split.
  - destruct hardflow; cbn [c_cflag set_c_cflag set_c_iflag set_c_cc];
      flag_bits n Hn;
      pose proof (testbit_small (CLOCAL b) n Hclocal Hn) as Hlow;
      pose proof (testbit_disjoint _ _ n Hcr Hn) as Hd;
      decide_bits n.
  - destruct hardflow; cbn [c_cflag set_c_cflag set_c_iflag set_c_cc];
      flag_bits n Hn;
      pose proof (testbit_disjoint _ _ n Hhc Hn) as Hd1;
      pose proof (testbit_disjoint _ _ n Hhr Hn) as Hd2;
      decide_bits n.
  - intros ->. cbn [c_cflag set_c_cflag set_c_iflag set_c_cc].
    flag_bits n Hn.
    pose proof (testbit_small (CRTSCTS b) n Hcrtscts Hn) as Hlow.
    decide_bits n.
Qed.

End Flags.

Lemma configure_tty_disables_flow_control_witness :
  c_cc (configure_tty idle_lib linux_bits all_set_tty 4098 false) 5 = 0
  /\ Z.land
       (c_cflag (configure_tty idle_lib linux_bits all_set_tty 4098 false))
       2147483648 = 0.
Proof.
  destruct (configure_tty_disables_flow_control idle_lib linux_bits
              all_set_tty 4098 false)
    as (_ & _ & _ & _ & Hvtime & Hcrtscts).
  split.
  - apply Hvtime. simpl. lia.
  - apply Hcrtscts. reflexivity.
Defined.

Lemma configure_tty_line_control_witness :
  Z.land (c_cflag (configure_tty idle_lib linux_bits all_set_tty 4098 true))
    2048 = 2048
  /\ Z.land
       (c_cflag (configure_tty idle_lib linux_bits all_set_tty 4098 true))
       1024 = 0
  /\ Z.land
       (c_cflag (configure_tty idle_lib linux_bits all_set_tty 4098 true))
       2147483648 = 2147483648.
Proof.
  destruct (configure_tty_line_control idle_lib linux_bits all_set_tty 4098
              true) as (Hclocal & Hhupcl & Hcrtscts).
  - simpl. lia.
  - simpl. lia.
  - reflexivity.
  - reflexivity.
  - reflexivity.
  - split; [exact Hclocal |]. split; [exact Hhupcl |].
    apply Hcrtscts. reflexivity.
Defined.

(** ** Initialisation *)

(** A descriptor is returned only for a listed bit rate. *)
Lemma driver_uart_open_returns (t : termios_h) (io : open_syscalls)
    (bitrate : Z) (hardflow : bool) (fd : Z) :
  driver_uart_open t io bitrate hardflow = Ok fd ->
  In bitrate supported_bitrates /\ fd = open_retval io /\ 0 <= fd.
Proof.
  intros Hopen. unfold driver_uart_open in Hopen.
  destruct (Z.ltb_spec (open_retval io) 0); [discriminate |].
  destruct (tcgetattr_retval io =? -1); [discriminate |].
  destruct (in_dec Z.eq_dec bitrate supported_bitrates) as [Hin | Hout].
  - destruct (find_sym_bitrate (conversion t) bitrate (-1) <? 0);
      [discriminate |].
    destruct (tcsetattr_retval io <? 0); [discriminate |].
    inversion Hopen; subst fd. repeat split; assumption.
  - rewrite find_sym_bitrate_absent in Hopen by exact Hout.
    discriminate.
Qed.

(** X16.  [driver_uart_init] asked for a bit rate that is not listed dies
    before it flushes the device or creates a socket pair, an epoll set or
    a thread.  When it returns, it has flushed the device it opened,
    created the socket pair and the epoll set, registered
    [driver_uart_process_core] for the socket it keeps and
    [driver_uart_process_uart] for the device, created and named the thread,
    in this order; the caller got the other socket of the pair; and the
    bit rate remembered for pacing is one of the listed ones, hence not
    zero. *)
Theorem driver_uart_init_contract (t : termios_h) (io : init_syscalls)
    (bitrate : Z) (hardflow : bool) :
  (~ In bitrate supported_bitrates ->
   driver_uart_init t io bitrate hardflow = ([], Fatal))
  /\ (forall g,
         snd (driver_uart_init t io bitrate hardflow) = Ok g ->
         fst (driver_uart_init t io bitrate hardflow)
         = [EvTcflush (fd_uart g); EvSocketpair; EvEpollCreate;
            EvEpollAdd (fd_epoll g) (fd_core g) callback_process_core;
            EvEpollAdd (fd_epoll g) (fd_uart g) callback_process_uart;
            EvThreadCreate; EvThreadSetName (drv_thread g)]
         /\ fd_core g = fst (fd_sockets io)
         /\ fd_to_core g = snd (fd_sockets io)
         /\ 0 <= fd_uart g /\ 0 <= fd_epoll g
         /\ uart_bitrate g = bitrate
         /\ In (uart_bitrate g) supported_bitrates
         /\ uart_bitrate g <> 0).
Proof.
  split.
  - intros Hout. unfold driver_uart_init.
    destruct (driver_uart_open t (uart_device io) bitrate hardflow)
      as [fd |] eqn:Hopen; [| reflexivity].
    destruct (driver_uart_open_returns t _ _ _ _ Hopen) as [Hin _].
    contradiction.
  - intros g Hinit. unfold driver_uart_init in *.
    destruct (driver_uart_open t (uart_device io) bitrate hardflow)
      as [fd |] eqn:Hopen; [| discriminate].
    destruct (driver_uart_open_returns t _ _ _ _ Hopen)
      as (Hin & _ & Hfd).
    destruct (socketpair_retval io <? 0); [discriminate |].
    destruct (Z.ltb_spec (epoll_create1_retval io) 0); [discriminate |].
    destruct (epoll_ctl_core_retval io <? 0); [discriminate |].
    destruct (epoll_ctl_uart_retval io <? 0); [discriminate |].
    destruct (negb (pthread_create_retval io =? 0)); [discriminate |].
    destruct (negb (pthread_setname_np_retval io =? 0)); [discriminate |].
    cbn [fst snd] in *. inversion Hinit; subst g.
    cbn [fd_uart fd_core fd_epoll drv_thread uart_bitrate fd_to_core].
    repeat split; try assumption; try reflexivity.
    intros ->. simpl in Hin.
    repeat (destruct Hin as [Hin | Hin]; [discriminate |]).
    exact Hin.
Qed.

Lemma driver_uart_init_contract_witness :
  driver_uart_init linux_termios good_system 250000 false = ([], Fatal)
  /\ exists g,
       snd (driver_uart_init linux_termios good_system 115200 false) = Ok g
       /\ fd_to_core g = 5 /\ uart_bitrate g <> 0.
Proof.
  split.
  - destruct (driver_uart_init_contract linux_termios good_system 250000
                false) as [Hout _].
    apply Hout. simpl.
    intros Hin. repeat (destruct Hin as [Hin | Hin]; [discriminate |]).
    exact Hin.
  - assert (Hinit : exists g,
               snd (driver_uart_init linux_termios good_system 115200 false)
               = Ok g)
      by (vm_compute; eexists; reflexivity).
    destruct Hinit as [g Hinit]. exists g. split; [exact Hinit |].
    destruct (driver_uart_init_contract linux_termios good_system 115200
                false) as [_ Hin].
    destruct (Hin g Hinit) as (_ & _ & Hto & _ & _ & _ & _ & Hnz).
    split; [exact Hto | exact Hnz].
Defined.

(** What [driver_uart_init] remembers of the bit rate. *)
Lemma driver_uart_init_bitrate (t : termios_h) (io : init_syscalls)
    (bitrate : Z) (hardflow : bool) (g : driver_globals) :
  snd (driver_uart_init t io bitrate hardflow) = Ok g ->
  uart_bitrate g = bitrate /\ In bitrate supported_bitrates.
Proof.
  intros Hinit. unfold driver_uart_init in Hinit.
  destruct (driver_uart_open t (uart_device io) bitrate hardflow)
    as [fd |] eqn:Hopen; [| discriminate].
  destruct (driver_uart_open_returns t _ _ _ _ Hopen) as (Hin & _).
  destruct (socketpair_retval io <? 0); [discriminate |].
  destruct (epoll_create1_retval io <? 0); [discriminate |].
  destruct (epoll_ctl_core_retval io <? 0); [discriminate |].
  destruct (epoll_ctl_uart_retval io <? 0); [discriminate |].
  destruct (negb (pthread_create_retval io =? 0)); [discriminate |].
  destruct (negb (pthread_setname_np_retval io =? 0)); [discriminate |].
  cbn [snd] in Hinit. inversion Hinit. split; [reflexivity | exact Hin].
Qed.

(** X21.  Initialisation protects the pacing of the egress path.  Once
    [driver_uart_init] has returned, the bit rate it stored is the one it
    was asked for and divides safely: the idle sleep computed from it is
    defined and is [160 * 1000000 / bitrate] microseconds, and the sleep
    computed for any positive queue depth is defined as long as the bit
    count is an [int] and the time fits an [unsigned int]. *)
Theorem sleeps_defined_after_init (t : termios_h) (io : init_syscalls)
    (bitrate : Z) (hardflow : bool) (g : driver_globals) :
  snd (driver_uart_init t io bitrate hardflow) = Ok g ->
  uart_bitrate g = bitrate
  /\ time_usec (uart_bitrate g) (20 * 8)
     = Some (20 * 8 * 1000000 / bitrate)
  /\ forall depth,
       0 < depth -> depth * 8 < 2 ^ 31 ->
       depth * 8 * 1000000 < 2 ^ 32 * bitrate ->
       time_usec (uart_bitrate g) (depth * 8) <> None.
Proof.
  intros Hinit.
  destruct (driver_uart_init_bitrate t io bitrate hardflow g Hinit)
    as [Hstored Hlisted].
  rewrite Hstored. split; [reflexivity |].
  split; [exact (idle_time_usec bitrate Hlisted) |].
  intros depth Hpos Hint Hfits.
  assert (Hrange : 0 < bitrate < 2 ^ 32).
  { unfold supported_bitrates in Hlisted. simpl in Hlisted.
    repeat (destruct Hlisted as [Hlisted | Hlisted]; [lia |]).
    destruct Hlisted. }
  destruct (time_usec_near bitrate (depth * 8) Hrange ltac:(lia) Hfits)
    as (usec & Hdefined & _).
  rewrite Hdefined. discriminate.
Qed.

Lemma sleeps_defined_after_init_witness :
  exists g,
    snd (driver_uart_init linux_termios good_system 115200 false) = Ok g
    /\ time_usec (uart_bitrate g) (20 * 8) = Some 1388
    /\ time_usec (uart_bitrate g) (4103 * 8) <> None.
Proof.
  assert (Hinit : exists g,
             snd (driver_uart_init linux_termios good_system 115200 false)
             = Ok g)
    by (vm_compute; eexists; reflexivity).
  destruct Hinit as [g Hinit]. exists g. split; [exact Hinit |].
  destruct (sleeps_defined_after_init linux_termios good_system 115200
              false g Hinit) as (_ & Hidle & Hdepth).
  split; [exact Hidle |]. apply Hdepth; lia.
Defined.

(** * The count of bytes the link holds *)

(** X22.  [available_bytes] keeps its stale high half when [FIONREAD]
    stores the count.  If that half is zero the invocation is the one of
    a well-behaved link.  If it is not, the driver takes the link to hold
    more than [2 ^ 32] bytes and asks [read] for all the space left in its
    array; unless the link really holds that many bytes, [read] returns
    fewer than asked and the driver dies. *)
Theorem stale_high_half_is_fatal (c : hdlc) (d : uart_ingress)
    (stale : Z) (pending : list byte) (wr : list byte -> Z) :
  0 < SLI_CPC_HDLC_HEADER_RAW_SIZE c < 2 ^ 32 ->
  ingress_inv c d ->
  0 < Z.of_nat (length pending) < 2 ^ 31 ->
  (size_t stale < 2 ^ 32 ->
   driver_uart_process_uart c (stale_link_syscalls stale pending wr) d
   = driver_uart_process_uart c (link_syscalls pending wr) d)
  /\ (2 ^ 32 <= size_t stale ->
      Z.of_nat (length pending) < UART_BUFFER_SIZE c - buffer_head d ->
      driver_uart_process_uart c (stale_link_syscalls stale pending wr) d
      = Some Fatal).
Proof.
  intros Hraw [Hlen Hhead] Hpending.
  pose proof (size_t_range stale) as Hstale. split.
  - intros Hclean. f_equal. unfold stale_link_syscalls, link_syscalls.
    f_equal. unfold available_bytes_after.
    rewrite Z.div_small, Z.mod_small by lia. lia.
  - intros Hdirty Hfew. unfold driver_uart_process_uart.
    assert (Hhigh : 1 <= size_t stale / 2 ^ 32 < 2 ^ 32).
    { split.
      - apply Z.div_le_lower_bound; lia.
      - apply Z.div_lt_upper_bound; lia. }
    pose proof (Z.mod_pos_bound (Z.of_nat (length pending)) (2 ^ 32)
                  ltac:(lia)) as Hlow.
    assert (Havailable :
      2 ^ 32 <= size_t (available_bytes_after stale
                          (Z.of_nat (length pending)))).
    { unfold available_bytes_after. rewrite size_t_small; nia. }
    unfold read_and_append_uart_received_data.
    cbn [fionread_retval fionread_bytes malloc_ok read_fd_uart
         stale_link_syscalls].
    destruct (Z.ltb_spec 0 0); [lia |].
    set (available := size_t (available_bytes_after stale
                                (Z.of_nat (length pending)))) in *.
    destruct (Z.eqb_spec available 0); [lia |].
    rewrite (size_t_small (UART_BUFFER_SIZE c - buffer_head d))
      by (unfold UART_BUFFER_SIZE in *; lia).
    cbn [negb].
    set (asked := if available <? UART_BUFFER_SIZE c - buffer_head d
                  then available
                  else UART_BUFFER_SIZE c - buffer_head d).
    assert (Hasked : Z.of_nat (length pending) < asked).
    { unfold asked.
      destruct (Z.ltb_spec available (UART_BUFFER_SIZE c - buffer_head d));
        lia. }
    assert (Hshort : Z.of_nat (length (sub_array pending 0 asked))
                     = Z.of_nat (length pending)).
    { unfold sub_array. rewrite length_firstn, length_skipn. lia. }
    rewrite Hshort.
    destruct (Z.eqb_spec (Z.of_nat (length pending)) asked); [lia |].
    reflexivity.
Qed.

Lemma stale_high_half_is_fatal_witness :
  driver_uart_process_uart sample_hdlc
    (stale_link_syscalls (2 ^ 32) [x14; x00; x00; x14] write_all)
    initial_ingress
  = Some Fatal
  /\ exists d',
       driver_uart_process_uart sample_hdlc
         (stale_link_syscalls 0 [x14; x00; x00; x14] write_all)
         initial_ingress
       = Some (Ok d')
       /\ core_frames d' = [[x14; x00; x00; x14]].
Proof.
  split.
  - destruct (stale_high_half_is_fatal sample_hdlc initial_ingress (2 ^ 32)
                [x14; x00; x00; x14] write_all) as [_ Hdirty].
    + simpl. lia.
    + sample_inv.
    + simpl. lia.
    + apply Hdirty.
      * vm_compute. discriminate.
      * vm_compute. reflexivity.
  - destruct (stale_high_half_is_fatal sample_hdlc initial_ingress 0
                [x14; x00; x00; x14] write_all) as [Hclean _].
    + simpl. lia.
    + sample_inv.
    + simpl. lia.
    + rewrite Hclean by (vm_compute; reflexivity).
      vm_compute. eexists. split; reflexivity.
Defined.

(** * Bytes on their way to the core *)

Section Subsequences.

Context {A : Type}.

Lemma subseq_refl (l : list A) : subseq l l.
Proof. induction l; constructor; assumption. Qed.

Lemma subseq_skipn (n : nat) (l : list A) : subseq (skipn n l) l.
Proof.
  revert l. induction n as [| n IH]; intros l.
  - apply subseq_refl.
  - destruct l as [| x l]; [apply subseq_nil |]. simpl.
    apply subseq_skip. apply IH.
Qed.

Lemma subseq_app (a b c d : list A) :
  subseq a b -> subseq c d -> subseq (a ++ c) (b ++ d).
Proof.
  intros Hab Hcd. induction Hab; simpl.
  - exact Hcd.
  - apply subseq_skip. assumption.
  - apply subseq_keep. assumption.
Qed.

Lemma subseq_trans (l1 l2 l3 : list A) :
  subseq l1 l2 -> subseq l2 l3 -> subseq l1 l3.
Proof.
  intros H12 H23. revert l1 H12.
  induction H23 as [| x l2 l3 H23 IH | x l2 l3 H23 IH]; intros l1 H12.
  - exact H12.
  - apply subseq_skip. apply IH. exact H12.
  - inversion H12 as [| y m1 m2 Hm | y m1 m2 Hm]; subst.
    + apply subseq_skip. apply IH. exact Hm.
    + apply subseq_keep. apply IH. exact Hm.
Qed.

End Subsequences.

Section Conservation.

Variable c : hdlc.
Hypothesis header_size : 0 < SLI_CPC_HDLC_HEADER_RAW_SIZE c < 2 ^ 32.

(** The bytes held from offset [k] on. *)
Lemma held_tail (d : uart_ingress) (k : Z) :
  ingress_inv c d -> 0 <= k <= buffer_head d ->
  sub_array (buffer d) k (buffer_head d - k)
  = skipn (Z.to_nat k) (buffered d).
Proof.
  intros Hinv Hk. rewrite <- (sub_array_buffered d k) by lia.
  rewrite <- (length_buffered c d Hinv). apply sub_array_to_end. lia.
Qed.

(** What a turn writes to the core, followed by what it keeps, is what was
    held with some bytes left out. *)
Lemma uart_iteration_conserves (io : uart_syscalls) (d d' : uart_ingress)
    (again : bool) :
  ingress_inv c d ->
  uart_iteration c io d = Ok (again, d') ->
  exists new,
    core_frames d' = core_frames d ++ new
    /\ subseq (concat new ++ buffered d') (buffered d).
Proof.
  intros Hinv Hturn.
  destruct (ingress_inv_bounds c header_size d Hinv) as [Hhead Hlen].
  unfold uart_iteration in Hturn.
  destruct (state d) eqn:Hstate.
  - destruct (header_re_synch c (buffer d) (buffer_head d))
      as [[synched buf'] head'] eqn:Hpass.
    destruct (header_re_synch_keeps_suffix c header_size _ _ _ _ _
                Hhead Hlen Hpass)
      as (_ & k & Hk & Hhead' & Hkept & _).
    exists []. rewrite app_nil_r. cbn [concat app].
    assert (Hsub : subseq (sub_array buf' 0 head') (buffered d)).
    { rewrite Hkept, Hhead', (held_tail d k Hinv Hk). apply subseq_skipn. }
    destruct synched; inversion Hturn; subst d';
      (split; [reflexivity | exact Hsub]).
  - destruct (delimit_and_push_frames_to_core c io (buffer d)
                (buffer_head d) (core_frames d))
      as [[[[pushed buf'] head'] core'] |] eqn:Hcall; [| discriminate].
    destruct (delimit_keeps_suffix c header_size _ _ _ _ _ _ _ _
                Hhead Hlen Hcall)
      as (_ & k & Hk & Hhead' & Hkept & Hpushed & Hwait).
    destruct pushed; inversion Hturn; subst d'; clear Hturn;
      cbn [core_frames].
    + destruct (Hpushed eq_refl) as [Hpos ->].
      eexists. split; [reflexivity |].
      cbn [concat]. rewrite app_nil_r.
      unfold buffered at 1. cbn [buffer buffer_head].
      rewrite Hkept, Hhead', (held_tail d k Hinv Hk).
      rewrite <- (sub_array_buffered d 0 k) by lia.
      rewrite sub_array_0, firstn_skipn. apply subseq_refl.
    + destruct (Hwait eq_refl) as (-> & -> & ->).
      exists []. rewrite app_nil_r. split; [reflexivity |].
      cbn [concat app]. unfold buffered. cbn [buffer buffer_head].
      rewrite Z.sub_0_r in Hhead'. rewrite Hhead'. apply subseq_refl.
Qed.

Lemma uart_loop_conserves (io : uart_syscalls) :
  forall (fuel : nat) (d d' : uart_ingress),
    ingress_inv c d -> uart_loop c fuel io d = Some (Ok d') ->
    exists new,
      core_frames d' = core_frames d ++ new
      /\ subseq (concat new ++ buffered d') (buffered d).
Proof.
  induction fuel as [| fuel IH]; intros d d' Hinv Hrun; simpl in Hrun.
  - discriminate.
  - destruct (uart_iteration c io d) as [[again d1] |] eqn:Hturn;
      [| discriminate].
    destruct (uart_iteration_conserves io d d1 again Hinv Hturn)
      as (new1 & Hcore1 & Hsub1).
    destruct again.
    + destruct (uart_iteration_step c header_size io d d1 true Hinv Hturn)
        as (Hinv1 & _).
      destruct (IH d1 d' Hinv1 Hrun) as (new2 & Hcore2 & Hsub2).
      exists (new1 ++ new2).
      split; [rewrite Hcore2, Hcore1, app_assoc; reflexivity |].
      rewrite concat_app, <- app_assoc.
      apply (subseq_trans _ (concat new1 ++ buffered d1)); [| exact Hsub1].
      apply subseq_app; [apply subseq_refl | exact Hsub2].
    + inversion Hrun; subst d1. exists new1. split; assumption.
Qed.

(** X17.  Over any number of invocations, the datagrams written to the
    core, laid end to end and followed by the bytes still held, are the
    bytes held at first followed by the bytes read, with some of them left
    out: no byte is made up, repeated or moved ahead of an earlier one. *)
Theorem forwarded_bytes_keep_their_order :
  forall (ios : list uart_syscalls) (d d' : uart_ingress) (s : list byte),
    ingress_inv c d ->
    uart_calls c ios d = Some (Ok (d', s)) ->
    exists new,
      core_frames d' = core_frames d ++ new
      /\ subseq (concat new ++ buffered d') (buffered d ++ s).
Proof.
  induction ios as [| io ios IH]; intros d d' s Hinv Hrun; simpl in Hrun.
  - inversion Hrun; subst d' s. exists [].
    rewrite !app_nil_r. split; [reflexivity | apply subseq_refl].
  - destruct (driver_uart_process_uart c io d) as [[d1 |] |] eqn:Hcall;
      try discriminate.
    destruct (uart_calls c ios d1) as [[[d2 later] |] |] eqn:Hrest;
      try discriminate.
    inversion Hrun; subst d2 s. clear Hrun.
    pose proof (driver_uart_process_uart_inv c header_size io d d1 Hinv
                  Hcall) as Hinv1.
    destruct (driver_uart_process_uart_steps c header_size io d d1 Hinv
                Hcall) as (buf0 & fuel & Hinv0 & Hheld0 & Hloop).
    destruct (uart_loop_conserves io fuel _ d1 Hinv0 Hloop)
      as (new1 & Hcore1 & Hsub1).
    cbn [core_frames] in Hcore1. rewrite Hheld0 in Hsub1.
    destruct (IH d1 d' later Hinv1 Hrest) as (new2 & Hcore2 & Hsub2).
    exists (new1 ++ new2).
    split; [rewrite Hcore2, Hcore1, app_assoc; reflexivity |].
    rewrite concat_app, <- app_assoc.
    apply (subseq_trans _ (concat new1 ++ buffered d1 ++ later)).
    + apply subseq_app; [apply subseq_refl | exact Hsub2].
    + rewrite !app_assoc. apply subseq_app; [| apply subseq_refl].
      exact Hsub1.
Qed.

End Conservation.

(** * Bytes beyond the cursor *)

Section Stale.

Variable c : hdlc.
Hypothesis header_size : 0 < SLI_CPC_HDLC_HEADER_RAW_SIZE c < 2 ^ 32.

(** Blocks within the bytes held are the same in both states. *)
Lemma same_block (d1 d2 : uart_ingress) (j n : Z) :
  same_held d1 d2 -> 0 <= j -> 0 <= n -> j + n <= buffer_head d1 ->
  sub_array (buffer d1) j n = sub_array (buffer d2) j n.
Proof.
  intros (Hhead & _ & _ & Hheld) Hj Hn Hfit.
  rewrite <- (sub_array_buffered d1 j n) by lia.
  rewrite <- (sub_array_buffered d2 j n) by lia.
  rewrite Hheld. reflexivity.
Qed.

(** How two outcomes of a turn, or of an invocation, correspond. *)
Lemma uart_iteration_same_held (io : uart_syscalls) (d1 d2 : uart_ingress) :
  ingress_inv c d1 -> ingress_inv c d2 -> same_held d1 d2 ->
  match uart_iteration c io d1, uart_iteration c io d2 with
  | Ok (again1, e1), Ok (again2, e2) => again1 = again2 /\ same_held e1 e2
  | Fatal, Fatal => True
  | _, _ => False
  end.
Proof.
  intros Hinv1 Hinv2 Hsame.
  pose proof Hsame as (Hhead & Hstate & Hcore & Hheld).
  destruct (ingress_inv_bounds c header_size d1 Hinv1) as [Hb1 Hl1].
  destruct (ingress_inv_bounds c header_size d2 Hinv2) as [Hb2 Hl2].
  assert (Hwindow : forall j,
             0 <= j ->
             j + SLI_CPC_HDLC_HEADER_RAW_SIZE c <= buffer_head d1 ->
             header_at c (buffer d1) j = header_at c (buffer d2) j).
  { intros j Hj Hfit. unfold header_at. apply same_block; (assumption || lia). }
  unfold uart_iteration. rewrite <- Hstate, <- Hcore, <- Hhead.
  destruct (state d1).
  - destruct (header_re_synch_outcome c header_size (buffer d1)
                (buffer_head d1) Hb1 Hl1)
      as [(Hshort & Hres) | [(Henough & Hbad & b1 & Hres & _ & Hblock)
         | (k & b1 & Hk & Hfit & Hfirst & Hgood & Hres & _ & Hblock & _)]];
      rewrite Hres.
    + rewrite (header_re_synch_short c (buffer d2) (buffer_head d1))
        by exact Hshort.
      split; [reflexivity |]. unfold same_held, buffered.
      cbn [buffer buffer_head state core_frames].
      repeat split; try reflexivity.
      apply same_block; (assumption || lia).
    + rewrite (header_re_synch_none c header_size (buffer d2)
                 (buffer_head d1)); [| lia |].
      2:{ intros j Hj. rewrite <- Hwindow by lia. apply Hbad. exact Hj. }
      split; [reflexivity |]. repeat split; try reflexivity.
      unfold buffered. cbn [buffer buffer_head].
      rewrite Hblock, memmove_front_block by lia.
      apply same_block; (assumption || lia).
    + destruct (header_re_synch_found_block c header_size (buffer d2)
                  (buffer_head d1) k) as (b2 & Hres2 & _ & Hblock2);
        [lia | lia | lia | lia | | |].
      { intros j Hj. rewrite <- Hwindow by lia. apply Hfirst. exact Hj. }
      { rewrite <- Hwindow by lia. exact Hgood. }
      rewrite Hres2. split; [reflexivity |]. repeat split; try reflexivity.
      unfold buffered. cbn [buffer buffer_head].
      rewrite Hblock, Hblock2. apply same_block; (assumption || lia).
  - unfold delimit_and_push_frames_to_core.
    destruct (Z.ltb_spec (buffer_head d1) (SLI_CPC_HDLC_HEADER_RAW_SIZE c)).
    { split; [reflexivity |]. unfold same_held, buffered.
      cbn [buffer buffer_head state core_frames].
      repeat split; try reflexivity.
      apply same_block; (assumption || lia). }
    fold (header_at c (buffer d1) 0). fold (header_at c (buffer d2) 0).
    rewrite <- (Hwindow 0) by lia.
    pose proof (uint16_t_range
                  (hdlc_get_length c (header_at c (buffer d1) 0))) as Hpl.
    rewrite size_t_small by lia.
    set (frame_size := uint16_t (hdlc_get_length c
                                   (header_at c (buffer d1) 0))
                       + SLI_CPC_HDLC_HEADER_RAW_SIZE c) in *.
    rewrite Z.gtb_ltb.
    destruct (Z.ltb_spec (buffer_head d1) frame_size).
    { split; [reflexivity |]. unfold same_held, buffered.
      cbn [buffer buffer_head state core_frames].
      repeat split; try reflexivity.
      apply same_block; (assumption || lia). }
    rewrite <- (same_block d1 d2 0 frame_size Hsame) by lia.
    destruct (write_fd_core io (sub_array (buffer d1) 0 frame_size) <? 0);
      [exact I |].
    destruct (negb (size_t (write_fd_core io
                              (sub_array (buffer d1) 0 frame_size))
                    =? frame_size)); [exact I |].
    rewrite size_t_small by lia.
    split; [reflexivity |]. repeat split; try reflexivity.
    unfold buffered. cbn [buffer buffer_head].
    rewrite !memmove_front_block by lia.
    apply same_block; (assumption || lia).
Qed.

Lemma uart_loop_same_held (io : uart_syscalls) :
  forall (fuel : nat) (d1 d2 : uart_ingress),
    ingress_inv c d1 -> ingress_inv c d2 -> same_held d1 d2 ->
    match uart_loop c fuel io d1, uart_loop c fuel io d2 with
    | Some (Ok e1), Some (Ok e2) => same_held e1 e2
    | Some Fatal, Some Fatal => True
    | None, None => True
    | _, _ => False
    end.
Proof.
  induction fuel as [| fuel IH]; intros d1 d2 Hinv1 Hinv2 Hsame; simpl.
  - exact I.
  - pose proof (uart_iteration_same_held io d1 d2 Hinv1 Hinv2 Hsame)
      as Hturn.
    destruct (uart_iteration c io d1) as [[again1 e1] |] eqn:Hturn1;
      destruct (uart_iteration c io d2) as [[again2 e2] |] eqn:Hturn2;
      try contradiction; [| exact I].
    destruct Hturn as [<- Hsame'].
    destruct again1; [| exact Hsame'].
    destruct (uart_iteration_step c header_size io d1 e1 true Hinv1 Hturn1)
      as (Hinv1' & _).
    destruct (uart_iteration_step c header_size io d2 e2 true Hinv2 Hturn2)
      as (Hinv2' & _).
    apply IH; assumption.
Qed.

(** X18.  The bytes of the array beyond the cursor never matter: started
    from two states that hold the same bytes, whatever lies beyond them, an
    invocation either dies in both or returns in both with the same state,
    the same cursor, the same datagrams written to the core and the same
    bytes held. *)
Theorem stale_bytes_never_matter (io : uart_syscalls)
    (d1 d2 : uart_ingress) :
  ingress_inv c d1 -> ingress_inv c d2 -> same_held d1 d2 ->
  match driver_uart_process_uart c io d1,
        driver_uart_process_uart c io d2 with
  | Some (Ok e1), Some (Ok e2) => same_held e1 e2
  | Some Fatal, Some Fatal => True
  | _, _ => False
  end.
Proof.
  intros Hinv1 Hinv2 Hsame.
  pose proof Hsame as (Hhead & Hstate & Hcore & Hheld).
  destruct (driver_uart_process_uart_returns c header_size io d1 Hinv1)
    as [r1 Hr1].
  destruct (driver_uart_process_uart_returns c header_size io d2 Hinv2)
    as [r2 Hr2].
  rewrite Hr1, Hr2. unfold driver_uart_process_uart in Hr1, Hr2.
  destruct (read_and_append_uart_received_data io (buffer d1)
              (buffer_head d1) (UART_BUFFER_SIZE c))
    as [[buf1 n1] |] eqn:Hcall1;
    destruct (read_and_append_uart_received_data io (buffer d2)
                (buffer_head d2) (UART_BUFFER_SIZE c))
      as [[buf2 n2] |] eqn:Hcall2.
  - destruct (append_inv c header_size io d1 buf1 n1 Hinv1 Hcall1)
      as (Hsz1 & _ & Hinv1').
    destruct (append_inv c header_size io d2 buf2 n2 Hinv2 Hcall2)
      as (Hsz2 & _ & Hinv2').
    destruct (read_and_append_spec c header_size io _ _ _ _
                (proj2 Hinv1) (proj1 Hinv1) Hcall1)
      as (Hn1 & _ & _ & data1 & Hread1 & Hdata1 & Hblock1).
    destruct (read_and_append_spec c header_size io _ _ _ _
                (proj2 Hinv2) (proj1 Hinv2) Hcall2)
      as (Hn2 & _ & _ & data2 & Hread2 & Hdata2 & Hblock2).
    assert (Hn : n2 = n1) by (rewrite Hn1, Hn2, Hhead; reflexivity).
    clear Hn1 Hn2. rewrite Hn in *. clear Hn.
    rewrite Hread1 in Hread2. inversion Hread2; subst data2.
    rewrite Hsz1 in Hr1. rewrite Hsz2, <- Hhead, <- Hstate, <- Hcore in Hr2.
    rewrite <- Hhead in Hinv2', Hblock2.
    rewrite <- Hstate, <- Hcore in Hinv2'.
    match type of Hr1 with uart_loop _ ?f _ ?e1 = _ =>
      match type of Hr2 with uart_loop _ _ _ ?e2 = _ =>
        pose proof (uart_loop_same_held io f e1 e2 Hinv1' Hinv2') as Hloop
      end
    end.
    rewrite Hr1, Hr2 in Hloop. apply Hloop.
    repeat split; try reflexivity.
    unfold buffered. cbn [buffer buffer_head].
    rewrite Hblock1, Hblock2. f_equal.
    pose proof (proj2 Hinv1) as Hcap.
    apply (same_block d1 d2 0 (buffer_head d1) Hsame); lia.
  - exfalso. revert Hcall1 Hcall2.
    unfold read_and_append_uart_received_data. rewrite <- Hhead.
    destruct (fionread_retval io <? 0); [discriminate |].
    destruct (size_t (fionread_bytes io) =? 0); [discriminate |].
    match goal with |- context [malloc_ok io ?n] =>
      destruct (malloc_ok io n); [| discriminate];
      destruct (read_fd_uart io n) as [data |]; [| discriminate];
      destruct (negb (Z.of_nat (length data) =? n)); discriminate
    end.
  - exfalso. revert Hcall1 Hcall2.
    unfold read_and_append_uart_received_data. rewrite <- Hhead.
    destruct (fionread_retval io <? 0); [discriminate |].
    destruct (size_t (fionread_bytes io) =? 0); [discriminate |].
    match goal with |- context [malloc_ok io ?n] =>
      destruct (malloc_ok io n); [| discriminate];
      destruct (read_fd_uart io n) as [data |]; [| discriminate];
      destruct (negb (Z.of_nat (length data) =? n)); discriminate
    end.
  - inversion Hr1; inversion Hr2. exact I.
Qed.

End Stale.

(** * A core that does not take a whole datagram *)

Section ShortWrite.

Variable c : hdlc.
Hypothesis header_size : 0 < SLI_CPC_HDLC_HEADER_RAW_SIZE c < 2 ^ 32.

(** A whole frame at the start of the bytes held: its size and bytes as the
    array shows them. *)
Lemma leading_frame (d : uart_ingress) (frame rest : list byte) :
  ingress_inv c d -> buffered d = frame ++ rest -> well_framed c frame ->
  uint16_t (hdlc_get_length c (header_at c (buffer d) 0))
  + SLI_CPC_HDLC_HEADER_RAW_SIZE c = Z.of_nat (length frame)
  /\ sub_array (buffer d) 0 (Z.of_nat (length frame)) = frame
  /\ Z.of_nat (length frame) <= buffer_head d.
Proof.
  intros Hinv Hheld Hwf.
  pose proof (well_framed_length c frame Hwf) as Hflen.
  pose proof (length_buffered c d Hinv) as Hhead.
  rewrite Hheld, length_app in Hhead.
  assert (Hhdr : header_at c (buffer d) 0 = header_at c frame 0).
  { rewrite (header_at_buffered c header_size d 0) by lia.
    rewrite Hheld. apply (header_at_leading_frame c header_size).
    exact Hflen. }
  destruct Hwf as [_ Hsize].
  split; [rewrite Hhdr; lia |]. split; [| lia].
  rewrite <- (sub_array_buffered d 0) by lia.
  rewrite Hheld, sub_array_0, Nat2Z.id, firstn_app, Nat.sub_diag.
  rewrite firstn_all, firstn_O, app_nil_r. reflexivity.
Qed.

(** With a whole frame held and a core that takes less than all of it,
    payload delimiting is fatal. *)
Lemma delimit_short_write (io : uart_syscalls) (buf : list byte) (head : Z)
    (core : list (list byte)) :
  0 <= head < 2 ^ 64 ->
  let frame_size :=
    uint16_t (hdlc_get_length c (header_at c buf 0))
    + SLI_CPC_HDLC_HEADER_RAW_SIZE c in
  frame_size <= head ->
  write_fd_core io (sub_array buf 0 frame_size) < frame_size ->
  delimit_and_push_frames_to_core c io buf head core = Fatal.
Proof.
  intros Hhead frame_size Hwhole Hwrite.
  pose proof (uint16_t_range (hdlc_get_length c (header_at c buf 0))) as Hpl.
  assert (Hfs : size_t (uint16_t (hdlc_get_length c (header_at c buf 0))
                        + SLI_CPC_HDLC_HEADER_RAW_SIZE c) = frame_size)
    by (apply size_t_small; unfold frame_size; lia).
  unfold delimit_and_push_frames_to_core.
  destruct (Z.ltb_spec head (SLI_CPC_HDLC_HEADER_RAW_SIZE c));
    [unfold frame_size in Hwhole; lia |].
  fold (header_at c buf 0). rewrite Hfs, Z.gtb_ltb.
  destruct (Z.ltb_spec head frame_size); [lia |].
  destruct (Z.ltb_spec (write_fd_core io (sub_array buf 0 frame_size)) 0);
    [reflexivity |].
  rewrite size_t_small by lia.
  destruct (Z.eqb_spec (write_fd_core io (sub_array buf 0 frame_size))
              frame_size); [lia | reflexivity].
Qed.

(** X19.  When the read of an invocation brings a whole frame to a
    synchronizer that holds nothing, and the core takes less than the whole
    frame or refuses it, the invocation is fatal: the frame is neither
    dropped nor kept for another try. *)
Theorem short_core_write_is_fatal (io : uart_syscalls) (d : uart_ingress)
    (frame rest : list byte) :
  ingress_inv c d -> state d = EXPECTING_HEADER -> buffer_head d = 0 ->
  well_framed c frame ->
  bytes_read c io d = frame ++ rest ->
  write_fd_core io frame < Z.of_nat (length frame) ->
  driver_uart_process_uart c io d = Some Fatal.
Proof.
  intros Hinv Hstate Hempty Hwf Hbytes Hwrite.
  unfold driver_uart_process_uart. unfold bytes_read in Hbytes.
  destruct (read_and_append_uart_received_data io (buffer d)
              (buffer_head d) (UART_BUFFER_SIZE c))
    as [[buf1 appended] |] eqn:Hcall; [| reflexivity].
  destruct (append_inv c header_size io d buf1 appended Hinv Hcall)
    as (Hsz & Hpos & Hinv1).
  destruct (read_and_append_spec c header_size io _ _ _ _
              (proj2 Hinv) (proj1 Hinv) Hcall)
    as (_ & _ & _ & data & Hread & Hdata & Hblock).
  rewrite Hread in Hbytes. subst data. rewrite Hsz.
  set (d1 := {| buffer := buf1; buffer_head := buffer_head d + appended;
                state := state d; core_frames := core_frames d |}) in *.
  assert (Hheld1 : buffered d1 = frame ++ rest).
  { unfold buffered, d1. cbn [buffer buffer_head]. rewrite Hblock, Hempty.
    reflexivity. }
  pose proof (sync_aligned c header_size io d1 frame rest Hinv1 Hstate
                Hheld1 Hwf) as Hturn1.
  set (d2 := {| buffer := buffer d1; buffer_head := buffer_head d1;
                state := EXPECTING_PAYLOAD;
                core_frames := core_frames d1 |}) in *.
  assert (Hinv2 : ingress_inv c d2) by exact Hinv1.
  destruct (leading_frame d2 frame rest Hinv2 Hheld1 Hwf)
    as (Hfs & Hframe & Hfit).
  destruct (ingress_inv_bounds c header_size d2 Hinv2) as [Hb Hl].
  assert (Hturn2 : uart_iteration c io d2 = Fatal).
  { unfold uart_iteration. cbn [state].
    rewrite (delimit_short_write io (buffer d2) (buffer_head d2)
               (core_frames d2)); [reflexivity | lia | | ];
      cbv zeta; rewrite Hfs; [exact Hfit |].
    rewrite Hframe. exact Hwrite. }
  apply (uart_loop_more_fuel c io 2).
  - cbn [uart_loop]. rewrite Hturn1. rewrite Hturn2. reflexivity.
  - unfold uart_loop_turns. unfold d1. cbn [buffer_head]. lia.
Qed.

End ShortWrite.

Lemma forwarded_bytes_keep_their_order_witness :
  exists d' new,
    uart_calls sample_hdlc whole_frame_reads initial_ingress
    = Some (Ok (d', [x01; x02; x03; x14; x02; x00; x16; xaa; xbb]))
    /\ core_frames d' = [] ++ new
    /\ subseq (concat new ++ buffered d')
         (buffered initial_ingress
          ++ [x01; x02; x03; x14; x02; x00; x16; xaa; xbb]).
Proof.
  assert (Hrun : exists d',
             uart_calls sample_hdlc whole_frame_reads initial_ingress
             = Some (Ok (d', [x01; x02; x03; x14; x02; x00; x16; xaa; xbb])))
    by (vm_compute; eexists; reflexivity).
  destruct Hrun as [d' Hrun].
  destruct (forwarded_bytes_keep_their_order sample_hdlc
              ltac:(simpl; lia) whole_frame_reads initial_ingress d'
              [x01; x02; x03; x14; x02; x00; x16; xaa; xbb])
    as (new & Hcore & Hsub).
  - sample_inv.
  - exact Hrun.
  - exists d', new. split; [exact Hrun |]. split; [exact Hcore | exact Hsub].
Defined.

Lemma stale_bytes_never_matter_witness :
  match driver_uart_process_uart sample_hdlc (link_syscalls [xcc] write_all)
          framed_ingress,
        driver_uart_process_uart sample_hdlc (link_syscalls [xcc] write_all)
          framed_ingress_stale with
  | Some (Ok e1), Some (Ok e2) => same_held e1 e2
  | Some Fatal, Some Fatal => True
  | _, _ => False
  end.
Proof.
  apply (stale_bytes_never_matter sample_hdlc ltac:(simpl; lia)
           (link_syscalls [xcc] write_all) framed_ingress
           framed_ingress_stale).
  - sample_inv.
  - split; [reflexivity | simpl; unfold UART_BUFFER_SIZE; simpl; lia].
  - repeat split; reflexivity.
Defined.

Lemma short_core_write_is_fatal_witness :
  driver_uart_process_uart sample_hdlc half_taken_read initial_ingress
  = Some Fatal.
Proof.
  apply (short_core_write_is_fatal sample_hdlc ltac:(simpl; lia)
           half_taken_read initial_ingress
           [x14; x02; x00; x16; xaa; xbb] []).
  - sample_inv.
  - reflexivity.
  - reflexivity.
  - split; vm_compute; reflexivity.
  - vm_compute. reflexivity.
  - vm_compute. reflexivity.
Defined.
